(** * Bootcamp Rally: race time model, settlement and transaction scope

    A shallow embedding of the three Python modules of the repository:

    - [snowflake_db.py]: the connection helpers [execute], [execute_many],
      [fetch_all], [fetch_one_value] and the [Transaction] context manager
      with its process-wide [IN_TRANSACTION] flag;
    - [rally_data_access.py]: the SQL statements on TEAMS, CARS, RACES and
      RACE_RESULTS;
    - [streamlit_app.py]: [simulate_time_minutes], the track catalogue and
      the handler of the "Start race" button.

    Numbers.  The numeric columns of the database are exact rationals
    [Q].  The time model is given twice: on exact rationals
    ([simulate_time_minutes_at], with [round(x, n)] as rounding to [n]
    decimals, ties to even), which is the view of the properties that do
    not depend on the last binary digit (order, sign, bounds), and on
    binary64 ([simulate_time_minutes_f64], on the primitive floats of the
    kernel), where every operation is rounded as Python rounds it and in
    the order in which the code performs it.  What depends on the rounding
    of a single operation (the last decimal of a time, the DELTA column of
    the table of budgets) is stated on binary64.

    Effects.  The database session is a pair of snapshots (what is
    committed, what the session sees), the connector may fail at any call
    according to a schedule carried in the state, and [random.random()]
    reads from a stream carried in the state.  Python exceptions are the
    [Raise] outcome of a small state-and-exception monad. *)

From Stdlib Require Import QArith Qround Lqa Lia ZArith List Bool String.
From Stdlib Require Import Permutation Sorted.
From Stdlib Require Import Floats.
Import ListNotations.

Open Scope Q_scope.

(* A decimal literal of type [float] denotes the nearest binary64 number,
   as it does in Python. *)
Set Warnings "-inexact-float".

(* ================================================================== *)
(** * Part I.  Definitions                                             *)
(* ================================================================== *)

(** ** Python builtins used by the time model, on exact rationals *)

(** [a < b] on numbers, as a boolean. *)
Definition Qltb (a b : Q) : bool := negb (Qle_bool b a).

(** [max(a, b)]: the first argument is kept unless the second is
    strictly greater. *)
Definition py_max (a b : Q) : Q := if Qltb a b then b else a.

(** [min(a, b)]: the first argument is kept unless the second is
    strictly smaller. *)
Definition py_min (a b : Q) : Q := if Qltb b a then b else a.

(** Nearest integer, ties to the even neighbour. *)
Definition round_half_even (q : Q) : Z :=
  let f := Qfloor q in
  match Qcompare (q - inject_Z f) (1 # 2) with
  | Lt => f
  | Gt => (f + 1)%Z
  | Eq => if Z.even f then f else (f + 1)%Z
  end.

(** Ten to the power [n], as a positive denominator. *)
Definition scale10 (n : nat) : positive := Z.to_pos (10 ^ Z.of_nat n).

(** [round(x, ndigits)] on an exact rational: rounding to [ndigits]
    decimals, ties to even.  ([f64_round] below is [round] on a float,
    which first has the exact value of the float, not of the decimal
    numeral it was written as.) *)
Definition py_round (x : Q) (ndigits : nat) : Q :=
  Qmake (round_half_even (x * inject_Z (Zpos (scale10 ndigits))))
        (scale10 ndigits).

(** Exceptions that the modelled code can raise. *)
Inductive sql_op : Type :=
| SELECT_TEAMS
| SELECT_CARS
| SELECT_MAX_RACE_ID
| SELECT_RACE_RESULTS
| INSERT_RACE
| INSERT_RACE_RESULTS
| UPDATE_RACE_WINNER
| UPDATE_FEE
| UPDATE_PRIZE.

Inductive exn : Type :=
| DatabaseError (op : sql_op)   (* cursor.execute / executemany raised *)
| CommitError                   (* conn.commit() raised *)
| RollbackError                 (* conn.rollback() raised *)
| ZeroDivisionError
| TypeError                     (* int(None), float(None) *)
| KeyError                      (* tracks[track_name] on an unknown name *)
| IndexError                    (* rows_sorted[0] on an empty list *)
| StopException.                (* st.stop() *)

Inductive result (A : Type) : Type :=
| Ok (a : A)
| Raise (e : exn).
Arguments Ok {A} a.
Arguments Raise {A} e.

(** [x / y]: raises when the divisor is zero. *)
Definition py_div (x y : Q) : result Q :=
  if Qeq_bool y 0 then Raise ZeroDivisionError else Ok (x / y).

(** ** [simulate_time_minutes] (streamlit_app.py, lines 79-106) *)

(** [max(0.0, min(1.0, v))] *)
Definition clamp01 (v : Q) : Q := py_max 0 (py_min 1 v).

(** [0.5 + 0.5 * max(0.0, min(1.0, v))] *)
Definition perf (v : Q) : Q := (1 # 2) + (1 # 2) * clamp01 v.

(** Lines 99 and 102: the effective speed and its floor of 50. *)
Definition eff_speed (speed_kmh durability acceleration track_factor rand : Q)
  : Q :=
  py_max 50
    (speed_kmh * perf durability * perf acceleration * rand * track_factor).

(** The body of [simulate_time_minutes] once the random factor [rand] of
    line 96 has been drawn, on exact rationals. *)
Definition simulate_time_minutes_at
    (speed_kmh durability acceleration track_factor rand distance_km : Q)
  : result Q :=
  match py_div distance_km
          (eff_speed speed_kmh durability acceleration track_factor rand) with
  | Ok time_hours => Ok (py_round (time_hours * 60) 3)
  | Raise e => Raise e
  end.

(** [random.uniform(a, b)] is [a + (b - a) * random()]; [u] is the value
    returned by [random()], a number of the interval [0, 1). *)
Definition uniform (a b u : Q) : Q := a + (b - a) * u.

(** The default arguments of [simulate_time_minutes]. *)
Definition default_variability : Q * Q := (95 # 100, 105 # 100).
Definition default_distance_km : Q := 100.

(** ** The time model on binary64

    A Python [float] is an IEEE 754 binary64 number: the primitive type
    [float], whose [+], [-], [*] and [/] round to the nearest float, ties
    to even.  A decimal literal denotes the float nearest to it, as in
    Python. *)

(** [max(a, b)] and [min(a, b)]: the second argument replaces the first
    only when [b > a] (when [b < a]); a comparison with NaN is false. *)
Definition f64_max (a b : float) : float := if (a <? b)%float then b else a.

Definition f64_min (a b : float) : float := if (b <? a)%float then b else a.

(** [x / y]: Python raises when the divisor equals zero, of either sign. *)
Definition f64_div (x y : float) : result float :=
  if (y =? 0)%float then Raise ZeroDivisionError else Ok (x / y)%float.

(** The number that the finite float of sign [s], mantissa [m] and
    exponent [e] stands for: (-1)^s * m * 2^e. *)
Definition f64_exact (s : bool) (m : positive) (e : Z) : Q :=
  let n := if s then Zneg m else Zpos m in
  match e with
  | Zneg p => Qmake n (2 ^ p)
  | _ => inject_Z (n * 2 ^ e)
  end.

(** The float nearest to the fraction [k / d], ties to even: the reading
    of a decimal numeral ([strtod]).  A zero gets the sign [neg]. *)
Definition f64_nearest (neg : bool) (k : Z) (d : positive) : float :=
  match k with
  | Z0 => if neg then (-0)%float else 0%float
  | Zpos p =>
      SF2Prim (SFdiv prec emax (S754_finite false p 0) (S754_finite false d 0))
  | Zneg p =>
      SF2Prim (SFdiv prec emax (S754_finite true p 0) (S754_finite false d 0))
  end.

(** [round(x, ndigits)] on a float, [ndigits >= 0]: CPython writes the
    exact value of [x] with [ndigits] decimals, correctly rounded (ties to
    even), and reads the numeral back as a float.  Zeros, infinities and
    NaN are returned as they are. *)
Definition f64_round (x : float) (ndigits : nat) : float :=
  match Prim2SF x with
  | S754_finite s m e =>
      f64_nearest s
        (round_half_even
           (f64_exact s m e * inject_Z (Zpos (scale10 ndigits))))
        (scale10 ndigits)
  | _ => x
  end.

(** [float(v)] on a number of the database. *)
Definition f64_of_number (v : Q) : float :=
  f64_nearest false (Qnum v) (Qden v).

(** Lines 92 and 93 *)
Definition f64_perf (v : float) : float :=
  (0.5 + 0.5 * f64_max 0 (f64_min 1 v))%float.

(** Lines 99 and 102 *)
Definition f64_eff_speed
    (speed_kmh durability acceleration track_factor rand : float) : float :=
  f64_max 50
    (speed_kmh * f64_perf durability * f64_perf acceleration
     * rand * track_factor)%float.

(** Lines 92-106 on binary64, once the random factor [rand] of line 96
    has been drawn. *)
Definition simulate_time_minutes_f64
    (speed_kmh durability acceleration track_factor rand distance_km : float)
  : result float :=
  match f64_div distance_km
          (f64_eff_speed speed_kmh durability acceleration track_factor
             rand) with
  | Ok time_hours => Ok (f64_round (time_hours * 60) 3)
  | Raise e => Raise e
  end.

(** ** The tables (columns as the SQL statements of
       rally_data_access.py name them) *)

Record team : Type := mkTeam {
  team_id : Z;
  team_name : string;
  members : string;
  budget : Q
}.

Record car : Type := mkCar {
  car_id : Z;
  car_name : string;
  car_team_id : option Z;        (* CARS.TEAM_ID, nullable *)
  car_speed : Q;
  car_durability : Q;
  car_acceleration : Q
}.

Record race : Type := mkRace {
  race_id : Z;
  race_track_name : string;
  race_winner_team_id : option Z (* NULL until set_race_winner *)
}.

Record race_result : Type := mkRaceResult {
  rr_race_id : Z;
  rr_car_id : Z;
  rr_time_taken : Q;
  rr_position : Z
}.

Record db : Type := mkDb {
  TEAMS : list team;
  CARS : list car;
  RACES : list race;
  RACE_RESULTS : list race_result
}.

Definition set_TEAMS (d : db) (ts : list team) : db :=
  mkDb ts (CARS d) (RACES d) (RACE_RESULTS d).
Definition set_RACES (d : db) (rs : list race) : db :=
  mkDb (TEAMS d) (CARS d) rs (RACE_RESULTS d).
Definition set_RACE_RESULTS (d : db) (rs : list race_result) : db :=
  mkDb (TEAMS d) (CARS d) (RACES d) rs.

(** ** Sorting: [ORDER BY] and Python's [sorted]

    Both are modelled by a stable insertion sort: an element is placed
    before the first element of the sorted tail that it does not exceed,
    so elements that compare equal keep their input order. *)

Section Sorting.
Context {A : Type} (leb : A -> A -> bool).

Fixpoint insert_sorted (a : A) (l : list A) : list A :=
  match l with
  | [] => [a]
  | x :: l' => if leb a x then a :: l else x :: insert_sorted a l'
  end.

Definition sort_by (l : list A) : list A := fold_right insert_sorted [] l.
End Sorting.

(** [ORDER BY key] on an integer column. *)
Definition order_by {A : Type} (key : A -> Z) (l : list A) : list A :=
  sort_by (fun a b => (key a <=? key b)%Z) l.

(** ** Meaning of the SQL statements on a snapshot *)

(** Modelled from the spec: the schema of RACES is not part of the
    sources; RACE_ID is generated by the database when a row is inserted
    ("create a new Race record ...; obtain its identifier").  The generated
    identifier is taken to be one more than the largest one in use. *)
Definition max_race_id (rs : list race) : option Z :=
  fold_right (fun r acc =>
                match acc with
                | None => Some (race_id r)
                | Some m => Some (Z.max (race_id r) m)
                end) None rs.

Definition next_race_id (rs : list race) : Z :=
  match max_race_id rs with
  | None => 1%Z
  | Some m => (m + 1)%Z
  end.

(** [INSERT INTO RACES (TRACK_NAME) VALUES (%s)] *)
Definition sql_insert_race (track_name : string) (d : db) : db * Z :=
  (set_RACES d (RACES d ++ [mkRace (next_race_id (RACES d)) track_name None]),
   1%Z).

(** [UPDATE RACES SET WINNER_TEAM_ID = %s WHERE RACE_ID = %s] *)
Definition sql_update_race_winner (winner_team_id rid : Z) (d : db) : db * Z :=
  (set_RACES d
     (map (fun r => if (race_id r =? rid)%Z
                    then mkRace (race_id r) (race_track_name r)
                                (Some winner_team_id)
                    else r) (RACES d)),
   Z.of_nat (List.length (filter (fun r => (race_id r =? rid)%Z) (RACES d)))).

(** [INSERT INTO RACE_RESULTS (RACE_ID, CAR_ID, TIME_TAKEN, POSITION)
     VALUES (%s, %s, %s, %s)], for one tuple of parameters. *)
Definition sql_insert_race_result (p : Z * Z * Q * Z) (d : db) : db * Z :=
  let '(rid, cid, time_taken, position) := p in
  (set_RACE_RESULTS d
     (RACE_RESULTS d ++ [mkRaceResult rid cid time_taken position]),
   1%Z).

(** [SELECT DISTINCT TEAM_ID FROM CARS WHERE TEAM_ID IS NOT NULL],
    used as the right-hand side of [IN]. *)
Definition team_has_car (d : db) (tid : Z) : bool :=
  existsb (fun c => match car_team_id c with
                    | Some t => (t =? tid)%Z
                    | None => false
                    end) (CARS d).

(** [UPDATE TEAMS t SET t.BUDGET = t.BUDGET - %s WHERE t.TEAM_ID IN (...)] *)
Definition sql_update_fee (fee : Q) (d : db) : db * Z :=
  (set_TEAMS d
     (map (fun t => if team_has_car d (team_id t)
                    then mkTeam (team_id t) (team_name t) (members t)
                                (budget t - fee)
                    else t) (TEAMS d)),
   Z.of_nat (List.length (filter (fun t => team_has_car d (team_id t)) (TEAMS d)))).

(** [UPDATE TEAMS SET BUDGET = BUDGET + %s WHERE TEAM_ID = %s] *)
Definition sql_update_budget (amount : Q) (tid : Z) (d : db) : db * Z :=
  (set_TEAMS d
     (map (fun t => if (team_id t =? tid)%Z
                    then mkTeam (team_id t) (team_name t) (members t)
                                (budget t + amount)
                    else t) (TEAMS d)),
   Z.of_nat (List.length (filter (fun t => (team_id t =? tid)%Z) (TEAMS d)))).

(** [SELECT TEAM_ID, TEAM_NAME, MEMBERS, BUDGET FROM TEAMS ORDER BY TEAM_ID] *)
Definition sql_select_teams (d : db) : list team :=
  order_by team_id (TEAMS d).

(** A row of [get_all_cars]: the car's columns and the name of its team,
    [None] when the LEFT JOIN finds no team. *)
Record car_row : Type := mkCarRow {
  CAR_ID : Z;
  CAR_NAME : string;
  TEAM_ID : option Z;
  TEAM_NAME : option string;
  SPEED : Q;
  DURABILITY : Q;
  ACCELERATION : Q
}.

Definition join_row (c : car) (name : option string) : car_row :=
  mkCarRow (car_id c) (car_name c) (car_team_id c) name
           (car_speed c) (car_durability c) (car_acceleration c).

(** The teams that [ON c.TEAM_ID = t.TEAM_ID] matches with car [c]. *)
Definition teams_of_car (d : db) (c : car) : list team :=
  filter (fun t => match car_team_id c with
                   | Some tid => (team_id t =? tid)%Z
                   | None => false
                   end) (TEAMS d).

(** [SELECT c.CAR_ID, ..., t.TEAM_NAME, ... FROM CARS c LEFT JOIN TEAMS t
     ON c.TEAM_ID = t.TEAM_ID ORDER BY c.CAR_ID] *)
Definition sql_select_cars (d : db) : list car_row :=
  flat_map (fun c =>
              match teams_of_car d c with
              | [] => [join_row c None]
              | ts => map (fun t => join_row c (Some (team_name t))) ts
              end)
           (order_by car_id (CARS d)).

(** [SELECT MAX(RACE_ID) FROM RACES] *)
Definition sql_select_max_race_id (d : db) : option Z := max_race_id (RACES d).

(** ** The state of the process and of the database session *)

(** What the page has shown: [st.warning] and [st.success]. *)
Inductive ui_event : Type :=
| Warning (msg : string)
| Success (race : option Z) (winner_name : option string).

(** - [committed]: the durable content of the database;
    - [working]: what the session sees, that is [committed] plus the
      statements run since the last commit (the connection is opened with
      [autocommit=False]);
    - [IN_TRANSACTION]: the module-level flag of snowflake_db.py;
    - [faults]: for each coming call of the connector, whether it raises
      (an exhausted schedule means that nothing fails any more);
    - [random_stream], [random_pos]: the values that [random.random()]
      returns, and how many have been consumed;
    - [screen]: the messages shown, the latest first. *)
Record world : Type := mkWorld {
  committed : db;
  working : db;
  IN_TRANSACTION : bool;
  faults : list bool;
  random_stream : nat -> Q;
  random_pos : nat;
  screen : list ui_event
}.

Definition set_committed (w : world) (d : db) : world :=
  mkWorld d (working w) (IN_TRANSACTION w) (faults w)
          (random_stream w) (random_pos w) (screen w).
Definition set_working (w : world) (d : db) : world :=
  mkWorld (committed w) d (IN_TRANSACTION w) (faults w)
          (random_stream w) (random_pos w) (screen w).
Definition set_IN_TRANSACTION (w : world) (b : bool) : world :=
  mkWorld (committed w) (working w) b (faults w)
          (random_stream w) (random_pos w) (screen w).
Definition set_faults (w : world) (fs : list bool) : world :=
  mkWorld (committed w) (working w) (IN_TRANSACTION w) fs
          (random_stream w) (random_pos w) (screen w).
Definition set_random_pos (w : world) (n : nat) : world :=
  mkWorld (committed w) (working w) (IN_TRANSACTION w) (faults w)
          (random_stream w) n (screen w).
Definition set_screen (w : world) (s : list ui_event) : world :=
  mkWorld (committed w) (working w) (IN_TRANSACTION w) (faults w)
          (random_stream w) (random_pos w) s.

(** ** The monad of the modelled code: state and exceptions *)

Definition M (A : Type) : Type := world -> result A * world.

Definition ret {A : Type} (a : A) : M A := fun w => (Ok a, w).

Definition raise {A : Type} (e : exn) : M A := fun w => (Raise e, w).

Definition bind {A B : Type} (c : M A) (k : A -> M B) : M B :=
  fun w =>
    match c w with
    | (Ok a, w') => k a w'
    | (Raise e, w') => (Raise e, w')
    end.

Declare Scope py_scope.
Delimit Scope py_scope with py.
Notation "x <- c1 ;; c2" := (bind c1 (fun x => c2))
  (at level 100, c1 at next level, right associativity) : py_scope.
Notation "c1 ;; c2" := (bind c1 (fun _ => c2))
  (at level 100, right associativity) : py_scope.
Open Scope py_scope.

Definition gets {A : Type} (f : world -> A) : M A := fun w => (Ok (f w), w).

Definition modify (f : world -> world) : M unit := fun w => (Ok tt, f w).

(** Runs [c] and hands its outcome, normal or exceptional, to the
    continuation: the building block of [try] and [with]. *)
Definition attempt {A : Type} (c : M A) : M (result A) :=
  fun w => let (r, w') := c w in (Ok r, w').

(** [try: c finally: f] *)
Definition try_finally {A : Type} (c : M A) (f : M unit) : M A :=
  r <- attempt c ;;
  f ;;
  match r with
  | Ok a => ret a
  | Raise e => raise e
  end.

(** Lifting of a pure computation that may raise. *)
Definition lift {A : Type} (r : result A) : M A := fun w => (r, w).

(** ** The connector (snowflake.connector, an external library)

    Every call consults the schedule of faults first; a call that raises
    has no effect on the snapshots. *)
Definition connector_call (e : exn) : M unit :=
  fun w =>
    match faults w with
    | [] => (Ok tt, w)
    | false :: rest => (Ok tt, set_faults w rest)
    | true :: rest => (Raise e, set_faults w rest)
    end.

(** Whether the coming call of the connector raises. *)
Definition next_call_fails (w : world) : bool :=
  match faults w with
  | true :: _ => true
  | _ => false
  end.

(** [session_eq w w']: the two states agree on the database session and
    on the transaction flag. *)
Definition session_eq (w w' : world) : Prop :=
  committed w' = committed w /\
  working w' = working w /\
  IN_TRANSACTION w' = IN_TRANSACTION w.

(** [cur.execute(sql, params)] for a statement that changes the data:
    [effect] is the meaning of [sql] with its parameters bound. *)
Definition cursor_execute (op : sql_op) (effect : db -> db * Z) : M Z :=
  connector_call (DatabaseError op) ;;
  d <- gets working ;;
  modify (fun w => set_working w (fst (effect d))) ;;
  ret (snd (effect d)).

(** [cur.executemany(sql, many_params)]: the statement is run once per
    tuple of parameters; the row counts add up. *)
Definition run_many {P : Type} (effect : P -> db -> db * Z)
    (many_params : list P) (d : db) : db * Z :=
  fold_left (fun acc p =>
               let (d', n) := effect p (fst acc) in (d', (snd acc + n)%Z))
            many_params (d, 0%Z).

Definition cursor_executemany {P : Type} (op : sql_op)
    (effect : P -> db -> db * Z) (many_params : list P) : M Z :=
  cursor_execute op (run_many effect many_params).

(** [cur.execute(sql, params)] followed by [cur.fetchall()] or
    [cur.fetchone()] for a query. *)
Definition cursor_query {R : Type} (op : sql_op) (query : db -> R) : M R :=
  connector_call (DatabaseError op) ;;
  d <- gets working ;;
  ret (query d).

(** [conn.commit()] *)
Definition conn_commit : M unit :=
  connector_call CommitError ;;
  modify (fun w => set_committed w (working w)).

(** [conn.rollback()] *)
Definition conn_rollback : M unit :=
  connector_call RollbackError ;;
  modify (fun w => set_working w (committed w)).

(** ** snowflake_db.py *)

(** [fetch_all(conn, sql, params)] *)
Definition fetch_all {R : Type} (op : sql_op) (query : db -> list R)
  : M (list R) :=
  cursor_query op query.

(** [fetch_one_value(conn, sql, params)] *)
Definition fetch_one_value {V : Type} (op : sql_op) (query : db -> option V)
  : M (option V) :=
  cursor_query op query.

(** [execute(conn, sql, params)] *)
Definition execute (op : sql_op) (effect : db -> db * Z) : M Z :=
  rowcount <- cursor_execute op effect ;;
  in_tx <- gets IN_TRANSACTION ;;
  (if negb in_tx then conn_commit else ret tt) ;;
  ret rowcount.

(** [execute_many(conn, sql, many_params)] *)
Definition execute_many {P : Type} (op : sql_op)
    (effect : P -> db -> db * Z) (many_params : list P) : M Z :=
  rowcount <- cursor_executemany op effect many_params ;;
  in_tx <- gets IN_TRANSACTION ;;
  (if negb in_tx then conn_commit else ret tt) ;;
  ret rowcount.

(** [Transaction.__enter__]: returns the saved flag, the field [_prev] of
    the context manager. *)
Definition Transaction_enter : M bool :=
  prev <- gets IN_TRANSACTION ;;
  modify (fun w => set_IN_TRANSACTION w true) ;;
  ret prev.

(** [Transaction.__exit__(exc_type, exc, tb)]: [exc] is [None] when the
    body completed.  The value returned, [False], tells Python not to
    suppress the exception. *)
Definition Transaction_exit (prev : bool) (exc : option exn) : M bool :=
  try_finally
    (match exc with
     | None => conn_commit
     | Some _ => conn_rollback
     end)
    (modify (fun w => set_IN_TRANSACTION w prev)) ;;
  ret false.

(** [with transaction(conn): body].  The body is a block of statements;
    when it raises, [__exit__] decides whether the exception is
    suppressed (execution then continues after the block). *)
Definition with_transaction (body : M unit) : M unit :=
  prev <- Transaction_enter ;;
  r <- attempt body ;;
  match r with
  | Ok _ => Transaction_exit prev None ;; ret tt
  | Raise e =>
      suppress <- Transaction_exit prev (Some e) ;;
      if (suppress : bool) then ret tt else raise e
  end.

(** ** rally_data_access.py *)

Definition get_all_teams : M (list team) :=
  fetch_all SELECT_TEAMS sql_select_teams.

Definition get_all_cars : M (list car_row) :=
  fetch_all SELECT_CARS sql_select_cars.

(** [create_race(con, track_name)]: the identifier is read back with
    [SELECT MAX(RACE_ID)]; [None] when the query returns NULL. *)
Definition create_race (track_name : string) : M (option Z) :=
  execute INSERT_RACE (sql_insert_race track_name) ;;
  rid <- fetch_one_value SELECT_MAX_RACE_ID sql_select_max_race_id ;;
  ret rid.

Definition set_race_winner (rid winner_team_id : Z) : M Z :=
  execute UPDATE_RACE_WINNER (sql_update_race_winner winner_team_id rid).

Definition insert_race_results (rid : Z) (results : list (Z * Q * Z)) : M Z :=
  let params :=
    map (fun r => let '(cid, time_taken, position) := r in
                  (rid, cid, time_taken, position)) results in
  execute_many INSERT_RACE_RESULTS sql_insert_race_result params.

Definition pay_participation_fee_for_all_teams_with_cars (fee : Q) : M Z :=
  execute UPDATE_FEE (sql_update_fee fee).

Definition credit_winner_prize (winner_team_id : Z) (prize : Q) : M Z :=
  execute UPDATE_PRIZE (sql_update_budget prize winner_team_id).

(** ** streamlit_app.py *)

Definition teams_df : M (list team) := get_all_teams.

Definition cars_df : M (list car_row) := get_all_cars.

(** [random.random()] *)
Definition random_random : M Q :=
  s <- gets random_stream ;;
  n <- gets random_pos ;;
  modify (fun w => set_random_pos w (S n)) ;;
  ret (s n).

(** [random.uniform(a, b)] *)
Definition random_uniform (a b : Q) : M Q :=
  u <- random_random ;;
  ret (uniform a b u).

(** [simulate_time_minutes(speed_kmh, durability, acceleration,
     track_factor, variability, distance_km)] *)
Definition simulate_time_minutes
    (speed_kmh durability acceleration track_factor : Q)
    (variability : Q * Q) (distance_km : Q) : M Q :=
  rand <- random_uniform (fst variability) (snd variability) ;;
  lift (simulate_time_minutes_at speed_kmh durability acceleration
          track_factor rand distance_km).

(** [build_track_catalog()]: name, factor, description. *)
Definition build_track_catalog : list (string * (Q * string)) :=
  [ ("Asphalt Sprint"%string, (100 # 100, "Fast, clean asphalt"%string));
    ("Desert Loop"%string, (92 # 100, "Sand reduces grip"%string));
    ("Forest Run"%string, (96 # 100, "Mixed terrain, narrow"%string));
    ("Mountain Pass"%string, (90 # 100, "Steep climbs, tricky"%string)) ].

(** [tracks[track_name]] *)
Definition track_lookup (tracks : list (string * (Q * string)))
    (track_name : string) : M (Q * string) :=
  match find (fun kv => String.eqb (fst kv) track_name) tracks with
  | Some kv => ret (snd kv)
  | None => raise KeyError
  end.

(** A dictionary built by a comprehension over rows, as the list of its
    bindings in the order of the rows; a later binding of a key replaces
    an earlier one. *)
Fixpoint dict_get {V : Type} (d : list (Z * V)) (k : Z) : option V :=
  match d with
  | [] => None
  | (k', v) :: rest =>
      match dict_get rest k with
      | Some v' => Some v'
      | None => if (k' =? k)%Z then Some v else None
      end
  end.

(** The keys of a dictionary, each once, in the order of first insertion. *)
Definition dict_keys {V : Type} (d : list (Z * V)) : list Z :=
  rev (nodup Z.eq_dec (rev (map fst d))).

(** [compute_budgets_map(df)] *)
Definition compute_budgets_map (df : list team) : list (Z * Q) :=
  map (fun r => (team_id r, budget r)) df.

(** [team_name_map(df)] *)
Definition team_name_map (df : list team) : list (Z * string) :=
  map (fun r => (team_id r, team_name r)) df.

(** [int(v)] on a value of a nullable integer column.  A missing value
    reaches [int] as [None] or, when pandas has turned the column into
    floats, as NaN: [int] raises [TypeError] for the first and
    [ValueError] for the second.  The model has one exception for both,
    named [TypeError]; no property depends on which of the two it is. *)
Definition py_int (v : option Z) : M Z :=
  match v with
  | Some z => ret z
  | None => raise TypeError
  end.

(** The dictionaries appended to [rows] (lines 279-287). *)
Record timed_row : Type := mkTimedRow {
  row_CAR_ID : Z;
  row_TEAM_ID : Z;
  row_CAR_NAME : string;
  row_TEAM_NAME : string;
  row_TIME_MIN : Q
}.

(** [str(row.get("TEAM_NAME", ""))] *)
Definition str_team_name (name : option string) : string :=
  match name with
  | Some s => s
  | None => "None"%string
  end.

(** The loop of lines 272-287: one call of the time model per row of the
    roster, in the order of the roster. *)
Fixpoint compute_rows (t_factor : Q) (df_c : list car_row)
  : M (list timed_row) :=
  match df_c with
  | [] => ret []
  | row :: rest =>
      time_min <- simulate_time_minutes (SPEED row) (DURABILITY row)
                    (ACCELERATION row) t_factor
                    default_variability default_distance_km ;;
      tid <- py_int (TEAM_ID row) ;;
      rows <- compute_rows t_factor rest ;;
      ret (mkTimedRow (CAR_ID row) tid (CAR_NAME row)
                      (str_team_name (TEAM_NAME row)) time_min :: rows)
  end.

(** [sorted(rows, key=lambda r: r["TIME_MIN"])] *)
Definition sorted_by_time (rows : list timed_row) : list timed_row :=
  sort_by (fun a b => Qle_bool (row_TIME_MIN a) (row_TIME_MIN b)) rows.

(** Lines 293-295: [enumerate(rows_sorted, start)] into the tuples
    (car, time, position). *)
Fixpoint enumerate_results (start : Z) (rows_sorted : list timed_row)
  : list (Z * Q * Z) :=
  match rows_sorted with
  | [] => []
  | r :: rest =>
      (row_CAR_ID r, row_TIME_MIN r, start)
        :: enumerate_results (start + 1) rest
  end.

(** [rows_sorted[0]["TEAM_ID"]] *)
Definition first_team_id (rows_sorted : list timed_row) : M Z :=
  match rows_sorted with
  | r :: _ => ret (row_TEAM_ID r)
  | [] => raise IndexError
  end.

Definition st_warning (msg : string) : M unit :=
  modify (fun w => set_screen w (Warning msg :: screen w)).

Definition st_success (race : option Z) (winner_name : option string)
  : M unit :=
  modify (fun w => set_screen w (Success race winner_name :: screen w)).

(** [st.stop()] ends the run of the script. *)
Definition st_stop {A : Type} : M A := raise StopException.

(** The local variables of the handler that the properties speak of. *)
Record race_report : Type := mkReport {
  rep_race_id : option Z;
  rep_rows : list timed_row;
  rep_results_payload : list (Z * Q * Z);
  rep_winner_team_id : Z
}.

(** The four calls of lines 302-305. *)
Definition settlement_body (rid : option Z)
    (results_payload : list (Z * Q * Z)) (winner_team_id : Z)
    (fee prize : Q) : M unit :=
  r <- py_int rid ;;
  insert_race_results r results_payload ;;
  r <- py_int rid ;;
  set_race_winner r winner_team_id ;;
  pay_participation_fee_for_all_teams_with_cars fee ;;
  credit_winner_prize winner_team_id prize ;;
  ret tt.

(** The block of lines 301-305: [with transaction(conn): ...]. *)
Definition settlement_group (rid : option Z)
    (results_payload : list (Z * Q * Z)) (winner_team_id : Z)
    (fee prize : Q) : M unit :=
  with_transaction
    (settlement_body rid results_payload winner_team_id fee prize).

(** The race page when the button "Start race!" has been pressed:
    lines 232-308, with [track_name], [fee] and [prize] as entered in the
    form. *)
Definition start_race (track_name : string) (fee prize : Q) : M race_report :=
  let tracks := build_track_catalog in
  _ <- track_lookup tracks track_name ;;            (* line 247 *)
  df_c <- cars_df ;;
  df_t <- teams_df ;;
  match df_c with
  | [] =>
      st_warning "No cars available. Add cars first." ;;
      st_stop
  | _ :: _ =>
      let team_names := team_name_map df_t in
      rid <- create_race track_name ;;
      t <- track_lookup tracks track_name ;;
      let t_factor := fst t in
      rows <- compute_rows t_factor df_c ;;
      let rows_sorted := sorted_by_time rows in
      let results_payload := enumerate_results 1 rows_sorted in
      winner_team_id <- first_team_id rows_sorted ;;
      settlement_group rid results_payload winner_team_id fee prize ;;
      st_success rid (dict_get team_names winner_team_id) ;;
      ret (mkReport rid rows results_payload winner_team_id)
  end.

(** Lines 321-331 without the rounding of the display: the change of
    budget of every team known before the race. *)
Definition budget_deltas (teams_before teams_after : list team) : list Q :=
  let budgets_before := compute_budgets_map teams_before in
  let budgets_after := compute_budgets_map teams_after in
  map (fun tid =>
         let before := match dict_get budgets_before tid with
                       | Some b => b | None => 0 end in
         let after := match dict_get budgets_after tid with
                      | Some b => b | None => 0 end in
         after - before)
      (dict_keys (team_name_map teams_before)).

Definition Qsum (l : list Q) : Q := fold_right Qplus 0 l.

(** ** Vocabulary of the properties *)

(** The row of RACE_RESULTS that [insert_race_results] writes for a tuple
    of the payload. *)
Definition result_row (rid : Z) (p : Z * Q * Z) : race_result :=
  let '(cid, time_taken, position) := p in
  mkRaceResult rid cid time_taken position.

(** The database after the four statements of the settlement group, run
    in the order of lines 302-305. *)
Definition settled_db (rid : Z) (results_payload : list (Z * Q * Z))
    (winner_team_id : Z) (fee prize : Q) (d : db) : db :=
  let params :=
    map (fun r => let '(cid, time_taken, position) := r in
                  (rid, cid, time_taken, position)) results_payload in
  let d1 := fst (run_many sql_insert_race_result params d) in
  let d2 := fst (sql_update_race_winner winner_team_id rid d1) in
  let d3 := fst (sql_update_fee fee d2) in
  fst (sql_update_budget prize winner_team_id d3).

(** The fee, then the prize, on one row of TEAMS: what lines 304 and 305
    do to team [t] when the cars are those of [d]. *)
Definition settle_team (d : db) (winner_team_id : Z) (fee prize : Q)
    (t : team) : team :=
  let t1 := if team_has_car d (team_id t)
            then mkTeam (team_id t) (team_name t) (members t) (budget t - fee)
            else t in
  if (team_id t1 =? winner_team_id)%Z
  then mkTeam (team_id t1) (team_name t1) (members t1) (budget t1 + prize)
  else t1.

(** The exceptions of the four statements of the settlement group. *)
Definition group_failure (e : exn) : Prop :=
  e = DatabaseError INSERT_RACE_RESULTS \/
  e = DatabaseError UPDATE_RACE_WINNER \/
  e = DatabaseError UPDATE_FEE \/
  e = DatabaseError UPDATE_PRIZE.

(** [row_of tf row r]: the dictionary [r] is what the loop of lines
    272-287 appends for the row [row] of the roster, for some value of the
    random factor. *)
Definition row_of (t_factor : Q) (row : car_row) (r : timed_row) : Prop :=
  row_CAR_ID r = CAR_ID row /\
  TEAM_ID row = Some (row_TEAM_ID r) /\
  exists rand,
    simulate_time_minutes_at (SPEED row) (DURABILITY row) (ACCELERATION row)
      t_factor rand default_distance_km = Ok (row_TIME_MIN r).

(** The scenario of the specification: two teams with one car each. *)
Definition scenario_db : db :=
  mkDb [ mkTeam 1 "T1" "Alice,Bob" 10000; mkTeam 2 "T2" "Carol" 8000 ]
       [ mkCar 1 "CarA" (Some 1%Z) 220 (85 # 100) (90 # 100);
         mkCar 2 "CarB" (Some 2%Z) 200 (80 # 100) (80 # 100) ]
       [] [].

(** A session on [scenario_db] with nothing pending, the flag down, the
    given schedule of faults and a random generator that always returns
    0.5 (so that the random factor is 1). *)
Definition scenario_world (fs : list bool) : world :=
  mkWorld scenario_db scenario_db false fs (fun _ => 1 # 2) 0 [].

(** ** The time model in the words of the specification

    Used only to compare it with [simulate_time_minutes_at]. *)

(** "Clamp durability and acceleration to [0,1]." *)
Definition spec_clamp (v : Q) : Q :=
  if Qltb v 0 then 0 else if Qltb 1 v then 1 else v.

(** "effective_speed = speed * perf_d * perf_a * rand * track_factor,
    floored at a minimum of 50", with "perf_d = 0.5 + 0.5*durability" and
    "perf_a = 0.5 + 0.5*acceleration" on the clamped attributes. *)
Definition spec_effective_speed
    (speed durability acceleration track_factor rand : Q) : Q :=
  let raw := speed * ((1 # 2) + (1 # 2) * spec_clamp durability)
                   * ((1 # 2) + (1 # 2) * spec_clamp acceleration)
                   * rand * track_factor in
  if Qltb raw 50 then 50 else raw.

(** "time_minutes = round(60 * distance_km / effective_speed, 3)" *)
Definition spec_time_minutes
    (speed durability acceleration track_factor rand distance_km : Q) : Q :=
  py_round
    (60 * distance_km
       / spec_effective_speed speed durability acceleration track_factor rand)
    3.

(** The same formula on binary64, evaluated as Python evaluates the
    expression [60 * distance_km / effective_speed]: from left to right,
    the product first. *)
Definition spec_time_minutes_f64
    (speed durability acceleration track_factor rand distance_km : float)
  : float :=
  let clamped v := f64_max 0 (f64_min 1 v) in
  let raw := (speed * (0.5 + 0.5 * clamped durability)
              * (0.5 + 0.5 * clamped acceleration)
              * rand * track_factor)%float in
  f64_round (60 * distance_km / f64_max 50 raw) 3.

(** [no_slower r2 r1]: both runs of the time model return a time, and
    the time of [r2] is at most the time of [r1]. *)
Definition no_slower (r2 r1 : result Q) : Prop :=
  match r2, r1 with
  | Ok t2, Ok t1 => t2 <= t1
  | _, _ => False
  end.

(** ** Further functions of the sources *)

(** [update_team_budget_delta(con, team_id, delta)]
    (rally_data_access.py): its statement is, word for word, the one of
    [credit_winner_prize], hence the same label. *)
Definition update_team_budget_delta (tid : Z) (delta : Q) : M Z :=
  execute UPDATE_PRIZE (sql_update_budget delta tid).

(** A dictionary with string keys, as the list of its assignments in
    the order they were made; the latest assignment of a key is its
    value. *)
Fixpoint item_get {V : Type} (item : list (string * V)) (k : string)
  : option V :=
  match item with
  | [] => None
  | (k', v) :: rest =>
      match item_get rest k with
      | Some v' => Some v'
      | None => if String.eqb k' k then Some v else None
      end
  end.

(** The inner loop of [_rows_to_dicts] (snowflake_db.py, lines 53-54):
    [item[col_names[i]] = row[i]] for the indices [i] in turn; [row[i]]
    raises [IndexError] past the end of the row. *)
Fixpoint fill_item {V : Type} (col_names : list string) (row : list V)
    (indices : list nat) (item : list (string * V))
  : result (list (string * V)) :=
  match indices with
  | [] => Ok item
  | i :: rest =>
      match nth_error col_names i, nth_error row i with
      | Some c, Some v => fill_item col_names row rest (item ++ [(c, v)])
      | _, _ => Raise IndexError
      end
  end.

(** [_rows_to_dicts(cursor, rows)], with [col_names] the names found in
    [cursor.description]. *)
Fixpoint rows_to_dicts {V : Type} (col_names : list string)
    (rows : list (list V)) : result (list (list (string * V))) :=
  match rows with
  | [] => Ok []
  | row :: rest =>
      match fill_item col_names row (seq 0 (List.length col_names)) [] with
      | Raise e => Raise e
      | Ok item =>
          match rows_to_dicts col_names rest with
          | Raise e => Raise e
          | Ok result => Ok (item :: result)
          end
      end
  end.

(** The rows of the table of budgets (streamlit_app.py, lines 324-331),
    before they are put in a data frame: team, budget before, budget
    after, and the change rounded to cents.  The dictionaries hold the
    budgets as the database returned them; [float(...)] takes each to
    binary64, and the difference and its rounding are those of binary64. *)
Definition budget_rows (team_names : list (Z * string))
    (budgets_before budgets_after : list (Z * Q))
  : list (string * float * float * float) :=
  map (fun tid =>
         let name := match dict_get team_names tid with
                     | Some s => s | None => EmptyString end in
         let before := match dict_get budgets_before tid with
                       | Some b => f64_of_number b | None => 0%float end in
         let after := match dict_get budgets_after tid with
                      | Some b => f64_of_number b | None => 0%float end in
         (name, before, after, f64_round (after - before) 2))
      (dict_keys team_names).

(** A row of [get_race_results] (rally_data_access.py, lines 174-195).
    RESULT_ID, which the database generates and which no statement of the
    sources writes or reads back by value, is not part of the model of
    RACE_RESULTS and is left out of the row. *)
Record result_view : Type := mkResultView {
  RV_RACE_ID : Z;
  RV_CAR_ID : Z;
  RV_CAR_NAME : option string;
  RV_TEAM_ID : option Z;
  RV_TEAM_NAME : option string;
  RV_TIME_TAKEN : Q;
  RV_POSITION : Z
}.

(** The cars that [ON rr.CAR_ID = c.CAR_ID] matches with result [rr]. *)
Definition cars_of_result (d : db) (rr : race_result) : list car :=
  filter (fun c => (car_id c =? rr_car_id rr)%Z) (CARS d).

(** The rows that the two LEFT JOINs give for one result. *)
Definition join_result (d : db) (rr : race_result) : list result_view :=
  let view name tid tname :=
    mkResultView (rr_race_id rr) (rr_car_id rr) name tid tname
                 (rr_time_taken rr) (rr_position rr) in
  match cars_of_result d rr with
  | [] => [view None None None]
  | cs =>
      flat_map (fun c =>
                  match teams_of_car d c with
                  | [] => [view (Some (car_name c)) (car_team_id c) None]
                  | ts =>
                      map (fun t => view (Some (car_name c)) (car_team_id c)
                                         (Some (team_name t))) ts
                  end) cs
  end.

(** [SELECT ... FROM RACE_RESULTS rr LEFT JOIN CARS c ... LEFT JOIN TEAMS t
    ... WHERE rr.RACE_ID = %s ORDER BY rr.POSITION ASC] *)
Definition sql_select_race_results (rid : Z) (d : db) : list result_view :=
  order_by RV_POSITION
    (flat_map (join_result d)
       (filter (fun rr => (rr_race_id rr =? rid)%Z) (RACE_RESULTS d))).

(** [get_race_results(con, race_id)] *)
Definition get_race_results (rid : Z) : M (list result_view) :=
  fetch_all SELECT_RACE_RESULTS (sql_select_race_results rid).

(* ================================================================== *)
(** * Part II.  Properties                                             *)
(* ================================================================== *)

(** ** Comparisons, [max] and [min] *)

Lemma Qltb_lt (a b : Q) : Qltb a b = true <-> a < b.
Proof.
  unfold Qltb. rewrite negb_true_iff.
  split; intros H.
  - apply Qnot_le_lt. intros Hle. apply Qle_bool_iff in Hle. congruence.
  - destruct (Qle_bool b a) eqn:E; [|reflexivity].
    apply Qle_bool_iff in E. lra.
Qed.

Lemma Qltb_ge (a b : Q) : Qltb a b = false <-> b <= a.
Proof.
  unfold Qltb. rewrite negb_false_iff. apply Qle_bool_iff.
Qed.

Lemma py_max_cases (a b : Q) :
  (a < b /\ py_max a b = b) \/ (b <= a /\ py_max a b = a).
Proof.
  unfold py_max. destruct (Qltb a b) eqn:E.
  - left. split; [now apply Qltb_lt | reflexivity].
  - right. split; [now apply Qltb_ge | reflexivity].
Qed.

Lemma py_min_cases (a b : Q) :
  (b < a /\ py_min a b = b) \/ (a <= b /\ py_min a b = a).
Proof.
  unfold py_min. destruct (Qltb b a) eqn:E.
  - left. split; [now apply Qltb_lt | reflexivity].
  - right. split; [now apply Qltb_ge | reflexivity].
Qed.

Lemma py_max_mono (a b b' : Q) : b <= b' -> py_max a b <= py_max a b'.
Proof.
  intros H.
  destruct (py_max_cases a b) as [[? ->]|[? ->]];
    destruct (py_max_cases a b') as [[? ->]|[? ->]]; lra.
Qed.

Lemma py_min_mono (a b b' : Q) : b <= b' -> py_min a b <= py_min a b'.
Proof.
  intros H.
  destruct (py_min_cases a b) as [[? ->]|[? ->]];
    destruct (py_min_cases a b') as [[? ->]|[? ->]]; lra.
Qed.

Lemma clamp01_range (v : Q) : 0 <= clamp01 v <= 1.
Proof.
  unfold clamp01.
  destruct (py_min_cases 1 v) as [[? ->]|[? ->]];
    destruct (py_max_cases 0 v) as [[? E]|[? E]];
    destruct (py_max_cases 0 1) as [[? E1]|[? E1]];
    rewrite ?E, ?E1; lra.
Qed.

Lemma clamp01_mono (v v' : Q) : v <= v' -> clamp01 v <= clamp01 v'.
Proof.
  intros H. unfold clamp01. apply py_max_mono. now apply py_min_mono.
Qed.

Lemma clamp01_spec (v : Q) : clamp01 v == spec_clamp v.
Proof.
  unfold clamp01, spec_clamp.
  destruct (Qltb v 0) eqn:E0; [apply Qltb_lt in E0 | apply Qltb_ge in E0];
    (destruct (Qltb 1 v) eqn:E1; [apply Qltb_lt in E1 | apply Qltb_ge in E1]);
    destruct (py_min_cases 1 v) as [[? ->]|[? ->]];
    try lra;
    match goal with
    | |- py_max 0 ?x == _ =>
        destruct (py_max_cases 0 x) as [[? ->]|[? ->]]; lra
    end.
Qed.

(** ** The performance multipliers and the effective speed *)

Lemma perf_range (v : Q) : (1 # 2) <= perf v <= 1.
Proof.
  unfold perf. pose proof (clamp01_range v). lra.
Qed.

Lemma perf_mono (v v' : Q) : v <= v' -> perf v <= perf v'.
Proof.
  intros H. unfold perf. pose proof (clamp01_mono v v' H). lra.
Qed.

Lemma eff_speed_floor (s d a tf r : Q) : 50 <= eff_speed s d a tf r.
Proof.
  unfold eff_speed.
  match goal with
  | |- _ <= py_max 50 ?x => destruct (py_max_cases 50 x) as [[? ->]|[? ->]]
  end; lra.
Qed.

Lemma eff_speed_spec (s d a tf r : Q) :
  eff_speed s d a tf r == spec_effective_speed s d a tf r.
Proof.
  unfold eff_speed, spec_effective_speed, perf.
  cbv zeta.
  assert (E : s * ((1 # 2) + (1 # 2) * clamp01 d)
                * ((1 # 2) + (1 # 2) * clamp01 a) * r * tf
              == s * ((1 # 2) + (1 # 2) * spec_clamp d)
                   * ((1 # 2) + (1 # 2) * spec_clamp a) * r * tf)
    by (now rewrite !clamp01_spec).
  match goal with
  | |- py_max 50 ?x == (if Qltb ?y 50 then _ else _) =>
      destruct (py_max_cases 50 x) as [[? ->]|[? ->]];
      (destruct (Qltb y 50) eqn:Ey;
       [apply Qltb_lt in Ey | apply Qltb_ge in Ey]); lra
  end.
Qed.
Lemma product_mono (x x' k1 k2 k3 k4 : Q) :
  0 <= k1 -> 0 <= k2 -> 0 <= k3 -> 0 <= k4 -> x <= x' ->
  x * k1 * k2 * k3 * k4 <= x' * k1 * k2 * k3 * k4.
Proof.
  intros H1 H2 H3 H4 H.
  repeat (apply Qmult_le_compat_r; [|assumption]). exact H.
Qed.

Lemma eff_speed_mono_speed (s s' d a tf r : Q) :
  0 <= r -> 0 <= tf -> s <= s' ->
  eff_speed s d a tf r <= eff_speed s' d a tf r.
Proof.
  intros Hr Ht H. unfold eff_speed. apply py_max_mono.
  pose proof (perf_range d). pose proof (perf_range a).
  apply product_mono; lra.
Qed.

Lemma eff_speed_mono_durability (s d d' a tf r : Q) :
  0 <= s -> 0 <= r -> 0 <= tf -> d <= d' ->
  eff_speed s d a tf r <= eff_speed s d' a tf r.
Proof.
  intros Hs Hr Ht H. unfold eff_speed. apply py_max_mono.
  pose proof (perf_range a). pose proof (perf_mono d d' H).
  setoid_replace (s * perf d * perf a * r * tf)
    with (perf d * s * perf a * r * tf) by ring.
  setoid_replace (s * perf d' * perf a * r * tf)
    with (perf d' * s * perf a * r * tf) by ring.
  apply product_mono; lra.
Qed.

Lemma eff_speed_mono_acceleration (s d a a' tf r : Q) :
  0 <= s -> 0 <= r -> 0 <= tf -> a <= a' ->
  eff_speed s d a tf r <= eff_speed s d a' tf r.
Proof.
  intros Hs Hr Ht H. unfold eff_speed. apply py_max_mono.
  pose proof (perf_range d). pose proof (perf_mono a a' H).
  setoid_replace (s * perf d * perf a * r * tf)
    with (perf a * s * perf d * r * tf) by ring.
  setoid_replace (s * perf d * perf a' * r * tf)
    with (perf a' * s * perf d * r * tf) by ring.
  apply product_mono; lra.
Qed.

Lemma eff_speed_mono_track (s d a tf tf' r : Q) :
  0 <= s -> 0 <= r -> tf <= tf' ->
  eff_speed s d a tf r <= eff_speed s d a tf' r.
Proof.
  intros Hs Hr H. unfold eff_speed. apply py_max_mono.
  pose proof (perf_range d). pose proof (perf_range a).
  setoid_replace (s * perf d * perf a * r * tf)
    with (tf * s * perf d * perf a * r) by ring.
  setoid_replace (s * perf d * perf a * r * tf')
    with (tf' * s * perf d * perf a * r) by ring.
  apply product_mono; lra.
Qed.

(** ** Rounding *)

Lemma round_half_even_bounds (q : Q) :
  (Qfloor q <= round_half_even q <= Qfloor q + 1)%Z.
Proof.
  unfold round_half_even. cbv zeta.
  destruct (Qcompare _ _); [destruct (Z.even _)| |]; lia.
Qed.

Lemma round_half_even_comp (q q' : Q) :
  q == q' -> round_half_even q = round_half_even q'.
Proof.
  intros H. unfold round_half_even. cbv zeta.
  rewrite (Qfloor_comp _ _ H).
  replace (Qcompare (q - inject_Z (Qfloor q')) (1 # 2))
    with (Qcompare (q' - inject_Z (Qfloor q')) (1 # 2)); [reflexivity|].
  apply Qcompare_comp; [rewrite H|]; reflexivity.
Qed.

Lemma round_half_even_mono (q q' : Q) :
  q <= q' -> (round_half_even q <= round_half_even q')%Z.
Proof.
  intros H.
  pose proof (Qfloor_resp_le _ _ H) as Hf.
  destruct (Z.eq_dec (Qfloor q) (Qfloor q')) as [E|N].
  - unfold round_half_even. cbv zeta. rewrite E.
    destruct (Qcompare_spec (q - inject_Z (Qfloor q')) (1 # 2));
      destruct (Qcompare_spec (q' - inject_Z (Qfloor q')) (1 # 2));
      try destruct (Z.even _); try lia; lra.
  - pose proof (round_half_even_bounds q).
    pose proof (round_half_even_bounds q'). lia.
Qed.

Lemma round_half_even_nonneg (q : Q) : 0 <= q -> (0 <= round_half_even q)%Z.
Proof.
  intros H. pose proof (round_half_even_bounds q).
  pose proof (Qfloor_resp_le _ _ H) as Hf.
  change (Qfloor 0) with 0%Z in Hf. lia.
Qed.

Lemma Qmake_le (n m : Z) (p : positive) : (n <= m)%Z -> Qmake n p <= Qmake m p.
Proof.
  intros H. unfold Qle. simpl. nia.
Qed.

Lemma scale10_pos (n : nat) : 0 < inject_Z (Zpos (scale10 n)).
Proof.
  unfold Qlt. simpl. lia.
Qed.

Lemma py_round_mono (x y : Q) (n : nat) : x <= y -> py_round x n <= py_round y n.
Proof.
  intros H. unfold py_round. apply Qmake_le. apply round_half_even_mono.
  apply Qmult_le_compat_r; [exact H|]. apply Qlt_le_weak, scale10_pos.
Qed.

Lemma py_round_comp (x y : Q) (n : nat) : x == y -> py_round x n = py_round y n.
Proof.
  intros H. unfold py_round. f_equal. apply round_half_even_comp.
  now rewrite H.
Qed.

Lemma py_round_nonneg (x : Q) (n : nat) : 0 <= x -> 0 <= py_round x n.
Proof.
  intros H. unfold py_round.
  assert (Hz : (0 <= round_half_even (x * inject_Z (Zpos (scale10 n))))%Z).
  { apply round_half_even_nonneg. apply Qmult_le_0_compat; [exact H|].
    apply Qlt_le_weak, scale10_pos. }
  unfold Qle. simpl. lia.
Qed.

(** ** The time model *)

Lemma py_div_defined (x y : Q) : 0 < y -> py_div x y = Ok (x / y).
Proof.
  intros H. unfold py_div.
  destruct (Qeq_bool y 0) eqn:E; [|reflexivity].
  apply Qeq_bool_eq in E. lra.
Qed.

(** The division of line 105 never divides by zero, whatever the inputs. *)
Lemma simulate_time_minutes_at_value (s d a tf r dist : Q) :
  simulate_time_minutes_at s d a tf r dist
  = Ok (py_round (dist / eff_speed s d a tf r * 60) 3).
Proof.
  unfold simulate_time_minutes_at.
  rewrite py_div_defined; [reflexivity|].
  pose proof (eff_speed_floor s d a tf r). lra.
Qed.

Lemma Qdiv_le_antitone (x e e' : Q) :
  0 <= x -> 0 < e -> e <= e' -> x / e' <= x / e.
Proof.
  intros Hx He H.
  apply Qle_shift_div_l; [lra|].
  setoid_replace (x / e' * e) with (x * (e / e'))
    by (field; lra).
  assert (Hr : e / e' <= 1) by (apply Qle_shift_div_r; lra).
  assert (H1 : x * (e / e') <= x * 1)
    by (rewrite !(Qmult_comm x); apply Qmult_le_compat_r; assumption).
  lra.
Qed.

(** A larger effective speed never gives a larger time. *)
Lemma time_antitone_in_eff_speed (s d a tf r s' d' a' tf' r' dist : Q) :
  0 <= dist ->
  eff_speed s d a tf r <= eff_speed s' d' a' tf' r' ->
  no_slower (simulate_time_minutes_at s' d' a' tf' r' dist)
            (simulate_time_minutes_at s d a tf r dist).
Proof.
  intros Hd He. rewrite !simulate_time_minutes_at_value. simpl.
  apply py_round_mono.
  apply Qmult_le_compat_r; [|lra].
  apply Qdiv_le_antitone; [exact Hd| |exact He].
  pose proof (eff_speed_floor s d a tf r). lra.
Qed.

(** On exact rationals the order of the operations does not matter:
    [simulate_time_minutes_at] agrees with the formula of the
    specification.  On binary64 the order matters, as the section on
    binary64 below shows. *)
Lemma simulate_time_minutes_exact_formula (s d a tf r dist : Q) :
  simulate_time_minutes_at s d a tf r dist
  = Ok (spec_time_minutes s d a tf r dist).
Proof.
  rewrite simulate_time_minutes_at_value. f_equal.
  unfold spec_time_minutes. apply py_round_comp.
  pose proof (eff_speed_floor s d a tf r) as Hf.
  rewrite <- (eff_speed_spec s d a tf r).
  field. lra.
Qed.

(** C6.  With the random factor fixed, the finish time does not increase
    when one of speed, durability, acceleration or track factor increases
    and the other inputs stay as they are. *)
Theorem simulate_time_minutes_monotone (s d a tf r dist : Q) :
  0 < s -> 0 < tf -> 0 < r -> 0 < dist ->
  (forall s', s <= s' ->
     no_slower (simulate_time_minutes_at s' d a tf r dist)
               (simulate_time_minutes_at s d a tf r dist)) /\
  (forall d', d <= d' ->
     no_slower (simulate_time_minutes_at s d' a tf r dist)
               (simulate_time_minutes_at s d a tf r dist)) /\
  (forall a', a <= a' ->
     no_slower (simulate_time_minutes_at s d a' tf r dist)
               (simulate_time_minutes_at s d a tf r dist)) /\
  (forall tf', tf <= tf' ->
     no_slower (simulate_time_minutes_at s d a tf' r dist)
               (simulate_time_minutes_at s d a tf r dist)).
Proof.
  intros Hs Ht Hr Hd.
  repeat split; intros x Hx;
    (apply time_antitone_in_eff_speed; [lra|]).
  - apply eff_speed_mono_speed; lra.
  - apply eff_speed_mono_durability; lra.
  - apply eff_speed_mono_acceleration; lra.
  - apply eff_speed_mono_track; lra.
Qed.

Lemma simulate_time_minutes_monotone_witness :
  no_slower (simulate_time_minutes_at 220 (85 # 100) (90 # 100) 1 1 100)
            (simulate_time_minutes_at 200 (85 # 100) (90 # 100) 1 1 100).
Proof.
  refine (proj1 (simulate_time_minutes_monotone
                   200 (85 # 100) (90 # 100) 1 1 100 _ _ _ _) 220 _);
    reflexivity || discriminate.
Defined.

(** C7 (as the code has it).  For a positive distance, and whatever the
    other inputs and the random draw, the time model returns a time that
    is not negative.  It need not be positive: the rounding to 3 decimals
    can give exactly 0.0. *)
Theorem simulate_time_minutes_nonneg (s d a tf r dist : Q) :
  0 < dist ->
  exists t,
    simulate_time_minutes_at s d a tf r dist = Ok t /\ 0 <= t.
Proof.
  intros Hd. rewrite simulate_time_minutes_at_value.
  eexists; split; [reflexivity|].
  pose proof (eff_speed_floor s d a tf r) as Hf.
  assert (Hq : 0 <= dist / eff_speed s d a tf r).
  { apply Qle_shift_div_l; lra. }
  apply (py_round_nonneg _ 3). lra.
Qed.

Lemma simulate_time_minutes_nonneg_witness :
  exists t,
    simulate_time_minutes_at 220 (85 # 100) (90 # 100) 1 1 100 = Ok t /\
    0 <= t.
Proof.
  apply (simulate_time_minutes_nonneg 220 (85 # 100) (90 # 100) 1 1 100).
  reflexivity.
Defined.

(** C7, as stated, fails: a very fast car on the default distance with
    the random factor 1 (inside the default bounds 0.95 and 1.05) gets the
    time 0.0 after rounding. *)
Lemma simulate_time_minutes_zero_time :
  0 < 20000000 /\ 0 < 1 /\ 0 < default_distance_km /\
  0 < fst default_variability <= snd default_variability /\
  fst default_variability <= 1 <= snd default_variability /\
  exists t,
    simulate_time_minutes_at 20000000 1 1 1 1 default_distance_km = Ok t /\
    ~ 0 < t.
Proof.
  repeat split; try reflexivity; try (unfold Qle; simpl; lia).
  exists (0 # 1000). split; [vm_compute; reflexivity|].
  unfold Qlt. simpl. lia.
Qed.

(** ** The time model on binary64 *)

(** The floor of line 102 is never zero: it is 50, or a float above 50. *)
Lemma f64_floor_nonzero (x : float) : (f64_max 50 x =? 0)%float = false.
Proof.
  unfold f64_max. destruct (50 <? x)%float eqn:E; [|reflexivity].
  rewrite ltb_spec in E. rewrite eqb_spec.
  destruct (Prim2SF x) as [s|s| |s m e].
  - vm_compute in E. discriminate.
  - destruct s; reflexivity.
  - vm_compute in E. discriminate.
  - destruct s; reflexivity.
Qed.

(** C9 (as the code has it).  For all inputs, on binary64, the time model
    returns round((distance_km / effective_speed) * 60, 3): the quotient
    is formed, and rounded to a float, before it is multiplied by 60.
    The effective speed is speed * (0.5 + 0.5 * durability)
    * (0.5 + 0.5 * acceleration) * rand * track_factor with both
    attributes clamped to [0,1], floored at 50; the division never
    fails. *)
Theorem simulate_time_minutes_f64_formula
    (speed_kmh durability acceleration track_factor rand distance_km : float) :
  let clamped v := f64_max 0 (f64_min 1 v) in
  let effective_speed :=
    f64_max 50 (speed_kmh * (0.5 + 0.5 * clamped durability)
                * (0.5 + 0.5 * clamped acceleration)
                * rand * track_factor)%float in
  simulate_time_minutes_f64 speed_kmh durability acceleration track_factor
    rand distance_km
  = Ok (f64_round (distance_km / effective_speed * 60) 3).
Proof.
  cbv zeta. unfold simulate_time_minutes_f64, f64_div, f64_eff_speed.
  rewrite f64_floor_nonzero. reflexivity.
Qed.

(** C9, as stated, fails in the last decimal: for the effective speed 768
    and the distance 100 the code computes (100 / 768) * 60, a float just
    above 7.8125, and returns 7.813; the formula
    round(60 * distance_km / effective_speed, 3) is round(7.8125, 3) =
    7.812, on binary64 (6000 / 768 is exact) and on exact rationals. *)
Lemma simulate_time_minutes_last_digit :
  simulate_time_minutes_f64 768 1 1 1 1 100 = Ok 7.813%float /\
  spec_time_minutes_f64 768 1 1 1 1 100 = 7.812%float /\
  spec_time_minutes 768 1 1 1 1 100 = 7812 # 1000 /\
  (7.812 <? 7.813)%float = true.
Proof.
  repeat split; vm_compute; reflexivity.
Qed.

(** The two views of the time model, side by side, at very high speeds:
    both give 0.0 at the speed 20000000; at 12000000 the float nearest to
    0.0005 lies above it and is rounded to 0.001, where exact rationals
    give 0. *)
Lemma simulate_time_minutes_f64_small_times :
  simulate_time_minutes_f64 20000000 1 1 1 1 100 = Ok 0%float /\
  simulate_time_minutes_at 20000000 1 1 1 1 100 = Ok (0 # 1000) /\
  simulate_time_minutes_f64 12000000 1 1 1 1 100 = Ok 0.001%float /\
  simulate_time_minutes_at 12000000 1 1 1 1 100 = Ok (0 # 1000).
Proof.
  repeat split; vm_compute; reflexivity.
Qed.

(** ** [simulate_time_minutes] as a computation *)

Lemma simulate_time_minutes_run (s d a tf : Q) (v : Q * Q) (dist : Q)
    (w : world) :
  simulate_time_minutes s d a tf v dist w
  = (simulate_time_minutes_at s d a tf
       (uniform (fst v) (snd v) (random_stream w (random_pos w))) dist,
     set_random_pos w (S (random_pos w))).
Proof.
  reflexivity.
Qed.

(** C2 (as the code has it).  The time model checks none of its inputs:
    for every speed, distance and pair of variability bounds, valid or
    not, it returns a finish time and signals no error; its only effect
    is to consume one value of the random generator. *)
Theorem simulate_time_minutes_total (s d a tf : Q) (v : Q * Q) (dist : Q)
    (w : world) :
  exists t,
    simulate_time_minutes s d a tf v dist w
    = (Ok t, set_random_pos w (S (random_pos w))).
Proof.
  rewrite simulate_time_minutes_run, simulate_time_minutes_at_value.
  eexists. reflexivity.
Qed.

(** C2, as stated, fails: a speed of -5, a distance of -100 and the bounds
    (1.05, 0.95) are each answered with a time, not with an error. *)
Lemma simulate_time_minutes_accepts_invalid :
  let w := mkWorld (mkDb [] [] [] []) (mkDb [] [] [] []) false []
                   (fun _ => 1 # 2) 0 [] in
  (-5 <= 0 /\
   fst (simulate_time_minutes (-5) 1 1 1 default_variability 100 w)
   = Ok (120000 # 1000)) /\
  (-100 <= 0 /\
   fst (simulate_time_minutes 220 1 1 1 default_variability (-100) w)
   = Ok (-27273 # 1000)) /\
  (~ (0 < 105 # 100 <= 95 # 100) /\
   fst (simulate_time_minutes 220 1 1 1 (105 # 100, 95 # 100) 100 w)
   = Ok (27273 # 1000)).
Proof.
  cbv zeta. repeat split; try (vm_compute; reflexivity).
  - unfold Qle; simpl; lia.
  - unfold Qle; simpl; lia.
  - intros [_ H]. revert H. unfold Qle; simpl; lia.
Qed.

(** ** Inversion of the monadic combinators *)

Lemma bind_inv {A B : Type} (c : M A) (k : A -> M B) (w w' : world)
    (r : result B) :
  bind c k w = (r, w') ->
  (exists a w1, c w = (Ok a, w1) /\ k a w1 = (r, w')) \/
  (exists e, c w = (Raise e, w') /\ r = Raise e).
Proof.
  unfold bind. destruct (c w) as [[a|e] w1]; intros H.
  - left. now exists a, w1.
  - right. exists e. now inversion H.
Qed.

Lemma bind_ok {A B : Type} (c : M A) (k : A -> M B) (w w1 : world) (a : A) :
  c w = (Ok a, w1) -> bind c k w = k a w1.
Proof.
  intros H. unfold bind. now rewrite H.
Qed.

Lemma bind_raise {A B : Type} (c : M A) (k : A -> M B) (w w1 : world)
    (e : exn) :
  c w = (Raise e, w1) -> bind c k w = (Raise e, w1).
Proof.
  intros H. unfold bind. now rewrite H.
Qed.

(** ** The connector *)

(** Whether the next call of the connector raises. *)
Lemma connector_call_cases (e : exn) (w : world) :
  (next_call_fails w = false /\
   connector_call e w = (Ok tt, set_faults w (tl (faults w)))) \/
  (next_call_fails w = true /\
   connector_call e w = (Raise e, set_faults w (tl (faults w)))).
Proof.
  unfold connector_call, next_call_fails.
  destruct w as [c wk f fs rs rp sc]; simpl.
  destruct fs as [|[|] fs]; simpl; auto.
Qed.

(** The part of the state that the connector and the transaction scope
    act on. *)
Lemma session_eq_refl (w : world) : session_eq w w.
Proof.
  now repeat split.
Qed.

Lemma session_eq_trans (w1 w2 w3 : world) :
  session_eq w1 w2 -> session_eq w2 w3 -> session_eq w1 w3.
Proof.
  unfold session_eq. intros (? & ? & ?) (? & ? & ?). repeat split; congruence.
Qed.

Lemma connector_call_inv (e : exn) (w w' : world) (r : result unit) :
  connector_call e w = (r, w') ->
  session_eq w w' /\
  ((r = Ok tt /\ next_call_fails w = false) \/
   (r = Raise e /\ next_call_fails w = true)).
Proof.
  destruct (connector_call_cases e w) as [[Hf E]|[Hf E]];
    rewrite E; intros H; inversion H; subst; clear H;
    (split; [now repeat split|]); auto.
Qed.

Lemma cursor_query_inv {R : Type} (op : sql_op) (q : db -> R)
    (w w' : world) (r : result R) :
  cursor_query op q w = (r, w') ->
  session_eq w w' /\
  ((r = Ok (q (working w)) /\ next_call_fails w = false) \/
   (r = Raise (DatabaseError op) /\ next_call_fails w = true)).
Proof.
  unfold cursor_query. intros H.
  apply bind_inv in H. destruct H as [(u & w1 & H1 & H2)|(e & H1 & ->)];
    apply connector_call_inv in H1; destruct H1 as (Hs & [[? Hf]|[? Hf]]);
    try discriminate.
  - cbv [bind gets ret] in H2. inversion H2; subst; clear H2.
    split; [exact Hs|].
    left. split; [|exact Hf]. destruct Hs as (_ & Hw & _). now rewrite Hw.
  - split; [exact Hs|]. right. split; [congruence|exact Hf].
Qed.

Lemma cursor_execute_inv (op : sql_op) (eff : db -> db * Z)
    (w w' : world) (r : result Z) :
  cursor_execute op eff w = (r, w') ->
  committed w' = committed w /\
  IN_TRANSACTION w' = IN_TRANSACTION w /\
  ((r = Ok (snd (eff (working w))) /\ working w' = fst (eff (working w))
    /\ next_call_fails w = false) \/
   (r = Raise (DatabaseError op) /\ working w' = working w
    /\ next_call_fails w = true)).
Proof.
  unfold cursor_execute. intros H.
  apply bind_inv in H. destruct H as [(u & w1 & H1 & H2)|(e & H1 & ->)];
    apply connector_call_inv in H1;
    destruct H1 as ((Hc & Hw & Hf) & [[? Hn]|[? Hn]]);
    try discriminate.
  - cbv [bind gets ret modify raise] in H2. inversion H2; subst; clear H2. simpl.
    repeat split; try assumption. left. rewrite Hw. auto.
  - repeat split; try assumption. right. repeat split; congruence.
Qed.

Lemma conn_commit_inv (w w' : world) (r : result unit) :
  conn_commit w = (r, w') ->
  working w' = working w /\
  IN_TRANSACTION w' = IN_TRANSACTION w /\
  ((r = Ok tt /\ committed w' = working w /\ next_call_fails w = false) \/
   (r = Raise CommitError /\ committed w' = committed w
    /\ next_call_fails w = true)).
Proof.
  unfold conn_commit. intros H.
  apply bind_inv in H. destruct H as [(u & w1 & H1 & H2)|(e & H1 & ->)];
    apply connector_call_inv in H1;
    destruct H1 as ((Hc & Hw & Hf) & [[? Hn]|[? Hn]]);
    try discriminate.
  - cbv [bind gets ret modify raise] in H2. inversion H2; subst; clear H2. simpl.
    repeat split; try assumption. left. auto.
  - repeat split; try assumption. right. repeat split; congruence.
Qed.

Lemma conn_rollback_inv (w w' : world) (r : result unit) :
  conn_rollback w = (r, w') ->
  committed w' = committed w /\
  IN_TRANSACTION w' = IN_TRANSACTION w /\
  ((r = Ok tt /\ working w' = committed w /\ next_call_fails w = false) \/
   (r = Raise RollbackError /\ working w' = working w
    /\ next_call_fails w = true)).
Proof.
  unfold conn_rollback. intros H.
  apply bind_inv in H. destruct H as [(u & w1 & H1 & H2)|(e & H1 & ->)];
    apply connector_call_inv in H1;
    destruct H1 as ((Hc & Hw & Hf) & [[? Hn]|[? Hn]]);
    try discriminate.
  - cbv [bind gets ret modify raise] in H2. inversion H2; subst; clear H2. simpl.
    repeat split; try assumption. left. auto.
  - repeat split; try assumption. right. repeat split; congruence.
Qed.

(** ** [execute] and [execute_many] *)

(** Inside a transaction scope: no commit. *)
Lemma execute_inv_tx (op : sql_op) (eff : db -> db * Z)
    (w w' : world) (r : result Z) :
  IN_TRANSACTION w = true ->
  execute op eff w = (r, w') ->
  committed w' = committed w /\
  IN_TRANSACTION w' = true /\
  ((r = Ok (snd (eff (working w))) /\ working w' = fst (eff (working w))) \/
   (r = Raise (DatabaseError op) /\ working w' = working w)).
Proof.
  intros Hflag H. unfold execute in H.
  apply bind_inv in H. destruct H as [(n & w1 & H1 & H2)|(e & H1 & ->)];
    apply cursor_execute_inv in H1;
    destruct H1 as (Hc & Hf & [(? & Hw & _)|(? & Hw & _)]);
    try discriminate.
  - assert (Hf1 : IN_TRANSACTION w1 = true) by congruence.
    cbv [bind gets] in H2. rewrite Hf1 in H2. cbv [bind gets ret modify raise] in H2.
    inversion H2; subst; clear H2.
    repeat split; try assumption. left. split; [congruence|assumption].
  - repeat split; try congruence. right. split; congruence.
Qed.

(** Outside a transaction scope: the statement is committed at once. *)
Lemma execute_inv_auto (op : sql_op) (eff : db -> db * Z)
    (w w' : world) (r : result Z) :
  IN_TRANSACTION w = false ->
  execute op eff w = (r, w') ->
  IN_TRANSACTION w' = false /\
  ((r = Ok (snd (eff (working w))) /\ working w' = fst (eff (working w))
    /\ committed w' = working w') \/
   (r = Raise CommitError /\ working w' = fst (eff (working w))
    /\ committed w' = committed w) \/
   (r = Raise (DatabaseError op) /\ working w' = working w
    /\ committed w' = committed w)).
Proof.
  intros Hflag H. unfold execute in H.
  apply bind_inv in H. destruct H as [(n & w1 & H1 & H2)|(e & H1 & ->)];
    apply cursor_execute_inv in H1;
    destruct H1 as (Hc & Hf & [(? & Hw & _)|(? & Hw & _)]);
    try discriminate.
  - assert (Hf1 : IN_TRANSACTION w1 = false) by congruence.
    apply bind_inv in H2.
    destruct H2 as [(b & w2 & H2 & H3)|(e & H2 & ->)];
      [|discriminate H2].
    cbv [gets] in H2. inversion H2; subst b w2; clear H2.
    rewrite Hf1 in H3. simpl in H3.
    apply bind_inv in H3.
    destruct H3 as [(u & w3 & H3 & H4)|(e & H3 & ->)];
      apply conn_commit_inv in H3;
      destruct H3 as (Hw3 & Hf3 & [(? & Hc3 & _)|(? & Hc3 & _)]);
      try discriminate.
    + cbv [bind gets ret modify raise] in H4. inversion H4; subst; clear H4.
      split; [congruence|]. left. repeat split; congruence.
    + split; [congruence|]. right. left. repeat split; congruence.
  - split; [congruence|]. right. right. repeat split; congruence.
Qed.

Lemma execute_many_unfold {P : Type} (op : sql_op)
    (eff : P -> db -> db * Z) (many_params : list P) :
  execute_many op eff many_params = execute op (run_many eff many_params).
Proof.
  reflexivity.
Qed.

(** ** The transaction scope *)

Lemma Transaction_enter_run (w : world) :
  Transaction_enter w = (Ok (IN_TRANSACTION w), set_IN_TRANSACTION w true).
Proof.
  reflexivity.
Qed.

Lemma Transaction_exit_inv (prev : bool) (exc : option exn)
    (w w' : world) (r : result bool) :
  Transaction_exit prev exc w = (r, w') ->
  IN_TRANSACTION w' = prev /\
  match exc with
  | None =>
      (r = Ok false /\ next_call_fails w = false /\
       committed w' = working w /\ working w' = working w) \/
      (r = Raise CommitError /\ next_call_fails w = true /\
       committed w' = committed w /\ working w' = working w)
  | Some _ =>
      (r = Ok false /\ next_call_fails w = false /\
       committed w' = committed w /\ working w' = committed w) \/
      (r = Raise RollbackError /\ next_call_fails w = true /\
       committed w' = committed w /\ working w' = working w)
  end.
Proof.
  unfold Transaction_exit, try_finally, attempt. intros H.
  destruct exc as [e|].
  - cbv [bind] in H.
    destruct (conn_rollback w) as [rr w1] eqn:E.
    apply conn_rollback_inv in E.
    destruct E as (Hc & Hf & [(-> & Hw & Hn)|(-> & Hw & Hn)]);
      cbv [bind gets ret modify raise] in H; inversion H; subst; clear H; simpl;
      (split; [reflexivity|]); [left|right]; auto.
  - cbv [bind] in H.
    destruct (conn_commit w) as [rr w1] eqn:E.
    apply conn_commit_inv in E.
    destruct E as (Hw & Hf & [(-> & Hc & Hn)|(-> & Hc & Hn)]);
      cbv [bind gets ret modify raise] in H; inversion H; subst; clear H; simpl;
      (split; [reflexivity|]); [left|right]; auto.
Qed.

(** What a transaction scope does, in terms of the run of its body. *)
Lemma with_transaction_inv (body : M unit) (w w' : world) (r : result unit) :
  with_transaction body w = (r, w') ->
  exists rb wb,
    body (set_IN_TRANSACTION w true) = (rb, wb) /\
    IN_TRANSACTION w' = IN_TRANSACTION w /\
    match rb with
    | Ok _ =>
        (r = Ok tt /\ next_call_fails wb = false /\
         committed w' = working wb /\ working w' = working wb) \/
        (r = Raise CommitError /\ next_call_fails wb = true /\
         committed w' = committed wb /\ working w' = working wb)
    | Raise e =>
        (r = Raise e /\ next_call_fails wb = false /\
         committed w' = committed wb /\ working w' = committed wb) \/
        (r = Raise RollbackError /\ next_call_fails wb = true /\
         committed w' = committed wb /\ working w' = working wb)
    end.
Proof.
  unfold with_transaction. intros H.
  rewrite (bind_ok _ _ _ _ _ (Transaction_enter_run w)) in H.
  unfold attempt in H. cbv [bind] in H.
  destruct (body (set_IN_TRANSACTION w true)) as [rb wb] eqn:Eb.
  exists rb, wb. split; [reflexivity|].
  destruct rb as [u|e].
  - destruct (Transaction_exit (IN_TRANSACTION w) None wb) as [re we] eqn:Ee.
    apply Transaction_exit_inv in Ee.
    destruct Ee as (Hf & [(-> & Hn & Hc & Hw)|(-> & Hn & Hc & Hw)]);
      cbv [bind gets ret modify raise] in H; inversion H; subst; clear H;
      (split; [exact Hf|]); [left|right]; auto.
  - destruct (Transaction_exit (IN_TRANSACTION w) (Some e) wb)
      as [re we] eqn:Ee.
    apply Transaction_exit_inv in Ee.
    destruct Ee as (Hf & [(-> & Hn & Hc & Hw)|(-> & Hn & Hc & Hw)]);
      cbv [bind gets ret modify raise] in H; inversion H; subst; clear H;
      (split; [exact Hf|]); [left|right]; auto.
Qed.

(** C10.  A transaction scope restores [IN_TRANSACTION] to its value on
    entry whatever the body does (so also for a scope nested in another,
    where that value is [True]); when the body completes it commits, when
    the body raises it rolls back and an exception reaches the caller (the
    one of the body, unless the rollback itself raises); and while the
    flag is set [execute] and [execute_many] leave the committed data
    alone. *)
Theorem transaction_scope_contract (body : M unit) (w : world) :
  let rb := fst (body (set_IN_TRANSACTION w true)) in
  let wb := snd (body (set_IN_TRANSACTION w true)) in
  let r := fst (with_transaction body w) in
  let w' := snd (with_transaction body w) in
  IN_TRANSACTION w' = IN_TRANSACTION w /\
  IN_TRANSACTION (snd (with_transaction body (set_IN_TRANSACTION w true)))
  = true /\
  (forall u, rb = Ok u ->
     if next_call_fails wb
     then r = Raise CommitError
     else r = Ok tt /\ committed w' = working wb /\ working w' = working wb) /\
  (forall e, rb = Raise e ->
     (exists e', r = Raise e') /\
     if next_call_fails wb
     then r = Raise RollbackError
     else r = Raise e /\ working w' = committed wb
          /\ committed w' = committed wb) /\
  (forall op eff w0,
     IN_TRANSACTION w0 = true ->
     committed (snd (execute op eff w0)) = committed w0) /\
  (forall (P : Type) op (eff : P -> db -> db * Z) many_params w0,
     IN_TRANSACTION w0 = true ->
     committed (snd (execute_many op eff many_params w0)) = committed w0).
Proof.
  cbv zeta.
  destruct (with_transaction body w) as [r w'] eqn:E.
  apply with_transaction_inv in E.
  destruct E as (rb & wb & Eb & Hflag & Hcases). rewrite Eb. simpl.
  split; [exact Hflag|]. split.
  { destruct (with_transaction body (set_IN_TRANSACTION w true))
      as [r1 w1] eqn:E1.
    apply with_transaction_inv in E1.
    destruct E1 as (_ & _ & _ & Hf1 & _). exact Hf1. }
  split; [|split; [|split]].
  - intros u ->.
    destruct Hcases as [(-> & -> & ? & ?)|(-> & -> & ? & ?)]; auto.
  - intros e ->.
    destruct Hcases as [(-> & -> & ? & ?)|(-> & -> & ? & ?)];
      (split; [eexists; reflexivity|]); auto.
  - intros op eff w0 Hf.
    destruct (execute op eff w0) as [r0 w1] eqn:E0.
    apply (execute_inv_tx _ _ _ _ _ Hf) in E0. simpl. tauto.
  - intros P op eff ps w0 Hf. rewrite execute_many_unfold.
    destruct (execute op (run_many eff ps) w0) as [r0 w1] eqn:E0.
    apply (execute_inv_tx _ _ _ _ _ Hf) in E0. simpl. tauto.
Qed.

(** Whatever the flag: the session sees the effect of a statement that
    did not raise. *)
Lemma execute_inv (op : sql_op) (eff : db -> db * Z)
    (w w' : world) (r : result Z) :
  execute op eff w = (r, w') ->
  IN_TRANSACTION w' = IN_TRANSACTION w /\
  ((r = Ok (snd (eff (working w))) /\ working w' = fst (eff (working w))) \/
   r = Raise CommitError \/
   r = Raise (DatabaseError op)).
Proof.
  intros H. destruct (IN_TRANSACTION w) eqn:Hf.
  - apply (execute_inv_tx _ _ _ _ _ Hf) in H.
    destruct H as (_ & ? & [(? & ?)|(? & ?)]); auto.
  - apply (execute_inv_auto _ _ _ _ _ Hf) in H.
    destruct H as (? & [(? & ? & ?)|[(? & ? & ?)|(? & ? & ?)]]); auto.
Qed.

(** ** The SQL statements *)

Lemma max_race_id_app (rs : list race) (r : race) :
  max_race_id (rs ++ [r])
  = Some (match max_race_id rs with
          | None => race_id r
          | Some m => Z.max m (race_id r)
          end).
Proof.
  induction rs as [|x rs IH]; simpl; [reflexivity|].
  rewrite IH. destruct (max_race_id rs); f_equal; lia.
Qed.

Lemma max_race_id_bound (rs : list race) (m : Z) :
  max_race_id rs = Some m -> forall r, In r rs -> (race_id r <= m)%Z.
Proof.
  revert m. induction rs as [|x rs IH]; simpl; intros m Hm r Hr;
    [contradiction|].
  destruct (max_race_id rs) as [m'|] eqn:E.
  - inversion Hm; subst. destruct Hr as [->|Hr]; [lia|].
    specialize (IH m' eq_refl r Hr). lia.
  - inversion Hm; subst. destruct Hr as [->|Hr]; [lia|].
    destruct rs; [contradiction|]. simpl in E.
    destruct (max_race_id rs); discriminate.
Qed.

Lemma next_race_id_fresh (rs : list race) (r : race) :
  In r rs -> (race_id r =? next_race_id rs)%Z = false.
Proof.
  intros Hr. unfold next_race_id.
  destruct (max_race_id rs) as [m|] eqn:E.
  - pose proof (max_race_id_bound rs m E r Hr). lia.
  - destruct rs; [contradiction|]. simpl in E.
    destruct (max_race_id rs); discriminate.
Qed.

(** [SELECT MAX(RACE_ID)] after the insertion returns the identifier of
    the row just inserted. *)
Lemma select_max_after_insert (track_name : string) (d : db) :
  sql_select_max_race_id (fst (sql_insert_race track_name d))
  = Some (next_race_id (RACES d)).
Proof.
  unfold sql_select_max_race_id, sql_insert_race. simpl.
  rewrite max_race_id_app. simpl. unfold next_race_id.
  destruct (max_race_id (RACES d)); f_equal; lia.
Qed.

Lemma run_many_insert_results (params : list (Z * Z * Q * Z)) (d : db) :
  fst (run_many sql_insert_race_result params d)
  = set_RACE_RESULTS d
      (RACE_RESULTS d
         ++ map (fun p => let '(rid, cid, t, pos) := p in
                          mkRaceResult rid cid t pos) params).
Proof.
  unfold run_many.
  assert (G : forall n,
    fst (fold_left
           (fun acc p =>
              let (d', k) := sql_insert_race_result p (fst acc) in
              (d', (snd acc + k)%Z)) params (d, n))
    = set_RACE_RESULTS d
        (RACE_RESULTS d
           ++ map (fun p => let '(rid, cid, t, pos) := p in
                            mkRaceResult rid cid t pos) params)).
  { revert d. induction params as [|[[[rid cid] t] pos] ps IH]; intros d n.
    - simpl. rewrite app_nil_r. now destruct d.
    - simpl. rewrite IH. unfold set_RACE_RESULTS. simpl.
      now rewrite <- app_assoc. }
  apply G.
Qed.

Lemma transaction_scope_contract_witness :
  let body := (pay_participation_fee_for_all_teams_with_cars 1000 ;; ret tt) in
  IN_TRANSACTION (snd (with_transaction body (scenario_world []))) = false /\
  fst (with_transaction body (scenario_world [])) = Ok tt /\
  fst (with_transaction body (scenario_world [true]))
  = Raise (DatabaseError UPDATE_FEE) /\
  committed
    (snd (execute UPDATE_FEE (sql_update_fee 1000)
            (set_IN_TRANSACTION (scenario_world []) true)))
  = scenario_db.
Proof.
  intros body.
  destruct (transaction_scope_contract body (scenario_world []))
    as (Hflag & _ & Hok & _ & Hexec & _).
  destruct (transaction_scope_contract body (scenario_world [true]))
    as (_ & _ & _ & Hraise & _ & _).
  split; [exact Hflag|].
  split; [exact (proj1 (Hok tt eq_refl))|].
  split; [exact (proj1 (proj2 (Hraise (DatabaseError UPDATE_FEE) eq_refl)))|].
  exact (Hexec UPDATE_FEE (sql_update_fee 1000)
           (set_IN_TRANSACTION (scenario_world []) true) eq_refl).
Defined.

(** ** The stable sort *)

Section SortFacts.
Context {A : Type}.
Variable leb : A -> A -> bool.

Lemma insert_sorted_perm (a : A) (l : list A) :
  Permutation (insert_sorted leb a l) (a :: l).
Proof.
  induction l as [|x l IH]; simpl; [reflexivity|].
  destruct (leb a x); [reflexivity|].
  rewrite IH. apply perm_swap.
Qed.

Lemma sort_by_perm (l : list A) : Permutation (sort_by leb l) l.
Proof.
  induction l as [|a l IH]; simpl; [constructor|].
  rewrite insert_sorted_perm. now constructor.
Qed.

Lemma sort_by_length (l : list A) : List.length (sort_by leb l) = List.length l.
Proof.
  apply Permutation_length, sort_by_perm.
Qed.

Lemma sort_by_in (l : list A) (a : A) : In a (sort_by leb l) <-> In a l.
Proof.
  split; apply Permutation_in;
    [apply sort_by_perm | symmetry; apply sort_by_perm].
Qed.

(** Elements selected by a test [p] whose members all compare below
    one another (such as "has the key k") keep their input order. *)
Section Stability.
Variable p : A -> bool.
Hypothesis p_class : forall a b, p a = true -> p b = true -> leb a b = true.

Lemma insert_sorted_filter (a : A) (l : list A) :
  filter p (insert_sorted leb a l) = filter p (a :: l).
Proof.
  induction l as [|x l IH]; [reflexivity|].
  simpl insert_sorted. destruct (leb a x) eqn:E; [reflexivity|].
  simpl. simpl in IH. rewrite IH.
  destruct (p a) eqn:Pa, (p x) eqn:Px; try reflexivity.
  rewrite (p_class a x Pa Px) in E. discriminate.
Qed.

Lemma sort_by_stable (l : list A) :
  filter p (sort_by leb l) = filter p l.
Proof.
  induction l as [|a l IH]; [reflexivity|].
  simpl sort_by. rewrite insert_sorted_filter. simpl. now rewrite IH.
Qed.
End Stability.

Section Order.
Hypothesis leb_total : forall a b, leb a b = true \/ leb b a = true.
Hypothesis leb_trans :
  forall a b c, leb a b = true -> leb b c = true -> leb a c = true.

Lemma insert_sorted_sorted (a : A) (l : list A) :
  StronglySorted (fun x y => leb x y = true) l ->
  StronglySorted (fun x y => leb x y = true) (insert_sorted leb a l).
Proof.
  induction 1 as [|x l Hs IH Hall]; simpl.
  - repeat constructor.
  - destruct (leb a x) eqn:E.
    + constructor; [now constructor|].
      constructor; [exact E|].
      eapply Forall_impl; [|exact Hall]. intros y Hy.
      now apply (leb_trans a x y).
    + constructor; [exact IH|].
      apply (Permutation_Forall
               (Permutation_sym (insert_sorted_perm a l))).
      constructor; [|exact Hall].
      destruct (leb_total a x); congruence.
Qed.

Lemma sort_by_sorted (l : list A) :
  StronglySorted (fun x y => leb x y = true) (sort_by leb l).
Proof.
  induction l as [|a l IH]; simpl; [constructor|].
  now apply insert_sorted_sorted.
Qed.
End Order.
End SortFacts.

Lemma StronglySorted_map {A B : Type} (f : A -> B) (R : B -> B -> Prop)
    (l : list A) :
  StronglySorted (fun x y => R (f x) (f y)) l -> StronglySorted R (map f l).
Proof.
  induction 1 as [|x l Hs IH Hall]; simpl; constructor; [exact IH|].
  now apply Forall_map.
Qed.

(** ** Ranking: lines 289-298 *)

Lemma sorted_by_time_perm (rows : list timed_row) :
  Permutation (sorted_by_time rows) rows.
Proof.
  apply sort_by_perm.
Qed.

Lemma Qle_bool_total (a b : Q) : Qle_bool a b = true \/ Qle_bool b a = true.
Proof.
  destruct (Qlt_le_dec a b) as [H|H].
  - left. apply Qle_bool_iff. lra.
  - right. now apply Qle_bool_iff.
Qed.

Lemma Qle_bool_trans (a b c : Q) :
  Qle_bool a b = true -> Qle_bool b c = true -> Qle_bool a c = true.
Proof.
  rewrite !Qle_bool_iff. lra.
Qed.

Lemma sorted_by_time_ascending (rows : list timed_row) :
  StronglySorted Qle (map row_TIME_MIN (sorted_by_time rows)).
Proof.
  apply StronglySorted_map.
  assert (H : StronglySorted
                (fun x y => Qle_bool (row_TIME_MIN x) (row_TIME_MIN y) = true)
                (sorted_by_time rows)).
  { apply sort_by_sorted.
    - intros a b. apply Qle_bool_total.
    - intros a b c. apply Qle_bool_trans. }
  induction H as [|x l Hs IH Hall]; constructor; [exact IH|].
  eapply Forall_impl; [|exact Hall].
  intros y Hy. now apply Qle_bool_iff.
Qed.

(** Cars with the same time keep the order of the roster. *)
Lemma sorted_by_time_stable (rows : list timed_row) (t : Q) :
  filter (fun r => Qeq_bool (row_TIME_MIN r) t) (sorted_by_time rows)
  = filter (fun r => Qeq_bool (row_TIME_MIN r) t) rows.
Proof.
  apply sort_by_stable. intros a b Ha Hb.
  apply Qeq_bool_iff in Ha, Hb. apply Qle_bool_iff. lra.
Qed.

Lemma enumerate_results_length (start : Z) (rows : list timed_row) :
  List.length (enumerate_results start rows) = List.length rows.
Proof.
  revert start. induction rows as [|r rows IH]; intros start; simpl;
    [reflexivity|]. now rewrite IH.
Qed.

(** The positions are [start], [start + 1], ... in the order of the list. *)
Lemma enumerate_results_positions (start : Z) (rows : list timed_row) :
  map (fun p => snd p) (enumerate_results start rows)
  = map (fun i => (start + Z.of_nat i)%Z) (seq 0 (List.length rows)).
Proof.
  revert start. induction rows as [|r rows IH]; intros start;
    [reflexivity|].
  simpl. f_equal; [lia|].
  rewrite IH, <- seq_shift, map_map.
  apply map_ext. intros i. lia.
Qed.

Lemma enumerate_results_cars (start : Z) (rows : list timed_row) :
  map (fun p => fst p) (enumerate_results start rows)
  = map (fun r => (row_CAR_ID r, row_TIME_MIN r)) rows.
Proof.
  revert start. induction rows as [|r rows IH]; intros start;
    [reflexivity|].
  simpl. now rewrite IH.
Qed.

(** ** The steps of the race page *)

Lemma track_lookup_inv (tracks : list (string * (Q * string)))
    (name : string) (w w' : world) (r : result (Q * string)) :
  track_lookup tracks name w = (r, w') ->
  w' = w /\ (r = Raise KeyError \/ exists t, r = Ok t).
Proof.
  unfold track_lookup.
  destruct (find _ tracks) as [kv|]; cbv [ret raise]; intros H;
    inversion H; subst; split; eauto.
Qed.

Lemma create_race_inv (track_name : string) (w w' : world)
    (r : result (option Z)) :
  create_race track_name w = (r, w') ->
  IN_TRANSACTION w' = IN_TRANSACTION w /\
  match r with
  | Ok rid =>
      rid = Some (next_race_id (RACES (working w))) /\
      working w' = fst (sql_insert_race track_name (working w)) /\
      (IN_TRANSACTION w = false -> committed w' = working w')
  | Raise e =>
      e = DatabaseError INSERT_RACE \/ e = CommitError \/
      e = DatabaseError SELECT_MAX_RACE_ID
  end.
Proof.
  unfold create_race. intros H.
  apply bind_inv in H. destruct H as [(n & w1 & H1 & H2)|(e & H1 & ->)].
  - assert (Hauto : IN_TRANSACTION w = false -> committed w1 = working w1).
    { intros Hf. apply (execute_inv_auto _ _ _ _ _ Hf) in H1.
      destruct H1 as (_ & [(_ & _ & ?)|[(? & _)|(? & _)]]);
        [assumption|discriminate|discriminate]. }
    apply execute_inv in H1.
    destruct H1 as (Hf1 & [(_ & Hw1)|[?|?]]); try discriminate.
    apply bind_inv in H2. destruct H2 as [(v & w2 & H2 & H3)|(e & H2 & ->)];
      apply cursor_query_inv in H2;
      destruct H2 as ((Hc2 & Hw2 & Hf2) & [(? & _)|(? & _)]);
      try discriminate.
    + cbv [ret] in H3. inversion H3; subst; clear H3.
      split; [congruence|]. split; [|split].
      * inversion H. rewrite Hw1. apply select_max_after_insert.
      * congruence.
      * intros Hf. specialize (Hauto Hf). congruence.
    + split; [congruence|]. right. right. congruence.
  - apply execute_inv in H1.
    destruct H1 as (Hf1 & [(? & _)|[?|?]]); try discriminate;
      (split; [assumption|]).
    + right. left. congruence.
    + left. congruence.
Qed.

Lemma simulate_time_minutes_inv (s d a tf : Q) (v : Q * Q) (dist : Q)
    (w w' : world) (r : result Q) :
  simulate_time_minutes s d a tf v dist w = (r, w') ->
  session_eq w w' /\
  exists rand, r = simulate_time_minutes_at s d a tf rand dist /\
               exists t, r = Ok t.
Proof.
  rewrite simulate_time_minutes_run. intros H. inversion H; subst; clear H.
  split; [now repeat split|].
  eexists. split; [reflexivity|].
  rewrite simulate_time_minutes_at_value. eexists. reflexivity.
Qed.

Lemma py_int_inv (v : option Z) (w w' : world) (r : result Z) :
  py_int v w = (r, w') ->
  w' = w /\ match r with
            | Ok z => v = Some z
            | Raise e => e = TypeError /\ v = None
            end.
Proof.
  destruct v as [z|]; cbv [py_int ret raise]; intros H; inversion H; subst;
    auto.
Qed.

(** The loop over the roster leaves the database session alone; it gives
    one dictionary per row of the roster, in the same order, and the only
    exception it can raise is the [TypeError] of [int(None)] on a car
    without a team. *)
Lemma compute_rows_inv (tf : Q) (df_c : list car_row) (w w' : world)
    (r : result (list timed_row)) :
  compute_rows tf df_c w = (r, w') ->
  session_eq w w' /\
  match r with
  | Ok rows => Forall2 (row_of tf) df_c rows
  | Raise e => e = TypeError /\ exists row, In row df_c /\ TEAM_ID row = None
  end.
Proof.
  revert w w' r. induction df_c as [|row rest IH]; intros w w' r H.
  - cbv [compute_rows ret] in H. inversion H; subst.
    split; [apply session_eq_refl|constructor].
  - simpl in H.
    apply bind_inv in H. destruct H as [(t & w1 & H1 & H2)|(e & H1 & ->)];
      apply simulate_time_minutes_inv in H1;
      destruct H1 as (Hs1 & rand & Hr & t' & Ht); try discriminate.
    inversion Ht; subst t'; clear Ht.
    apply bind_inv in H2. destruct H2 as [(tid & w2 & H2 & H3)|(e & H2 & ->)];
      apply py_int_inv in H2; destruct H2 as (-> & Hv).
    + apply bind_inv in H3.
      destruct H3 as [(rows & w3 & H3 & H4)|(e & H3 & ->)];
        apply IH in H3; destruct H3 as (Hs3 & Hrows).
      * cbv [ret] in H4. inversion H4; subst; clear H4.
        split; [eapply session_eq_trans; eassumption|].
        constructor; [|exact Hrows].
        repeat split; simpl; auto. exists rand. now symmetry.
      * split; [eapply session_eq_trans; eassumption|].
        destruct Hrows as (-> & row' & Hin & Hnone).
        split; [reflexivity|]. exists row'. split; [now right|exact Hnone].
    + destruct Hv as (-> & Hnone).
      split; [exact Hs1|]. split; [reflexivity|].
      exists row. split; [now left|exact Hnone].
Qed.

Lemma screen_event_session (ev : ui_event) (w : world) :
  session_eq w (set_screen w (ev :: screen w)).
Proof.
  now repeat split.
Qed.

(** ** The settlement group *)

(** Run with the flag set, the four statements never touch the committed
    data; when none raises, the session sees [settled_db]. *)
Lemma settlement_body_inv (rid : option Z) (payload : list (Z * Q * Z))
    (winner : Z) (fee prize : Q) (w wb : world) (rb : result unit) :
  IN_TRANSACTION w = true ->
  settlement_body rid payload winner fee prize w = (rb, wb) ->
  committed wb = committed w /\
  IN_TRANSACTION wb = true /\
  match rb with
  | Ok _ =>
      exists id, rid = Some id /\
                 working wb = settled_db id payload winner fee prize (working w)
  | Raise e => e = TypeError \/ group_failure e
  end.
Proof.
  intros Hflag H. unfold settlement_body in H.
  apply bind_inv in H. destruct H as [(id & w1 & H1 & H)|(e & H1 & ->)];
    apply py_int_inv in H1; destruct H1 as (-> & Hid);
    [|repeat split; auto; intuition congruence].
  subst rid.
  apply bind_inv in H. destruct H as [(n1 & w1 & H1 & H)|(e & H1 & ->)];
    unfold insert_race_results in H1; rewrite execute_many_unfold in H1;
    apply (execute_inv_tx _ _ _ _ _ Hflag) in H1;
    destruct H1 as (Hc1 & Hf1 & [(? & Hw1)|(? & Hw1)]); try discriminate;
    [|repeat split; try congruence;
     unfold group_failure; intuition congruence].
  apply bind_inv in H. destruct H as [(id' & w1' & H2 & H)|(e & H2 & ->)];
    apply py_int_inv in H2; destruct H2 as (-> & Hid'); [|destruct Hid'; discriminate].
  inversion Hid'; subst id'; clear Hid'.
  apply bind_inv in H. destruct H as [(n2 & w2 & H2 & H)|(e & H2 & ->)];
    unfold set_race_winner in H2;
    apply (execute_inv_tx _ _ _ _ _ Hf1) in H2;
    destruct H2 as (Hc2 & Hf2 & [(? & Hw2)|(? & Hw2)]); try discriminate;
    [|repeat split; try congruence;
     unfold group_failure; intuition congruence].
  apply bind_inv in H. destruct H as [(n3 & w3 & H3 & H)|(e & H3 & ->)];
    unfold pay_participation_fee_for_all_teams_with_cars in H3;
    apply (execute_inv_tx _ _ _ _ _ Hf2) in H3;
    destruct H3 as (Hc3 & Hf3 & [(? & Hw3)|(? & Hw3)]); try discriminate;
    [|repeat split; try congruence;
     unfold group_failure; intuition congruence].
  apply bind_inv in H. destruct H as [(n4 & w4 & H4 & H)|(e & H4 & ->)];
    unfold credit_winner_prize in H4;
    apply (execute_inv_tx _ _ _ _ _ Hf3) in H4;
    destruct H4 as (Hc4 & Hf4 & [(? & Hw4)|(? & Hw4)]); try discriminate;
    [|repeat split; try congruence;
     unfold group_failure; intuition congruence].
  cbv [ret] in H. inversion H; subst; clear H.
  repeat split; try congruence.
  exists id. split; [reflexivity|].
  unfold settled_db. cbv zeta. congruence.
Qed.

(** The settlement group as a whole, entered with the flag down. *)
Lemma settlement_group_inv (rid : option Z) (payload : list (Z * Q * Z))
    (winner : Z) (fee prize : Q) (w w' : world) (r : result unit) :
  settlement_group rid payload winner fee prize w = (r, w') ->
  IN_TRANSACTION w' = IN_TRANSACTION w /\
  match r with
  | Ok _ =>
      exists id, rid = Some id /\
                 working w' = settled_db id payload winner fee prize (working w)
                 /\ committed w' = working w'
  | Raise e =>
      (e = CommitError \/ e = RollbackError) \/
      ((e = TypeError \/ group_failure e) /\
       working w' = committed w /\ committed w' = committed w)
  end.
Proof.
  unfold settlement_group. intros H.
  apply with_transaction_inv in H.
  destruct H as (rb & wb & Hb & Hflag & Hcases).
  apply settlement_body_inv in Hb; [|reflexivity].
  destruct Hb as (Hc & Hf & Hrb). simpl in Hc.
  split; [exact Hflag|].
  destruct rb as [u|e].
  - destruct Hrb as (id & -> & Hw). simpl in Hw.
    destruct Hcases as [(-> & _ & Hc' & Hw')|(-> & _)]; [|left; now left].
    exists id. repeat split; congruence.
  - destruct Hcases as [(-> & _ & Hc' & Hw')|(-> & _)]; [|left; now right].
    right. repeat split; congruence.
Qed.

(** ** The race page as a whole *)

Lemma first_team_id_inv (rows_sorted : list timed_row) (w w' : world)
    (r : result Z) :
  first_team_id rows_sorted w = (r, w') ->
  w' = w /\
  match r with
  | Ok tid => exists r0 rest, rows_sorted = r0 :: rest /\ tid = row_TEAM_ID r0
  | Raise e => e = IndexError /\ rows_sorted = []
  end.
Proof.
  destruct rows_sorted as [|r0 rest]; cbv [first_team_id ret raise];
    intros H; inversion H; subst; split; eauto.
Qed.

(** A run of the page that completes: what it computed and what it left
    in the database. *)
Lemma start_race_ok (track_name : string) (fee prize : Q) (w w' : world)
    (rep : race_report) :
  start_race track_name fee prize w = (Ok rep, w') ->
  let d0 := working w in
  let rid := next_race_id (RACES d0) in
  sql_select_cars d0 <> [] /\
  rep_race_id rep = Some rid /\
  (exists tf, Forall2 (row_of tf) (sql_select_cars d0) (rep_rows rep)) /\
  rep_results_payload rep
  = enumerate_results 1 (sorted_by_time (rep_rows rep)) /\
  (exists r0 rest, sorted_by_time (rep_rows rep) = r0 :: rest /\
                   rep_winner_team_id rep = row_TEAM_ID r0) /\
  working w'
  = settled_db rid (rep_results_payload rep) (rep_winner_team_id rep)
      fee prize (fst (sql_insert_race track_name d0)) /\
  committed w' = working w' /\
  IN_TRANSACTION w' = IN_TRANSACTION w.
Proof.
  intros H. cbv zeta. unfold start_race in H. cbv zeta in H.
  apply bind_inv in H. destruct H as [(t0 & w1 & H1 & H)|(e & H1 & ?)];
    [|discriminate].
  apply track_lookup_inv in H1. destruct H1 as (-> & _).
  apply bind_inv in H. destruct H as [(df_c & w1 & H1 & H)|(e & H1 & ?)];
    [|discriminate].
  apply cursor_query_inv in H1.
  destruct H1 as ((Hc1 & Hw1 & Hf1) & [(E & _)|(? & _)]); [|discriminate].
  inversion E; subst df_c; clear E.
  apply bind_inv in H. destruct H as [(df_t & w2 & H2 & H)|(e & H2 & ?)];
    [|discriminate].
  apply cursor_query_inv in H2.
  destruct H2 as ((Hc2 & Hw2 & Hf2) & _).
  destruct (sql_select_cars (working w)) as [|row0 roster] eqn:Eroster.
  { apply bind_inv in H. destruct H as [(u & w3 & _ & H)|(e & _ & ?)];
      discriminate. }
  apply bind_inv in H. destruct H as [(rid & w3 & H3 & H)|(e & H3 & ?)];
    [|discriminate].
  apply create_race_inv in H3. destruct H3 as (Hf3 & -> & Hw3 & _).
  apply bind_inv in H. destruct H as [(t & w4 & H4 & H)|(e & H4 & ?)];
    [|discriminate].
  apply track_lookup_inv in H4. destruct H4 as (-> & _).
  apply bind_inv in H. destruct H as [(rows & w4 & H4 & H)|(e & H4 & ?)];
    [|discriminate].
  apply compute_rows_inv in H4. destruct H4 as ((Hc4 & Hw4 & Hf4) & Hrows).
  apply bind_inv in H. destruct H as [(winner & w5 & H5 & H)|(e & H5 & ?)];
    [|discriminate].
  apply first_team_id_inv in H5. destruct H5 as (-> & Hwin).
  apply bind_inv in H. destruct H as [(u & w5 & H5 & H)|(e & H5 & ?)];
    [|discriminate].
  apply settlement_group_inv in H5.
  destruct H5 as (Hf5 & id & Hid & Hw5 & Hc5).
  inversion Hid; subst id; clear Hid.
  apply bind_inv in H. destruct H as [(u' & w6 & H6 & H)|(e & H6 & ?)];
    [|discriminate].
  cbv [st_success modify] in H6. inversion H6; subst w6; clear H6.
  cbv [ret] in H. inversion H; subst; clear H.
  cbn [rep_race_id rep_rows rep_results_payload rep_winner_team_id
       working committed IN_TRANSACTION set_screen].
  split; [discriminate|].
  split; [congruence|].
  split; [exists (fst t); exact Hrows|].
  split; [reflexivity|].
  split; [exact Hwin|].
  repeat split; congruence.
Qed.

(** ** The database after a settlement, table by table *)

Lemma team_has_car_cars (d d' : db) (tid : Z) :
  CARS d' = CARS d -> team_has_car d' tid = team_has_car d tid.
Proof.
  unfold team_has_car. now intros ->.
Qed.

Lemma settled_db_CARS (rid : Z) (payload : list (Z * Q * Z)) (winner : Z)
    (fee prize : Q) (d : db) :
  CARS (settled_db rid payload winner fee prize d) = CARS d.
Proof.
  unfold settled_db. cbv zeta. rewrite run_many_insert_results. reflexivity.
Qed.

Lemma settled_db_RACE_RESULTS (rid : Z) (payload : list (Z * Q * Z))
    (winner : Z) (fee prize : Q) (d : db) :
  RACE_RESULTS (settled_db rid payload winner fee prize d)
  = RACE_RESULTS d ++ map (result_row rid) payload.
Proof.
  unfold settled_db. cbv zeta. rewrite run_many_insert_results. simpl.
  f_equal. rewrite map_map. apply map_ext. now intros [[cid t] pos].
Qed.

Lemma settled_db_RACES (rid : Z) (payload : list (Z * Q * Z))
    (winner : Z) (fee prize : Q) (d : db) :
  RACES (settled_db rid payload winner fee prize d)
  = map (fun r => if (race_id r =? rid)%Z
                  then mkRace (race_id r) (race_track_name r) (Some winner)
                  else r) (RACES d).
Proof.
  unfold settled_db. cbv zeta. rewrite run_many_insert_results. reflexivity.
Qed.

Lemma settled_db_TEAMS (rid : Z) (payload : list (Z * Q * Z))
    (winner : Z) (fee prize : Q) (d : db) :
  TEAMS (settled_db rid payload winner fee prize d)
  = map (fun t => settle_team d winner fee prize t) (TEAMS d).
Proof.
  unfold settled_db. cbv zeta. rewrite run_many_insert_results. simpl.
  rewrite map_map. apply map_ext. intros t. unfold settle_team.
  unfold team_has_car. simpl.
  destruct (existsb _ (CARS d)); simpl; destruct (team_id t =? winner)%Z;
    reflexivity.
Qed.

(** The race inserted by [create_race] is the only one that
    [set_race_winner] updates. *)
Lemma races_after_settlement (track_name : string) (payload : list (Z * Q * Z))
    (winner : Z) (fee prize : Q) (d0 : db) :
  RACES (settled_db (next_race_id (RACES d0)) payload winner fee prize
           (fst (sql_insert_race track_name d0)))
  = RACES d0 ++ [mkRace (next_race_id (RACES d0)) track_name (Some winner)].
Proof.
  rewrite settled_db_RACES. simpl. rewrite map_app. simpl.
  rewrite Z.eqb_refl. f_equal.
  rewrite <- (map_id (RACES d0)) at 2. apply map_ext_in.
  intros r Hr. now rewrite (next_race_id_fresh _ _ Hr).
Qed.

(** ** Results and winner of a settled race *)

Lemma rows_follow_roster (tf : Q) (roster : list car_row)
    (rows : list timed_row) :
  Forall2 (row_of tf) roster rows ->
  map row_CAR_ID rows = map CAR_ID roster /\
  map (fun r => Some (row_TEAM_ID r)) rows = map TEAM_ID roster /\
  List.length rows = List.length roster.
Proof.
  induction 1 as [|row r roster rows (Hc & Ht & _) _ (IH1 & IH2 & IH3)];
    simpl; [auto|].
  repeat split; congruence.
Qed.

Lemma positions_from_one (rid : Z) (rows : list timed_row) :
  map rr_position (map (result_row rid) (enumerate_results 1 rows))
  = map Z.of_nat (seq 1 (List.length rows)).
Proof.
  rewrite map_map.
  transitivity (map (fun p => snd p) (enumerate_results 1 rows)).
  { apply map_ext. now intros [[cid t] pos]. }
  rewrite enumerate_results_positions, <- seq_shift, map_map.
  apply map_ext. intros i. lia.
Qed.

Lemma results_follow_ranking (rid : Z) (start : Z) (rows : list timed_row) :
  map (fun x => (rr_car_id x, rr_time_taken x))
      (map (result_row rid) (enumerate_results start rows))
  = map (fun r => (row_CAR_ID r, row_TIME_MIN r)) rows.
Proof.
  rewrite map_map, <- (enumerate_results_cars start).
  apply map_ext. now intros [[cid t] pos].
Qed.

Lemma results_race_id (rid : Z) (payload : list (Z * Q * Z)) :
  Forall (fun x => rr_race_id x = rid) (map (result_row rid) payload).
Proof.
  apply Forall_forall. intros x Hx. apply in_map_iff in Hx.
  destruct Hx as ([[cid t] pos] & <- & _). reflexivity.
Qed.

(** C4.  A settlement that completes on a roster of N cars adds exactly N
    rows to RACE_RESULTS, all for the new race; their positions are
    1, 2, ..., N in this order; read in the order of the positions, the
    cars and times are the rows of the roster sorted by ascending time,
    and cars with the same time keep the order they have in the roster. *)
Theorem settlement_results_ranked (track_name : string) (fee prize : Q)
    (w : world) (rep : race_report) :
  fst (start_race track_name fee prize w) = Ok rep ->
  let w' := snd (start_race track_name fee prize w) in
  let roster := sql_select_cars (working w) in
  let N := List.length roster in
  exists rid rows_sorted new_rows,
    rep_race_id rep = Some rid /\
    RACE_RESULTS (working w') = RACE_RESULTS (working w) ++ new_rows /\
    (0 < N)%nat /\
    List.length new_rows = N /\
    Forall (fun x => rr_race_id x = rid) new_rows /\
    map rr_position new_rows = map Z.of_nat (seq 1 N) /\
    map (fun x => (rr_car_id x, rr_time_taken x)) new_rows
    = map (fun r => (row_CAR_ID r, row_TIME_MIN r)) rows_sorted /\
    map row_CAR_ID (rep_rows rep) = map CAR_ID roster /\
    Permutation rows_sorted (rep_rows rep) /\
    StronglySorted Qle (map row_TIME_MIN rows_sorted) /\
    (forall t,
       filter (fun r => Qeq_bool (row_TIME_MIN r) t) rows_sorted
       = filter (fun r => Qeq_bool (row_TIME_MIN r) t) (rep_rows rep)).
Proof.
  intros H. cbv zeta.
  destruct (start_race track_name fee prize w) as [r w'] eqn:E.
  simpl in H. subst r. simpl.
  apply start_race_ok in E. cbv zeta in E.
  destruct E as (Hne & Hrid & (tf & Hrows) & Hpay & _ & Hw & _).
  apply rows_follow_roster in Hrows. destruct Hrows as (Hcars & _ & Hlen).
  exists (next_race_id (RACES (working w))),
         (sorted_by_time (rep_rows rep)),
         (map (result_row (next_race_id (RACES (working w))))
              (rep_results_payload rep)).
  split; [exact Hrid|].
  split; [rewrite Hw, settled_db_RACE_RESULTS; reflexivity|].
  split.
  { destruct (sql_select_cars (working w)); [contradiction|simpl; lia]. }
  split.
  { rewrite length_map, Hpay, enumerate_results_length.
    unfold sorted_by_time. rewrite sort_by_length. exact Hlen. }
  split; [apply results_race_id|].
  split.
  { rewrite Hpay, positions_from_one. unfold sorted_by_time.
    rewrite sort_by_length, Hlen. reflexivity. }
  split; [rewrite Hpay; apply results_follow_ranking|].
  split; [exact Hcars|].
  split; [apply sorted_by_time_perm|].
  split; [apply sorted_by_time_ascending|].
  apply sorted_by_time_stable.
Qed.

Lemma settlement_results_ranked_witness :
  exists new_rows,
    RACE_RESULTS
      (working (snd (start_race "Asphalt Sprint" 1000 5000
                       (scenario_world []))))
    = new_rows /\
    map rr_position new_rows = [1; 2]%Z.
Proof.
  assert (E : exists rep,
             fst (start_race "Asphalt Sprint" 1000 5000 (scenario_world []))
             = Ok rep)
    by (eexists; vm_compute; reflexivity).
  destruct E as [rep E].
  destruct (settlement_results_ranked _ _ _ _ _ E)
    as (rid & rs & new_rows & _ & Hres & _ & _ & _ & Hpos & _).
  exists new_rows. split; [exact Hres|exact Hpos].
Defined.

Lemma Forall2_in_right {A B : Type} (R : A -> B -> Prop) (l : list A)
    (l' : list B) (b : B) :
  Forall2 R l l' -> In b l' -> exists a, In a l /\ R a b.
Proof.
  induction 1 as [|x y l l' Hxy _ IH]; simpl; [contradiction|].
  intros [<-|Hb].
  - exists x. auto.
  - destruct (IH Hb) as (a & Ha & Hr). exists a. auto.
Qed.

Lemma NoDup_map_unique {A B : Type} (f : A -> B) (l : list A) (x y : A) :
  NoDup (map f l) -> In x l -> In y l -> f x = f y -> x = y.
Proof.
  induction l as [|a l IH]; simpl; [contradiction|].
  intros Hnd Hx Hy Hf. inversion Hnd as [|? ? Hnotin Hnd']; subst.
  destruct Hx as [->|Hx], Hy as [->|Hy]; auto.
  - exfalso. apply Hnotin. rewrite Hf. now apply in_map.
  - exfalso. apply Hnotin. rewrite <- Hf. now apply in_map.
Qed.

Lemma order_by_in {A : Type} (key : A -> Z) (l : list A) (a : A) :
  In a (order_by key l) <-> In a l.
Proof.
  apply sort_by_in.
Qed.

(** Every row of [get_all_cars] shows a car of CARS with its team. *)
Lemma select_cars_from_cars (d : db) (row : car_row) :
  In row (sql_select_cars d) ->
  exists c, In c (CARS d) /\ CAR_ID row = car_id c /\
            TEAM_ID row = car_team_id c.
Proof.
  unfold sql_select_cars. intros H. apply in_flat_map in H.
  destruct H as (c & Hc & Hrow). apply order_by_in in Hc.
  exists c. split; [exact Hc|].
  destruct (teams_of_car d c) as [|t ts].
  - destruct Hrow as [<-|[]]. auto.
  - apply in_map_iff in Hrow. destruct Hrow as (t' & <- & _). auto.
Qed.

(** C5.  After a settlement that completes, the row of RACES of the new
    race carries as winner the team of the roster row whose car received
    position 1, and that team is the one that CARS records for this car. *)
Theorem settlement_winner_owns_first (track_name : string) (fee prize : Q)
    (w : world) (rep : race_report) :
  fst (start_race track_name fee prize w) = Ok rep ->
  let w' := snd (start_race track_name fee prize w) in
  let winner := rep_winner_team_id rep in
  exists rid first_result row c,
    rep_race_id rep = Some rid /\
    RACES (working w')
    = RACES (working w) ++ [mkRace rid track_name (Some winner)] /\
    (forall r, In r (RACES (working w)) -> race_id r <> rid) /\
    In first_result (RACE_RESULTS (working w')) /\
    rr_race_id first_result = rid /\
    rr_position first_result = 1%Z /\
    In row (sql_select_cars (working w)) /\
    CAR_ID row = rr_car_id first_result /\
    TEAM_ID row = Some winner /\
    In c (CARS (working w)) /\
    car_id c = rr_car_id first_result /\
    car_team_id c = Some winner /\
    (NoDup (map car_id (CARS (working w))) ->
     forall c', In c' (CARS (working w)) ->
                car_id c' = rr_car_id first_result ->
                car_team_id c' = Some winner).
Proof.
  intros H. cbv zeta.
  destruct (start_race track_name fee prize w) as [r w'] eqn:E.
  simpl in H. subst r. simpl.
  apply start_race_ok in E. cbv zeta in E.
  destruct E as (_ & Hrid & (tf & Hrows) & Hpay & (r0 & rest & Hs & Hwin)
                 & Hw & _).
  assert (Hr0 : In r0 (rep_rows rep)).
  { apply (Permutation_in r0 (sorted_by_time_perm (rep_rows rep))).
    rewrite Hs. now left. }
  destruct (Forall2_in_right _ _ _ _ Hrows Hr0) as (row & Hrow & Hc & Ht & _).
  destruct (select_cars_from_cars _ _ Hrow) as (c & Hcin & Hcid & Hcteam).
  set (rid := next_race_id (RACES (working w))) in *.
  exists rid, (mkRaceResult rid (row_CAR_ID r0) (row_TIME_MIN r0) 1), row, c.
  split; [exact Hrid|].
  split; [rewrite Hw; apply races_after_settlement|].
  split.
  { intros r Hr Heq. pose proof (next_race_id_fresh _ _ Hr) as Hfresh.
    fold rid in Hfresh. rewrite Heq, Z.eqb_refl in Hfresh. discriminate. }
  split.
  { rewrite Hw, settled_db_RACE_RESULTS, Hpay, Hs. simpl.
    apply in_or_app. right. now left. }
  simpl. rewrite Hwin.
  repeat split; try congruence.
  intros Hnd c' Hc' Hid.
  assert (c' = c) by (apply (NoDup_map_unique car_id _ _ _ Hnd); congruence).
  congruence.
Qed.

Lemma settlement_winner_owns_first_witness :
  exists r,
    In r (RACES (working (snd (start_race "Asphalt Sprint" 1000 5000
                                 (scenario_world []))))) /\
    race_winner_team_id r = Some 1%Z.
Proof.
  assert (E : exists rep,
             fst (start_race "Asphalt Sprint" 1000 5000 (scenario_world []))
             = Ok rep)
    by (eexists; vm_compute; reflexivity).
  destruct E as [rep E].
  destruct (settlement_winner_owns_first _ _ _ _ _ E)
    as (rid & fr & row & c & _ & Hraces & _).
  eexists. split.
  - rewrite Hraces. apply in_or_app. right. left. reflexivity.
  - simpl. f_equal. revert E. vm_compute. intros E. now inversion E.
Defined.

(** ** Runs of the page that do not complete *)

Lemma select_cars_empty (d : db) : CARS d = [] -> sql_select_cars d = [].
Proof.
  unfold sql_select_cars. now intros ->.
Qed.

Lemma track_lookup_known (tracks : list (string * (Q * string)))
    (name : string) :
  In name (map fst tracks) ->
  exists t, forall w, track_lookup tracks name w = (Ok t, w).
Proof.
  intros H. unfold track_lookup.
  destruct (find (fun kv => String.eqb (fst kv) name) tracks) as [kv|] eqn:E.
  - exists (snd kv). reflexivity.
  - exfalso. apply in_map_iff in H. destruct H as (kv & Hk & Hin).
    pose proof (find_none _ _ E kv Hin) as Hn. simpl in Hn.
    rewrite Hk, String.eqb_refl in Hn. discriminate.
Qed.

Lemma cursor_query_run {R : Type} (op : sql_op) (q : db -> R) (w : world) :
  cursor_query op q w
  = (if next_call_fails w then Raise (DatabaseError op)
     else Ok (q (working w)),
     set_faults w (tl (faults w))).
Proof.
  unfold cursor_query.
  destruct (connector_call_cases (DatabaseError op) w) as [[Hf E]|[Hf E]];
    rewrite Hf.
  - rewrite (bind_ok _ _ _ _ _ E). reflexivity.
  - rewrite (bind_raise _ _ _ _ _ E). reflexivity.
Qed.

(** C8.  When CARS is empty the run of the page ends with an exception and
    leaves the committed data, the data of the session and the flag as
    they were; when the track is one of the catalogue and the two reads of
    the page do not fail, the page shows the warning "No cars available.
    Add cars first." and stops. *)
Theorem empty_roster_aborts (track_name : string) (fee prize : Q) (w : world) :
  CARS (working w) = [] ->
  let r := fst (start_race track_name fee prize w) in
  let w' := snd (start_race track_name fee prize w) in
  (exists e, r = Raise e) /\
  session_eq w w' /\
  (In track_name (map fst build_track_catalog) ->
   ~ In true (firstn 2 (faults w)) ->
   r = Raise StopException /\
   screen w'
   = Warning "No cars available. Add cars first." :: screen w).
Proof.
  intros Hcars. cbv zeta.
  pose proof (select_cars_empty _ Hcars) as Hroster.
  split; [|split].
  - destruct (start_race track_name fee prize w) as [r w'] eqn:E. simpl.
    unfold start_race in E. cbv zeta in E.
    apply bind_inv in E. destruct E as [(t0 & w1 & H1 & E)|(e & H1 & ->)];
      [|eauto].
    apply track_lookup_inv in H1. destruct H1 as (-> & _).
    apply bind_inv in E. destruct E as [(df_c & w1 & H1 & E)|(e & H1 & ->)];
      [|eauto].
    apply cursor_query_inv in H1.
    destruct H1 as (_ & [(Eq & _)|(? & _)]); [|discriminate].
    inversion Eq; subst df_c; clear Eq. rewrite Hroster in E.
    apply bind_inv in E. destruct E as [(df_t & w2 & H2 & E)|(e & H2 & ->)];
      [|eauto].
    apply bind_inv in E. destruct E as [(u & w3 & H3 & E)|(e & H3 & ->)];
      [|eauto].
    cbv [st_stop raise] in E. inversion E. eauto.
  - destruct (start_race track_name fee prize w) as [r w'] eqn:E. simpl.
    unfold start_race in E. cbv zeta in E.
    apply bind_inv in E. destruct E as [(t0 & w1 & H1 & E)|(e & H1 & ->)];
      apply track_lookup_inv in H1; destruct H1 as (-> & _);
      [|apply session_eq_refl].
    apply bind_inv in E. destruct E as [(df_c & w1 & H1 & E)|(e & H1 & ->)];
      apply cursor_query_inv in H1; destruct H1 as (Hs1 & [(Eq & _)|(? & _)]);
      try discriminate; [|exact Hs1].
    inversion Eq; subst df_c; clear Eq. rewrite Hroster in E.
    apply bind_inv in E. destruct E as [(df_t & w2 & H2 & E)|(e & H2 & ->)];
      apply cursor_query_inv in H2; destruct H2 as (Hs2 & _);
      [|eapply session_eq_trans; eassumption].
    apply bind_inv in E. destruct E as [(u & w3 & H3 & E)|(e & H3 & ->)];
      cbv [st_warning modify] in H3; inversion H3; subst; clear H3.
    cbv [st_stop raise] in E. inversion E; subst; clear E.
    eapply session_eq_trans; [exact Hs1|].
    eapply session_eq_trans; [exact Hs2|]. apply screen_event_session.
  - intros Htrack Hfaults.
    destruct (track_lookup_known _ _ Htrack) as (t & Ht).
    unfold start_race. cbv zeta.
    rewrite (bind_ok _ _ _ _ _ (Ht w)).
    unfold cars_df, teams_df, get_all_cars, get_all_teams, fetch_all.
    assert (Hn1 : next_call_fails w = false).
    { unfold next_call_fails. destruct (faults w) as [|[|] fs]; auto.
      exfalso. apply Hfaults. now left. }
    assert (Hn2 : next_call_fails (set_faults w (tl (faults w))) = false).
    { unfold next_call_fails. simpl.
      destruct (faults w) as [|b [|[|] fs]]; auto.
      exfalso. apply Hfaults. right. now left. }
    pose proof (cursor_query_run SELECT_CARS sql_select_cars w) as E1.
    rewrite Hn1, Hroster in E1.
    rewrite (bind_ok _ _ _ _ _ E1).
    pose proof (cursor_query_run SELECT_TEAMS sql_select_teams
                  (set_faults w (tl (faults w)))) as E2.
    rewrite Hn2 in E2.
    rewrite (bind_ok _ _ _ _ _ E2).
    split; reflexivity.
Qed.

Lemma empty_roster_aborts_witness :
  let w := mkWorld (mkDb [mkTeam 1 "T1" "Alice" 10000] [] [] [])
                   (mkDb [mkTeam 1 "T1" "Alice" 10000] [] [] [])
                   false [] (fun _ => 1 # 2) 0 [] in
  fst (start_race "Desert Loop" 1000 5000 w) = Raise StopException /\
  working (snd (start_race "Desert Loop" 1000 5000 w)) = working w.
Proof.
  intros w.
  destruct (empty_roster_aborts "Desert Loop" 1000 5000 w eq_refl)
    as (_ & (_ & Hw & _) & Hstop).
  split; [|exact Hw].
  apply Hstop.
  - simpl. tauto.
  - simpl. tauto.
Defined.

Lemma not_group_failure (e : exn) :
  group_failure e ->
  e <> KeyError /\ e <> TypeError /\ e <> IndexError /\ e <> StopException /\
  e <> CommitError /\ e <> RollbackError /\
  e <> DatabaseError SELECT_CARS /\ e <> DatabaseError SELECT_TEAMS /\
  e <> DatabaseError INSERT_RACE /\ e <> DatabaseError SELECT_MAX_RACE_ID.
Proof.
  unfold group_failure. intros [ -> | [ -> | [ -> | -> ] ] ]; repeat split; discriminate.
Qed.

(** C1 (as the code has it).  When one of the four statements of the
    settlement group raises and the rollback goes through, the session is
    back at what was committed when the group began: TEAMS (so every
    budget), CARS and RACE_RESULTS are as before the race, and RACES has
    one more row, the race of [create_race], which was committed before
    the group and has no winner. *)
Theorem settlement_failure_rolls_back (track_name : string) (fee prize : Q)
    (w : world) (e : exn) :
  IN_TRANSACTION w = false ->
  fst (start_race track_name fee prize w) = Raise e ->
  group_failure e ->
  let w' := snd (start_race track_name fee prize w) in
  TEAMS (working w') = TEAMS (working w) /\
  CARS (working w') = CARS (working w) /\
  RACE_RESULTS (working w') = RACE_RESULTS (working w) /\
  RACES (working w')
  = RACES (working w)
      ++ [mkRace (next_race_id (RACES (working w))) track_name None] /\
  committed w' = working w' /\
  IN_TRANSACTION w' = false.
Proof.
  intros Hflag H Hgroup. cbv zeta.
  destruct (start_race track_name fee prize w) as [r w'] eqn:E.
  simpl in H. subst r. simpl.
  destruct (not_group_failure e Hgroup)
    as (N1 & N2 & N3 & N4 & N5 & N6 & N7 & N8 & N9 & N10).
  unfold start_race in E. cbv zeta in E.
  apply bind_inv in E. destruct E as [(t0 & w1 & H1 & E)|(e' & H1 & Ee)];
    apply track_lookup_inv in H1; destruct H1 as (-> & [ ? | [? ?] ]);
    try congruence.
  apply bind_inv in E. destruct E as [(df_c & w1 & H1 & E)|(e' & H1 & Ee)];
    apply cursor_query_inv in H1;
    destruct H1 as ((Hc1 & Hw1 & Hf1) & [(Eq & _)|(? & _)]);
    try congruence.
  apply bind_inv in E. destruct E as [(df_t & w2 & H2 & E)|(e' & H2 & Ee)];
    apply cursor_query_inv in H2;
    destruct H2 as ((Hc2 & Hw2 & Hf2) & [(Eq2 & _)|(? & _)]);
    try congruence.
  destruct df_c as [|row0 roster].
  { apply bind_inv in E. destruct E as [(u & w3 & _ & E)|(e' & H3 & Ee)].
    - cbv [st_stop raise] in E. congruence.
    - cbv [st_warning modify] in H3. discriminate. }
  apply bind_inv in E. destruct E as [(rid & w3 & H3 & E)|(e' & H3 & Ee)];
    apply create_race_inv in H3; destruct H3 as (Hf3 & H3);
    [|destruct H3 as [ ? | [ ? | ? ] ]; congruence].
  destruct H3 as (-> & Hw3 & Hc3).
  assert (Hflag2 : IN_TRANSACTION w2 = false) by congruence.
  specialize (Hc3 Hflag2).
  apply bind_inv in E. destruct E as [(t & w4 & H4 & E)|(e' & H4 & Ee)];
    apply track_lookup_inv in H4; destruct H4 as (-> & [ ? | [? ?] ]);
    try congruence.
  apply bind_inv in E. destruct E as [(rows & w4 & H4 & E)|(e' & H4 & Ee)];
    apply compute_rows_inv in H4; destruct H4 as ((Hc4 & Hw4 & Hf4) & Hrows);
    [|destruct Hrows as (? & _); congruence].
  apply bind_inv in E. destruct E as [(winner & w5 & H5 & E)|(e' & H5 & Ee)];
    apply first_team_id_inv in H5; destruct H5 as (-> & Hwin);
    [|destruct Hwin as (? & _); congruence].
  apply bind_inv in E. destruct E as [(u & w5 & H5 & E)|(e' & H5 & Ee)].
  { apply bind_inv in E. destruct E as [(u' & w6 & H6 & E)|(e' & H6 & Ee)].
    - cbv [ret] in E. discriminate.
    - cbv [st_success modify] in H6. discriminate. }
  inversion Ee; subst e'; clear Ee.
  apply settlement_group_inv in H5.
  destruct H5 as (Hf5 & [ [ ? | ? ] | (_ & Hw5 & Hc5) ]); try congruence.
  assert (Hd : working w' = fst (sql_insert_race track_name (working w)))
    by congruence.
  split; [rewrite Hd; reflexivity|].
  split; [rewrite Hd; reflexivity|].
  split; [rewrite Hd; reflexivity|].
  split; [rewrite Hd; reflexivity|].
  split; congruence.
Qed.

(** The schedule in which the ninth call of the connector raises: the
    two reads, the insertion of the race, its commit, the reading of the
    identifier, and the first three statements of the group go through;
    [credit_winner_prize] raises. *)
Lemma settlement_failure_rolls_back_witness :
  let w := scenario_world
             [false; false; false; false; false; false; false; false; true] in
  let w' := snd (start_race "Asphalt Sprint" 1000 5000 w) in
  TEAMS (working w') = TEAMS scenario_db /\
  RACE_RESULTS (working w') = [] /\
  RACES (working w') = [mkRace 1 "Asphalt Sprint" None].
Proof.
  intros w w'.
  destruct (settlement_failure_rolls_back "Asphalt Sprint" 1000 5000 w
              (DatabaseError UPDATE_PRIZE) eq_refl eq_refl
              (or_intror (or_intror (or_intror eq_refl))))
    as (Ht & _ & Hr & Hraces & _).
  split; [exact Ht|]. split; [exact Hr|exact Hraces].
Defined.

(** C1, as stated, fails: when [credit_winner_prize] raises inside the
    group, the rollback leaves the race of [create_race] in RACES, so the
    caller does observe a new Race row. *)
Lemma settlement_failure_keeps_race :
  let w := scenario_world
             [false; false; false; false; false; false; false; false; true] in
  let out := start_race "Asphalt Sprint" 1000 5000 w in
  fst out = Raise (DatabaseError UPDATE_PRIZE) /\
  RACES (working w) = [] /\
  RACES (working (snd out)) = [mkRace 1 "Asphalt Sprint" None] /\
  RACES (committed (snd out)) = [mkRace 1 "Asphalt Sprint" None] /\
  RACES (working (snd out)) <> RACES (working w).
Proof.
  cbv zeta. repeat split; try (vm_compute; reflexivity).
  vm_compute. discriminate.
Qed.

(** ** Dictionaries built from rows *)

Lemma dict_get_absent {V : Type} (d : list (Z * V)) (k : Z) :
  ~ In k (map fst d) -> dict_get d k = None.
Proof.
  induction d as [|[k' v] d IH]; simpl; [reflexivity|].
  intros H. rewrite IH by tauto.
  destruct (Z.eqb_spec k' k); [|reflexivity]. exfalso. tauto.
Qed.

(** With distinct keys, looking up the key of a binding gives its value. *)
Lemma dict_get_in {V : Type} (d : list (Z * V)) (k : Z) (v : V) :
  NoDup (map fst d) -> In (k, v) d -> dict_get d k = Some v.
Proof.
  induction d as [|[k' v'] d IH]; simpl; [contradiction|].
  intros Hnd [H|H]; inversion Hnd as [|? ? Hnotin Hnd']; subst.
  - inversion H; subst. rewrite (dict_get_absent d k Hnotin).
    now rewrite Z.eqb_refl.
  - now rewrite (IH Hnd' H).
Qed.

(** A key that is bound is found, whatever the keys. *)
Lemma dict_get_bound {V : Type} (d : list (Z * V)) (k : Z) :
  In k (map fst d) -> exists v, dict_get d k = Some v /\ In (k, v) d.
Proof.
  induction d as [|[k' v'] d IH]; simpl; [contradiction|].
  intros H.
  destruct (in_dec Z.eq_dec k (map fst d)) as [Hin|Hnotin].
  - destruct (IH Hin) as (v & -> & Hv). eauto.
  - rewrite (dict_get_absent d k Hnotin).
    destruct H as [->|H]; [|contradiction].
    rewrite Z.eqb_refl. eauto.
Qed.

Lemma dict_keys_distinct {V : Type} (d : list (Z * V)) :
  NoDup (map fst d) -> dict_keys d = map fst d.
Proof.
  intros H. unfold dict_keys.
  rewrite nodup_fixed_point by (now apply NoDup_rev).
  apply rev_involutive.
Qed.

Lemma dict_keys_NoDup {V : Type} (d : list (Z * V)) : NoDup (dict_keys d).
Proof.
  unfold dict_keys. apply NoDup_rev, NoDup_nodup.
Qed.

Lemma dict_keys_in {V : Type} (d : list (Z * V)) (k : Z) :
  In k (dict_keys d) <-> In k (map fst d).
Proof.
  unfold dict_keys. rewrite <- in_rev, nodup_In, <- in_rev. reflexivity.
Qed.

(** ** Sums of rationals *)

Lemma Qsum_app (l l' : list Q) : Qsum (l ++ l') == Qsum l + Qsum l'.
Proof.
  induction l as [|x l IH]; simpl; [ring|]. rewrite IH. ring.
Qed.

Lemma Qsum_perm (l l' : list Q) : Permutation l l' -> Qsum l == Qsum l'.
Proof.
  induction 1 as [|x l l' _ IH|x y l|l l' l'' _ IH1 _ IH2]; simpl.
  - reflexivity.
  - now rewrite IH.
  - ring.
  - now rewrite IH1.
Qed.

Lemma Qsum_map_minus {A : Type} (f g : A -> Q) (l : list A) :
  Qsum (map (fun a => f a - g a) l) == Qsum (map f l) - Qsum (map g l).
Proof.
  induction l as [|a l IH]; simpl; [ring|]. rewrite IH. ring.
Qed.

Lemma Qsum_map_ext {A : Type} (f g : A -> Q) (l : list A) :
  (forall a, In a l -> f a == g a) -> Qsum (map f l) == Qsum (map g l).
Proof.
  induction l as [|a l IH]; simpl; intros H; [reflexivity|].
  rewrite (H a) by now left. rewrite IH; [reflexivity|].
  intros b Hb. apply H. now right.
Qed.

Lemma Qsum_indicator {A : Type} (p : A -> bool) (c : Q) (l : list A) :
  Qsum (map (fun a => if p a then c else 0) l)
  == c * inject_Z (Z.of_nat (List.length (filter p l))).
Proof.
  induction l as [|a l IH]; simpl; [ring|].
  rewrite IH. destruct (p a); simpl List.length; [|ring].
  rewrite Nat2Z.inj_succ, <- Z.add_1_r, inject_Z_plus. ring.
Qed.

(** ** Counting teams *)

(** A key occurs once in a list of distinct keys. *)
Lemma count_key (l : list Z) (k : Z) :
  NoDup l -> In k l ->
  List.length (filter (fun x => (x =? k)%Z) l) = 1%nat.
Proof.
  induction l as [|x l IH]; simpl; [contradiction|].
  intros Hnd Hin. apply NoDup_cons_iff in Hnd. destruct Hnd as (Hnotin & Hnd).
  destruct (Z.eqb_spec x k) as [E|N].
  - subst x. simpl. f_equal. apply length_zero_iff_nil.
    destruct (filter _ l) as [|y ys] eqn:F; [reflexivity|].
    exfalso. apply Hnotin.
    assert (Hy : In y (filter (fun x => (x =? k)%Z) l)) by (rewrite F; now left).
    apply filter_In in Hy. destruct Hy as (Hy & Hyk).
    apply Z.eqb_eq in Hyk. now subst y.
  - apply IH; [exact Hnd|]. destruct Hin; [contradiction|assumption].
Qed.

(** The keys that pass a test are as many as the distinct identifiers
    that the test selects. *)
Lemma count_keys (l : list Z) (p : Z -> bool) (ids : list Z) :
  NoDup l ->
  (forall k, In k ids -> In k l) ->
  (forall k, In k l -> (p k = true <-> In k ids)) ->
  List.length (filter p l) = List.length (nodup Z.eq_dec ids).
Proof.
  intros Hnd Hsub Hp.
  apply Permutation_length, NoDup_Permutation.
  - now apply NoDup_filter.
  - apply NoDup_nodup.
  - intros k. rewrite nodup_In, filter_In. split.
    + intros (Hk & Hpk). now apply Hp.
    + intros Hk. split; [now apply Hsub|]. apply Hp; [now apply Hsub|exact Hk].
Qed.

Lemma Forall2_in_left {A B : Type} (R : A -> B -> Prop) (l : list A)
    (l' : list B) (a : A) :
  Forall2 R l l' -> In a l -> exists b, In b l' /\ R a b.
Proof.
  induction 1 as [|x y l l' Hxy _ IH]; simpl; [contradiction|].
  intros [<-|Ha].
  - exists y. auto.
  - destruct (IH Ha) as (b & Hb & Hr). exists b. auto.
Qed.

(** The LEFT JOIN keeps every car: each car of CARS has a row. *)
Lemma cars_in_select_cars (d : db) (c : car) :
  In c (CARS d) ->
  exists row, In row (sql_select_cars d) /\ CAR_ID row = car_id c /\
              TEAM_ID row = car_team_id c.
Proof.
  intros Hc. unfold sql_select_cars.
  destruct (teams_of_car d c) as [|t ts] eqn:E.
  - exists (join_row c None). split; [|auto].
    apply in_flat_map. exists c. split; [now apply order_by_in|].
    rewrite E. now left.
  - exists (join_row c (Some (team_name t))). split; [|auto].
    apply in_flat_map. exists c. split; [now apply order_by_in|].
    rewrite E. now left.
Qed.

Lemma team_has_car_iff (d : db) (tid : Z) :
  team_has_car d tid = true <->
  exists c, In c (CARS d) /\ car_team_id c = Some tid.
Proof.
  unfold team_has_car. rewrite existsb_exists. split.
  - intros (c & Hc & H). exists c. split; [exact Hc|].
    destruct (car_team_id c) as [t|]; [|discriminate].
    apply Z.eqb_eq in H. now subst.
  - intros (c & Hc & H). exists c. split; [exact Hc|].
    rewrite H. apply Z.eqb_refl.
Qed.

(** When the loop over the roster completed, the teams that own a car
    are the teams of the raced rows. *)
Lemma raced_teams (tf : Q) (d : db) (rows : list timed_row) (tid : Z) :
  Forall2 (row_of tf) (sql_select_cars d) rows ->
  team_has_car d tid = true <-> In tid (map row_TEAM_ID rows).
Proof.
  intros Hrows. rewrite team_has_car_iff, in_map_iff. split.
  - intros (c & Hc & Ht).
    destruct (cars_in_select_cars d c Hc) as (row & Hrow & _ & Hteam).
    destruct (Forall2_in_left _ _ _ _ Hrows Hrow) as (r & Hr & _ & Hrt & _).
    exists r. split; [congruence|exact Hr].
  - intros (r & <- & Hr).
    destruct (Forall2_in_right _ _ _ _ Hrows Hr) as (row & Hrow & _ & Hrt & _).
    destruct (select_cars_from_cars d row Hrow) as (c & Hc & _ & Hteam).
    exists c. split; [exact Hc|congruence].
Qed.

(** ** Budgets before and after a settlement *)

Lemma order_by_perm {A : Type} (key : A -> Z) (l : list A) :
  Permutation (order_by key l) l.
Proof.
  apply sort_by_perm.
Qed.

Lemma settle_team_id (d : db) (winner : Z) (fee prize : Q) (t : team) :
  team_id (settle_team d winner fee prize t) = team_id t.
Proof.
  unfold settle_team. cbv zeta.
  destruct (team_has_car d (team_id t)); simpl;
    destruct (team_id t =? winner)%Z; reflexivity.
Qed.

Lemma settle_team_budget (d : db) (winner : Z) (fee prize : Q) (t : team) :
  budget (settle_team d winner fee prize t) - budget t
  == (if (team_id t =? winner)%Z then prize else 0)
     - (if team_has_car d (team_id t) then fee else 0).
Proof.
  unfold settle_team. cbv zeta.
  destruct (team_has_car d (team_id t)); simpl;
    destruct (team_id t =? winner)%Z; simpl; ring.
Qed.

(** A map that keeps the key of every row commutes with [ORDER BY]. *)
Lemma insert_sorted_map {A : Type} (key : A -> Z) (f : A -> A) (a : A)
    (l : list A) :
  (forall x, key (f x) = key x) ->
  insert_sorted (fun x y => (key x <=? key y)%Z) (f a) (map f l)
  = map f (insert_sorted (fun x y => (key x <=? key y)%Z) a l).
Proof.
  intros Hkey. induction l as [|x l IH]; simpl; [reflexivity|].
  rewrite !Hkey. destruct (key a <=? key x)%Z; simpl; [reflexivity|].
  now rewrite IH.
Qed.

Lemma order_by_map {A : Type} (key : A -> Z) (f : A -> A) (l : list A) :
  (forall x, key (f x) = key x) ->
  order_by key (map f l) = map f (order_by key l).
Proof.
  intros Hkey. unfold order_by.
  induction l as [|a l IH]; simpl; [reflexivity|].
  rewrite IH. now apply insert_sorted_map.
Qed.

(** Two dictionaries built from the same rows bind a key to the values
    of one and the same row (the last one with that key). *)
Lemma dict_get_same_row {A V W : Type} (key : A -> Z) (f : A -> V)
    (g : A -> W) (l : list A) (k : Z) :
  In k (map key l) ->
  exists a, In a l /\ key a = k /\
    dict_get (map (fun r => (key r, f r)) l) k = Some (f a) /\
    dict_get (map (fun r => (key r, g r)) l) k = Some (g a).
Proof.
  induction l as [|a l IH]; simpl; [contradiction|].
  intros H.
  destruct (in_dec Z.eq_dec k (map key l)) as [Hin|Hnot].
  - destruct (IH Hin) as (a0 & Ha & Hk & -> & ->). exists a0. auto.
  - rewrite !dict_get_absent by (rewrite map_map; exact Hnot).
    destruct H as [E|H]; [|contradiction].
    rewrite E, Z.eqb_refl. exists a. auto.
Qed.

(** The changes of budget that the page computes from the two readings
    of TEAMS, when every row is changed by [settle] and the change of a
    row depends on its identifier only: one change per identifier. *)
Lemma budget_deltas_by_key (settle : team -> team) (delta : Z -> Q)
    (ts : list team) :
  (forall t, team_id (settle t) = team_id t) ->
  (forall t, budget (settle t) - budget t == delta (team_id t)) ->
  Qsum (budget_deltas (order_by team_id ts)
                      (order_by team_id (map settle ts)))
  == Qsum (map delta (dict_keys (team_name_map (order_by team_id ts)))).
Proof.
  intros Hid Hd. rewrite order_by_map by exact Hid.
  set (before := order_by team_id ts).
  unfold budget_deltas. cbv zeta.
  apply Qsum_map_ext. intros k Hk.
  apply dict_keys_in in Hk. unfold team_name_map in Hk.
  rewrite map_map in Hk. simpl in Hk.
  unfold compute_budgets_map. rewrite map_map.
  rewrite (map_ext (fun x => (team_id (settle x), budget (settle x)))
                   (fun x => (team_id x, budget (settle x))))
    by (intros t; now rewrite Hid).
  destruct (dict_get_same_row team_id (fun r => budget (settle r)) budget
              before k Hk) as (t & _ & Hkt & -> & ->).
  rewrite <- Hkt. apply Hd.
Qed.

(** C3 (as the code has it).  When every car belongs to a team of TEAMS,
    a settlement that completes changes the budgets by
    prize - fee * (number of distinct teams of the raced cars) in total. *)
Theorem settlement_budget_sum (track_name : string) (fee prize : Q)
    (w : world) (rep : race_report) :
  (forall c t, In c (CARS (working w)) -> car_team_id c = Some t ->
               In t (map team_id (TEAMS (working w)))) ->
  fst (start_race track_name fee prize w) = Ok rep ->
  let w' := snd (start_race track_name fee prize w) in
  Qsum (budget_deltas (sql_select_teams (working w))
                      (sql_select_teams (working w')))
  == prize
     - fee * inject_Z
               (Z.of_nat
                  (List.length
                     (nodup Z.eq_dec (map row_TEAM_ID (rep_rows rep))))).
Proof.
  intros Href H. cbv zeta.
  destruct (start_race track_name fee prize w) as [r w'] eqn:E.
  simpl in H. subst r. simpl.
  apply start_race_ok in E. cbv zeta in E.
  destruct E as (_ & _ & (tf & Hrows) & _ & (r0 & rest & Hs & Hwin) & Hw & _).
  set (d0 := working w) in *.
  set (d1 := fst (sql_insert_race track_name d0)) in *.
  set (winner := rep_winner_team_id rep) in *.
  unfold sql_select_teams.
  rewrite Hw, settled_db_TEAMS.
  change (TEAMS d1) with (TEAMS d0).
  rewrite (budget_deltas_by_key _
             (fun k => (if (k =? winner)%Z then prize else 0)
                       - (if team_has_car d0 k then fee else 0)));
    [|intros t; apply settle_team_id
     |intros t; apply (settle_team_budget d1)].
  set (keys := dict_keys (team_name_map (order_by team_id (TEAMS d0)))).
  assert (Hkeys : forall k, In k keys <-> In k (map team_id (TEAMS d0))).
  { intros k. unfold keys. rewrite dict_keys_in.
    unfold team_name_map. rewrite map_map. simpl.
    rewrite !in_map_iff. split; intros (t & Hk & Ht); exists t;
      (split; [exact Hk|]); now apply order_by_in in Ht || apply order_by_in. }
  assert (Hnd : NoDup keys) by apply dict_keys_NoDup.
  rewrite (Qsum_map_minus
             (fun k => if (k =? winner)%Z then prize else 0)
             (fun k => if team_has_car d0 k then fee else 0)).
  rewrite (Qsum_indicator (fun k => (k =? winner)%Z) prize).
  rewrite (Qsum_indicator (team_has_car d0) fee).
  assert (Hraced : forall k, In k (map row_TEAM_ID (rep_rows rep)) ->
                             In k keys).
  { intros k Hk. apply Hkeys. apply (raced_teams tf d0 _ k Hrows) in Hk.
    apply team_has_car_iff in Hk. destruct Hk as (c & Hc & Ht).
    exact (Href c k Hc Ht). }
  assert (Hwinner : In winner keys).
  { apply Hraced. rewrite Hwin. apply in_map.
    apply (Permutation_in r0 (sorted_by_time_perm (rep_rows rep))).
    rewrite Hs. now left. }
  rewrite (count_key _ _ Hnd Hwinner).
  rewrite (count_keys keys (team_has_car d0)
             (map row_TEAM_ID (rep_rows rep)) Hnd Hraced).
  - simpl. ring.
  - intros k _. apply (raced_teams tf d0 _ k Hrows).
Qed.

Lemma settlement_budget_sum_witness :
  Qsum (budget_deltas
          (sql_select_teams (working (scenario_world [])))
          (sql_select_teams
             (working (snd (start_race "Asphalt Sprint" 1000 5000
                              (scenario_world []))))))
  == 5000 - 1000 * 2.
Proof.
  assert (E : exists rep,
             fst (start_race "Asphalt Sprint" 1000 5000 (scenario_world []))
             = Ok rep /\
             map row_TEAM_ID (rep_rows rep) = [1; 2]%Z)
    by (eexists; split; vm_compute; reflexivity).
  destruct E as (rep & E & Hteams).
  assert (Href : forall c t,
             In c (CARS (working (scenario_world []))) ->
             car_team_id c = Some t ->
             In t (map team_id (TEAMS (working (scenario_world []))))).
  { simpl. intros c t [<-|[<-|[]]] Ht; inversion Ht; subst; auto. }
  pose proof (settlement_budget_sum "Asphalt Sprint" 1000 5000
                (scenario_world []) rep Href E) as H.
  cbv zeta in H. rewrite H, Hteams. reflexivity.
Defined.

(** C3, as stated, fails: when the only car refers to a team that TEAMS
    does not hold, the race completes, nobody pays the fee and nobody is
    credited the prize; the budgets change by 0 in total, and not by
    prize - fee * 1. *)
Lemma settlement_budget_sum_unknown_team :
  let d := mkDb [mkTeam 1 "T1" "Alice" 10000]
                [mkCar 1 "CarA" (Some 7%Z) 220 (85 # 100) (90 # 100)] [] [] in
  let w := mkWorld d d false [] (fun _ => 1 # 2) 0 [] in
  let out := start_race "Asphalt Sprint" 1000 5000 w in
  let total := Qsum (budget_deltas (sql_select_teams (working w))
                       (sql_select_teams (working (snd out)))) in
  exists rep,
    fst out = Ok rep /\
    nodup Z.eq_dec (map row_TEAM_ID (rep_rows rep)) = [7%Z] /\
    total == 0 /\
    ~ total
      == 5000
         - 1000 * inject_Z
                    (Z.of_nat
                       (List.length
                          (nodup Z.eq_dec (map row_TEAM_ID (rep_rows rep))))).
Proof.
  cbv zeta. eexists. split; [vm_compute; reflexivity|].
  split; [vm_compute; reflexivity|].
  split; [vm_compute; reflexivity|].
  vm_compute. discriminate.
Qed.

(* ================================================================== *)
(** * Part III.  Further properties of the code                        *)
(* ================================================================== *)

(** ** The time model: bounds, clamping, random factor *)

Lemma eff_speed_mono_rand (s d a tf r r' : Q) :
  0 <= s -> 0 <= tf -> r <= r' ->
  eff_speed s d a tf r <= eff_speed s d a tf r'.
Proof.
  intros Hs Ht H. unfold eff_speed. apply py_max_mono.
  pose proof (perf_range d). pose proof (perf_range a).
  apply Qmult_le_compat_r; [|exact Ht].
  setoid_replace (s * perf d * perf a * r) with (r * (s * perf d * perf a))
    by ring.
  setoid_replace (s * perf d * perf a * r') with (r' * (s * perf d * perf a))
    by ring.
  apply Qmult_le_compat_r; [exact H|].
  apply Qmult_le_0_compat; [apply Qmult_le_0_compat|]; lra.
Qed.

Lemma eff_speed_at_floor (s d a tf r : Q) :
  s * perf d * perf a * r * tf <= 50 -> eff_speed s d a tf r = 50.
Proof.
  intros H. unfold eff_speed.
  match goal with
  | |- py_max 50 ?x = _ => destruct (py_max_cases 50 x) as [[? ?]|[? E]]
  end; [lra|exact E].
Qed.

(** X1.  The floor of 50 on the effective speed ("no crazy times") bounds
    every time by the time at speed 50; a car whose raw effective speed
    is at most 50 gets exactly that time. *)
Theorem simulate_time_minutes_ceiling (s d a tf r dist : Q) :
  0 <= dist ->
  exists t,
    simulate_time_minutes_at s d a tf r dist = Ok t /\
    t <= py_round (dist / 50 * 60) 3 /\
    (s * perf d * perf a * r * tf <= 50 -> t = py_round (dist / 50 * 60) 3).
Proof.
  intros Hd. rewrite simulate_time_minutes_at_value.
  eexists. split; [reflexivity|]. split.
  - apply py_round_mono. apply Qmult_le_compat_r; [|lra].
    apply Qdiv_le_antitone; [exact Hd|lra|apply eff_speed_floor].
  - intros H. now rewrite (eff_speed_at_floor _ _ _ _ _ H).
Qed.

Lemma simulate_time_minutes_ceiling_witness :
  exists t,
    simulate_time_minutes_at 10 (1 # 2) (1 # 2) 1 1 100 = Ok t /\
    t = 120000 # 1000.
Proof.
  destruct (simulate_time_minutes_ceiling 10 (1 # 2) (1 # 2) 1 1 100)
    as (t & Ht & _ & Hfloor); [discriminate|].
  exists t. split; [exact Ht|].
  rewrite Hfloor; [reflexivity|]. vm_compute. discriminate.
Defined.

Lemma clamp01_above (v : Q) : 1 <= v -> clamp01 v = clamp01 1.
Proof.
  intros H. unfold clamp01.
  destruct (py_min_cases 1 v) as [[? ?]|[_ ->]]; [lra|].
  reflexivity.
Qed.

Lemma clamp01_below (v : Q) : v <= 0 -> clamp01 v = clamp01 0.
Proof.
  intros H. unfold clamp01.
  destruct (py_min_cases 1 v) as [[_ ->]|[? ?]]; [|lra].
  destruct (py_max_cases 0 v) as [[? ?]|[_ ->]]; [lra|].
  reflexivity.
Qed.

(** X2.  Durability and acceleration outside [0,1] count as the nearest end
    of the interval: a value of 1 or more gives the time of 1, a value of
    0 or less gives the time of 0. *)
Theorem simulate_time_minutes_clamps (s d a tf r dist : Q) :
  (1 <= d -> simulate_time_minutes_at s d a tf r dist
             = simulate_time_minutes_at s 1 a tf r dist) /\
  (d <= 0 -> simulate_time_minutes_at s d a tf r dist
             = simulate_time_minutes_at s 0 a tf r dist) /\
  (1 <= a -> simulate_time_minutes_at s d a tf r dist
             = simulate_time_minutes_at s d 1 tf r dist) /\
  (a <= 0 -> simulate_time_minutes_at s d a tf r dist
             = simulate_time_minutes_at s d 0 tf r dist).
Proof.
  repeat split; intros H;
    unfold simulate_time_minutes_at, eff_speed, perf;
    rewrite ?(clamp01_above _ H), ?(clamp01_below _ H); reflexivity.
Qed.

Lemma simulate_time_minutes_clamps_witness :
  simulate_time_minutes_at 220 7 (90 # 100) 1 1 100
  = simulate_time_minutes_at 220 1 (90 # 100) 1 1 100.
Proof.
  apply (proj1 (simulate_time_minutes_clamps 220 7 (90 # 100) 1 1 100)).
  discriminate.
Defined.

Lemma uniform_range (lo hi u : Q) :
  lo <= hi -> 0 <= u <= 1 -> lo <= uniform lo hi u <= hi.
Proof.
  intros H [H0 H1]. unfold uniform.
  assert (0 <= (hi - lo) * u) by (apply Qmult_le_0_compat; lra).
  assert ((hi - lo) * u <= (hi - lo) * 1)
    by (rewrite !(Qmult_comm (hi - lo)); apply Qmult_le_compat_r; lra).
  lra.
Qed.

(** X4.  When [random.random()] returns a number of [0, 1] and the bounds are
    ordered, the call of the time model returns a time between the time
    for the upper bound of the random factor and the time for the lower
    bound. *)
Theorem simulate_time_minutes_between_bounds (s d a tf lo hi dist : Q)
    (w : world) :
  0 <= s -> 0 <= tf -> 0 <= dist -> lo <= hi ->
  0 <= random_stream w (random_pos w) <= 1 ->
  exists t,
    fst (simulate_time_minutes s d a tf (lo, hi) dist w) = Ok t /\
    no_slower (simulate_time_minutes_at s d a tf hi dist) (Ok t) /\
    no_slower (Ok t) (simulate_time_minutes_at s d a tf lo dist).
Proof.
  intros Hs Ht Hd Hb Hu.
  rewrite simulate_time_minutes_run. simpl fst.
  pose proof (uniform_range lo hi _ Hb Hu) as [Hlo Hhi].
  set (rand := uniform lo hi (random_stream w (random_pos w))) in *.
  exists (py_round (dist / eff_speed s d a tf rand * 60) 3).
  split; [apply simulate_time_minutes_at_value|].
  rewrite <- (simulate_time_minutes_at_value s d a tf rand dist).
  split; apply time_antitone_in_eff_speed; try exact Hd;
    apply eff_speed_mono_rand; assumption.
Qed.

Lemma simulate_time_minutes_between_bounds_witness :
  exists t,
    fst (simulate_time_minutes 220 (85 # 100) (90 # 100) 1
           default_variability 100 (scenario_world [])) = Ok t /\
    no_slower (simulate_time_minutes_at 220 (85 # 100) (90 # 100) 1
                 (105 # 100) 100) (Ok t) /\
    no_slower (Ok t)
              (simulate_time_minutes_at 220 (85 # 100) (90 # 100) 1
                 (95 # 100) 100).
Proof.
  apply (simulate_time_minutes_between_bounds 220 (85 # 100) (90 # 100) 1
           (95 # 100) (105 # 100) 100 (scenario_world []));
    try discriminate.
  split; discriminate.
Defined.

Lemma time_range_default (s d a tf r t : Q) :
  simulate_time_minutes_at s d a tf r default_distance_km = Ok t ->
  0 <= t <= 120.
Proof.
  rewrite simulate_time_minutes_at_value. intros H. inversion H; subst.
  pose proof (eff_speed_floor s d a tf r) as Hf.
  unfold default_distance_km. split.
  - apply (py_round_nonneg _ 3).
    apply Qmult_le_0_compat; [|lra]. apply Qle_shift_div_l; lra.
  - apply Qle_trans with (py_round (100 / 50 * 60) 3);
      [|vm_compute; discriminate].
    apply py_round_mono. apply Qmult_le_compat_r; [|lra].
    apply Qdiv_le_antitone; lra.
Qed.

(** X5.  Every time computed by a race that completes, and so every
    TIME_TAKEN it writes, lies between 0 and 120 minutes. *)
Theorem race_times_in_range (track_name : string) (fee prize : Q)
    (w : world) (rep : race_report) :
  fst (start_race track_name fee prize w) = Ok rep ->
  Forall (fun r => 0 <= row_TIME_MIN r <= 120) (rep_rows rep) /\
  Forall (fun p => 0 <= snd (fst p) <= 120) (rep_results_payload rep).
Proof.
  intros H.
  destruct (start_race track_name fee prize w) as [r w'] eqn:E.
  simpl in H. subst r.
  apply start_race_ok in E. cbv zeta in E.
  destruct E as (_ & _ & (tf & Hrows) & Hpay & _).
  assert (Hall : Forall (fun r => 0 <= row_TIME_MIN r <= 120) (rep_rows rep)).
  { apply Forall_forall. intros r Hr.
    destruct (Forall2_in_right _ _ _ _ Hrows Hr)
      as (row & _ & _ & _ & rand & Ht).
    exact (time_range_default _ _ _ _ _ _ Ht). }
  split; [exact Hall|].
  apply Forall_forall. intros [[cid t] pos] Hp. simpl.
  assert (Hin : In (cid, t) (map (fun p => fst p) (rep_results_payload rep)))
    by (apply in_map_iff; exists (cid, t, pos); auto).
  rewrite Hpay, enumerate_results_cars in Hin.
  apply in_map_iff in Hin. destruct Hin as (r & Er & Hr).
  inversion Er; subst.
  rewrite Forall_forall in Hall. apply Hall.
  apply (Permutation_in r (sorted_by_time_perm (rep_rows rep))). exact Hr.
Qed.

Lemma race_times_in_range_witness :
  exists rep,
    fst (start_race "Mountain Pass" 1000 5000 (scenario_world [])) = Ok rep /\
    Forall (fun r => 0 <= row_TIME_MIN r <= 120) (rep_rows rep).
Proof.
  assert (E : exists rep,
             fst (start_race "Mountain Pass" 1000 5000 (scenario_world []))
             = Ok rep)
    by (eexists; vm_compute; reflexivity).
  destruct E as [rep E]. exists rep. split; [exact E|].
  exact (proj1 (race_times_in_range _ _ _ _ _ E)).
Defined.

(** ** More on [execute] and the transaction scope *)

(** X6.  Outside a transaction scope [execute] is all or nothing for the
    session when the statement raises, and durable when it returns: a
    statement that raises changes nothing; a statement that ran is
    committed at once together with whatever was pending; only a failing
    commit leaves the change pending in the session. *)
Theorem execute_autocommits (op : sql_op) (eff : db -> db * Z) (w : world) :
  IN_TRANSACTION w = false ->
  let r := fst (execute op eff w) in
  let w' := snd (execute op eff w) in
  IN_TRANSACTION w' = false /\
  match r with
  | Ok n =>
      n = snd (eff (working w)) /\
      working w' = fst (eff (working w)) /\
      committed w' = fst (eff (working w))
  | Raise e =>
      (e = DatabaseError op /\ working w' = working w /\
       committed w' = committed w) \/
      (e = CommitError /\ working w' = fst (eff (working w)) /\
       committed w' = committed w)
  end.
Proof.
  intros Hflag. cbv zeta.
  destruct (execute op eff w) as [r w'] eqn:E. simpl.
  apply (execute_inv_auto _ _ _ _ _ Hflag) in E.
  destruct E as (Hf & [(-> & Hw & Hc)|[(-> & Hw & Hc)|(-> & Hw & Hc)]]);
    (split; [exact Hf|]).
  - repeat split; congruence.
  - right. auto.
  - left. auto.
Qed.

Lemma execute_autocommits_witness :
  committed
    (snd (execute UPDATE_FEE (sql_update_fee 1000) (scenario_world [])))
  = fst (sql_update_fee 1000 scenario_db).
Proof.
  pose proof (execute_autocommits UPDATE_FEE (sql_update_fee 1000)
                (scenario_world []) eq_refl) as H.
  cbv zeta in H. destruct H as (_ & H).
  exact (proj2 (proj2 H)).
Defined.

(** X7.  Scopes do not nest atomically: the exit of an inner scope commits
    what the enclosing scope has done so far, so that the rollback of the
    enclosing scope, when it later raises, no longer undoes it. *)
Theorem nested_scope_commits_outer (op : sql_op) (eff : db -> db * Z)
    (e : exn) (w : world) :
  faults w = [] ->
  let prog :=
    with_transaction
      (execute op eff ;; with_transaction (ret tt) ;; raise e) in
  fst (prog w) = Raise e /\
  working (snd (prog w)) = fst (eff (working w)) /\
  committed (snd (prog w)) = fst (eff (working w)) /\
  IN_TRANSACTION (snd (prog w)) = IN_TRANSACTION w.
Proof.
  intros Hq. cbv zeta.
  destruct w as [c wk f fs rs rp sc]. simpl in Hq. subst fs.
  repeat split.
Qed.

Lemma nested_scope_commits_outer_witness :
  committed
    (snd (with_transaction
            (execute UPDATE_FEE (sql_update_fee 1000) ;;
             with_transaction (ret tt) ;; raise KeyError)
            (scenario_world [])))
  = fst (sql_update_fee 1000 scenario_db).
Proof.
  exact (proj1 (proj2 (proj2
           (nested_scope_commits_outer UPDATE_FEE (sql_update_fee 1000)
              KeyError (scenario_world []) eq_refl)))).
Defined.

(** The settlement group when its final commit raises. *)
Lemma settlement_group_commit_failure (rid : option Z)
    (payload : list (Z * Q * Z)) (winner : Z) (fee prize : Q)
    (w w' : world) :
  settlement_group rid payload winner fee prize w = (Raise CommitError, w') ->
  exists id,
    rid = Some id /\
    working w' = settled_db id payload winner fee prize (working w) /\
    committed w' = committed w /\
    IN_TRANSACTION w' = IN_TRANSACTION w.
Proof.
  unfold settlement_group. intros H.
  apply with_transaction_inv in H.
  destruct H as (rb & wb & Hb & Hflag & Hcases).
  apply settlement_body_inv in Hb; [|reflexivity].
  destruct Hb as (Hc & Hf & Hrb). simpl in Hc.
  destruct rb as [u|e].
  - destruct Hrb as (id & -> & Hw). simpl in Hw.
    destruct Hcases as [(? & _)|(_ & _ & Hc' & Hw')]; [discriminate|].
    exists id. repeat split; congruence.
  - destruct Hcases as [(He & _)|(? & _)]; [|discriminate].
    inversion He; subst e.
    destruct Hrb as [?|Hg]; [discriminate|].
    destruct (not_group_failure _ Hg) as (_ & _ & _ & _ & N & _).
    congruence.
Qed.

(** X8.  When the final commit of the settlement group raises, no
    rollback is attempted: the session keeps the whole settlement
    uncommitted, and the next statement that [execute] runs outside a
    scope commits it together with its own effect. *)
Theorem failed_commit_is_committed_later (rid : option Z)
    (payload : list (Z * Q * Z)) (winner : Z) (fee prize : Q)
    (w : world) (op : sql_op) (eff : db -> db * Z) (n : Z) :
  IN_TRANSACTION w = false ->
  let w1 := snd (settlement_group rid payload winner fee prize w) in
  fst (settlement_group rid payload winner fee prize w) = Raise CommitError ->
  fst (execute op eff w1) = Ok n ->
  exists id,
    rid = Some id /\
    committed w1 = committed w /\
    working w1 = settled_db id payload winner fee prize (working w) /\
    committed (snd (execute op eff w1))
    = fst (eff (settled_db id payload winner fee prize (working w))).
Proof.
  intros Hflag. cbv zeta.
  destruct (settlement_group rid payload winner fee prize w) as [r w1] eqn:E.
  simpl. intros -> Hex.
  apply settlement_group_commit_failure in E.
  destruct E as (id & Hid & Hw & Hc & Hf).
  exists id. repeat split; try assumption.
  destruct (execute op eff w1) as [r2 w2] eqn:E2. simpl in *. subst r2.
  apply execute_inv_auto in E2; [|congruence].
  destruct E2 as (_ & [(_ & Hw2 & Hc2)|[(? & _)|(? & _)]]);
    try discriminate.
  congruence.
Qed.

Lemma failed_commit_is_committed_later_witness :
  let w := scenario_world [false; false; false; false; true] in
  let w1 := snd (settlement_group (Some 1%Z) [(1%Z, 31, 1%Z)] 1 1000 5000 w) in
  map budget
    (TEAMS (committed
              (snd (execute UPDATE_RACE_WINNER (sql_update_race_winner 1 1)
                      w1))))
  = map budget
      (TEAMS (settled_db 1 [(1%Z, 31, 1%Z)] 1 1000 5000 scenario_db)).
Proof.
  intros w w1.
  destruct (failed_commit_is_committed_later (Some 1%Z) [(1%Z, 31, 1%Z)]
              1 1000 5000 w UPDATE_RACE_WINNER (sql_update_race_winner 1 1)
              0%Z eq_refl eq_refl eq_refl)
    as (id & Hid & _ & _ & Hc).
  inversion Hid; subst id.
  fold w1 in Hc. rewrite Hc. reflexivity.
Defined.

(** ** More on the race page *)

(** [create_race] entered with the flag down: where the committed data
    stand after it. *)
Lemma create_race_committed (track_name : string) (w w' : world)
    (r : result (option Z)) :
  IN_TRANSACTION w = false ->
  create_race track_name w = (r, w') ->
  match r with
  | Ok _ =>
      working w' = fst (sql_insert_race track_name (working w)) /\
      committed w' = working w'
  | Raise e =>
      (e = DatabaseError INSERT_RACE /\ working w' = working w /\
       committed w' = committed w) \/
      (e = CommitError /\
       working w' = fst (sql_insert_race track_name (working w)) /\
       committed w' = committed w) \/
      (e = DatabaseError SELECT_MAX_RACE_ID /\
       working w' = fst (sql_insert_race track_name (working w)) /\
       committed w' = working w')
  end.
Proof.
  intros Hflag H. unfold create_race in H.
  apply bind_inv in H. destruct H as [(n & w1 & H1 & H2)|(e & H1 & ->)];
    apply (execute_inv_auto _ _ _ _ _ Hflag) in H1;
    destruct H1 as (Hf1 & [(? & Hw1 & Hc1)|[(? & Hw1 & Hc1)|(? & Hw1 & Hc1)]]);
    try discriminate.
  - apply bind_inv in H2. destruct H2 as [(v & w2 & H2 & H3)|(e & H2 & ->)];
      apply cursor_query_inv in H2;
      destruct H2 as ((Hc2 & Hw2 & Hf2) & [(? & _)|(? & _)]);
      try discriminate.
    + cbv [ret] in H3. inversion H3; subst; clear H3. split; congruence.
    + right. right. repeat split; congruence.
  - right. left. repeat split; congruence.
  - left. repeat split; congruence.
Qed.

(** The settlement group never changes the committed data when it
    raises. *)
Lemma settlement_group_raise_committed (rid : option Z)
    (payload : list (Z * Q * Z)) (winner : Z) (fee prize : Q)
    (w w' : world) (e : exn) :
  settlement_group rid payload winner fee prize w = (Raise e, w') ->
  committed w' = committed w /\
  (e <> CommitError -> e <> RollbackError -> working w' = committed w).
Proof.
  unfold settlement_group. intros H.
  apply with_transaction_inv in H.
  destruct H as (rb & wb & Hb & Hflag & Hcases).
  apply settlement_body_inv in Hb; [|reflexivity].
  destruct Hb as (Hc & Hf & Hrb). simpl in Hc.
  destruct rb as [u|e'].
  - destruct Hcases as [(? & _)|(He & _ & Hc' & _)]; [discriminate|].
    inversion He; subst e. split; [congruence|]. congruence.
  - destruct Hcases as [(He & _ & Hc' & Hw')|(He & _ & Hc' & _)];
      inversion He; subst; split; congruence.
Qed.

(** With an identifier at hand, [int(race_id)] cannot fail: the group
    raises only through the connector. *)
Lemma settlement_body_some_raise (id : Z) (payload : list (Z * Q * Z))
    (winner : Z) (fee prize : Q) (w wb : world) (e : exn) :
  IN_TRANSACTION w = true ->
  settlement_body (Some id) payload winner fee prize w = (Raise e, wb) ->
  group_failure e.
Proof.
  intros Hflag H. unfold settlement_body in H.
  rewrite (bind_ok _ _ w w id (eq_refl : py_int (Some id) w = (Ok id, w)))
    in H.
  apply bind_inv in H. destruct H as [(n1 & w1 & H1 & H)|(e' & H1 & Ee)];
    unfold insert_race_results in H1; rewrite execute_many_unfold in H1;
    apply (execute_inv_tx _ _ _ _ _ Hflag) in H1;
    destruct H1 as (_ & Hf1 & [(? & _)|(He & _)]); try discriminate.
  2:{ inversion He; subst e'. inversion Ee; subst e.
      unfold group_failure. auto. }
  rewrite (bind_ok _ _ w1 w1 id (eq_refl : py_int (Some id) w1 = (Ok id, w1)))
    in H.
  apply bind_inv in H. destruct H as [(n2 & w2 & H2 & H)|(e' & H2 & Ee)];
    unfold set_race_winner in H2;
    apply (execute_inv_tx _ _ _ _ _ Hf1) in H2;
    destruct H2 as (_ & Hf2 & [(? & _)|(He & _)]); try discriminate.
  2:{ inversion He; subst e'. inversion Ee; subst e.
      unfold group_failure. auto. }
  apply bind_inv in H. destruct H as [(n3 & w3 & H3 & H)|(e' & H3 & Ee)];
    unfold pay_participation_fee_for_all_teams_with_cars in H3;
    apply (execute_inv_tx _ _ _ _ _ Hf2) in H3;
    destruct H3 as (_ & Hf3 & [(? & _)|(He & _)]); try discriminate.
  2:{ inversion He; subst e'. inversion Ee; subst e.
      unfold group_failure. auto. }
  apply bind_inv in H. destruct H as [(n4 & w4 & H4 & H)|(e' & H4 & Ee)];
    unfold credit_winner_prize in H4;
    apply (execute_inv_tx _ _ _ _ _ Hf3) in H4;
    destruct H4 as (_ & Hf4 & [(? & _)|(He & _)]); try discriminate.
  inversion He; subst e'. inversion Ee; subst e.
  unfold group_failure. auto 6.
Qed.

Lemma settlement_group_some_raise (id : Z) (payload : list (Z * Q * Z))
    (winner : Z) (fee prize : Q) (w w' : world) (e : exn) :
  settlement_group (Some id) payload winner fee prize w = (Raise e, w') ->
  e = CommitError \/ e = RollbackError \/ group_failure e.
Proof.
  unfold settlement_group. intros H.
  apply with_transaction_inv in H.
  destruct H as (rb & wb & Hb & _ & Hcases).
  destruct rb as [u|e'].
  - destruct Hcases as [(? & _)|(He & _)]; [discriminate|].
    inversion He. auto.
  - apply settlement_body_some_raise in Hb; [|reflexivity].
    destruct Hcases as [(He & _)|(He & _)]; inversion He; subst; auto.
Qed.

Lemma track_lookup_same (tracks : list (string * (Q * string)))
    (name : string) (w w' w2 : world) (r : result (Q * string)) :
  track_lookup tracks name w = (r, w') ->
  track_lookup tracks name w2 = (r, w2).
Proof.
  unfold track_lookup.
  destruct (find _ tracks) as [kv|]; cbv [ret raise]; intros H;
    inversion H; reflexivity.
Qed.

(** Every way in which the page can raise, with the flag down at the
    start. *)
Lemma start_race_raise (track_name : string) (fee prize : Q)
    (w w' : world) (e : exn) :
  IN_TRANSACTION w = false ->
  start_race track_name fee prize w = (Raise e, w') ->
  let d1 := fst (sql_insert_race track_name (working w)) in
  (committed w' = committed w \/ committed w' = d1) /\
  (e = TypeError ->
   working w' = d1 /\ committed w' = d1 /\
   exists row, In row (sql_select_cars (working w)) /\ TEAM_ID row = None) /\
  (e = KeyError \/ e = StopException \/ e = DatabaseError SELECT_CARS \/
   e = DatabaseError SELECT_TEAMS \/ e = DatabaseError INSERT_RACE ->
   working w' = working w /\ committed w' = committed w).
Proof.
  intros Hflag E. cbv zeta.
  unfold start_race in E. cbv zeta in E.
  apply bind_inv in E. destruct E as [(t0 & w1 & H0 & E)|(e' & H1 & Ee)].
  2:{ apply track_lookup_inv in H1. destruct H1 as (-> & [ He | [? ?] ]);
        [|discriminate].
      inversion He; subst e'. inversion Ee; subst e.
      split; [now left|]. split; [discriminate|]. auto. }
  pose proof (track_lookup_inv _ _ _ _ _ H0) as (-> & _).
  apply bind_inv in E. destruct E as [(df_c & w1 & H1 & E)|(e' & H1 & Ee)];
    apply cursor_query_inv in H1;
    destruct H1 as ((Hc1 & Hw1 & Hf1) & [(Eq & _)|(He & _)]);
    try discriminate.
  2:{ inversion He; subst e'. inversion Ee; subst e.
      split; [now left|]. split; [discriminate|]. auto. }
  apply bind_inv in E. destruct E as [(df_t & w2 & H2 & E)|(e' & H2 & Ee)];
    apply cursor_query_inv in H2;
    destruct H2 as ((Hc2 & Hw2 & Hf2) & [(Eq2 & _)|(He & _)]);
    try discriminate.
  2:{ inversion He; subst e'. inversion Ee; subst e.
      split; [left; congruence|]. split; [discriminate|].
      intros _. split; congruence. }
  assert (Hflag2 : IN_TRANSACTION w2 = false) by congruence.
  assert (Hw20 : working w2 = working w) by congruence.
  assert (Hc20 : committed w2 = committed w) by congruence.
  destruct df_c as [|row0 roster].
  { apply bind_inv in E. destruct E as [(u & w3 & H3 & E)|(e' & H3 & Ee)];
      cbv [st_warning modify] in H3; [|discriminate].
    inversion H3; subst; clear H3.
    cbv [st_stop raise] in E. inversion E; subst; clear E. simpl.
    split; [now left|]. split; [discriminate|]. auto. }
  apply bind_inv in E. destruct E as [(rid & w3 & H3 & E)|(e' & H3 & Ee)].
  2:{ apply (create_race_committed _ _ _ _ Hflag2) in H3.
      inversion Ee; subst e'; clear Ee. rewrite Hw20, Hc20 in H3.
      destruct H3 as [(-> & Hw & Hc)|[(-> & Hw & Hc)|(-> & Hw & Hc)]].
      - split; [now left|]. split; [discriminate|]. auto.
      - split; [now left|]. split; [discriminate|].
        intros [?|[?|[?|[?|?]]]]; discriminate.
      - split; [right; congruence|]. split; [discriminate|].
        intros [?|[?|[?|[?|?]]]]; discriminate. }
  pose proof (create_race_inv _ _ _ _ H3) as (Hf3 & Hrid & _).
  apply (create_race_committed _ _ _ _ Hflag2) in H3.
  rewrite Hw20 in H3. destruct H3 as (Hw3 & Hc3).
  assert (Hd3 : committed w3 = fst (sql_insert_race track_name (working w)))
    by congruence.
  apply bind_inv in E. destruct E as [(t & w4 & H4 & E)|(e' & H4 & Ee)].
  2:{ pose proof (track_lookup_same _ _ _ _ w3 _ H0) as H0'.
      rewrite H0' in H4. discriminate. }
  apply track_lookup_inv in H4. destruct H4 as (-> & _).
  apply bind_inv in E. destruct E as [(rows & w4 & H4 & E)|(e' & H4 & Ee)];
    apply compute_rows_inv in H4; destruct H4 as ((Hc4 & Hw4 & Hf4) & Hrows).
  2:{ destruct Hrows as (-> & row & Hrow & Hnone). inversion Ee; subst e.
      split; [right; congruence|]. split.
      - intros _. split; [congruence|]. split; [congruence|].
        exists row. split; [|exact Hnone].
        injection Eq as Eq'. rewrite <- Eq'. exact Hrow.
      - intros [?|[?|[?|[?|?]]]]; discriminate. }
  apply bind_inv in E. destruct E as [(winner & w5 & H5 & E)|(e' & H5 & Ee)];
    apply first_team_id_inv in H5; destruct H5 as (-> & Hwin).
  2:{ destruct Hwin as (-> & _). inversion Ee; subst e.
      split; [right; congruence|]. split; [discriminate|].
      intros [?|[?|[?|[?|?]]]]; discriminate. }
  apply bind_inv in E. destruct E as [(u & w5 & H5 & E)|(e' & H5 & Ee)].
  { apply bind_inv in E. destruct E as [(u' & w6 & H6 & E)|(e' & H6 & Ee)].
    - cbv [ret] in E. discriminate.
    - cbv [st_success modify] in H6. discriminate. }
  inversion Ee; subst e'; clear Ee.
  subst rid.
  pose proof (settlement_group_some_raise _ _ _ _ _ _ _ _ H5) as Hcases.
  apply settlement_group_raise_committed in H5. destruct H5 as (Hc5 & Hw5).
  split; [right; congruence|]. split.
  - intros ->. exfalso.
    destruct Hcases as [ ? | [ ? | Hg ] ]; try discriminate.
    destruct (not_group_failure _ Hg) as (_ & N & _). congruence.
  - destruct Hcases as [ -> | [ -> | Hg ] ];
      try (intros [?|[?|[?|[?|?]]]]; discriminate).
    destruct (not_group_failure _ Hg)
      as (N1 & _ & _ & N4 & _ & _ & N7 & N8 & N9 & _).
    intros [?|[?|[?|[?|?]]]]; congruence.
Qed.

(** X9.  Whenever the handler raises before the results are shown, that
    is anywhere in lines 232-308 (track lookup, reading of the roster,
    [create_race], the time loop, the settlement block), the committed
    budgets, cars and results are those from before the race: the
    committed data never show a part of a settlement.  At most the Race
    row of [create_race], without a winner, has been added.  (The reads
    of lines 311 and 321 come after the settlement is committed; they are
    outside [start_race].) *)
Theorem failed_race_commits_no_settlement (track_name : string)
    (fee prize : Q) (w : world) (e : exn) :
  IN_TRANSACTION w = false ->
  committed w = working w ->
  fst (start_race track_name fee prize w) = Raise e ->
  let w' := snd (start_race track_name fee prize w) in
  TEAMS (committed w') = TEAMS (committed w) /\
  CARS (committed w') = CARS (committed w) /\
  RACE_RESULTS (committed w') = RACE_RESULTS (committed w) /\
  (RACES (committed w') = RACES (committed w) \/
   RACES (committed w')
   = RACES (committed w)
       ++ [mkRace (next_race_id (RACES (committed w))) track_name None]).
Proof.
  intros Hflag Hclean H. cbv zeta.
  destruct (start_race track_name fee prize w) as [r w'] eqn:E.
  simpl in H. subst r. simpl.
  apply (start_race_raise _ _ _ _ _ _ Hflag) in E. cbv zeta in E.
  destruct E as ([Hc|Hc] & _); rewrite Hc, ?Hclean.
  - repeat split; auto.
  - repeat split; auto.
Qed.

Lemma failed_race_commits_no_settlement_witness :
  let w := scenario_world
             [false; false; false; false; false; false; false; true] in
  map budget (TEAMS (committed (snd (start_race "Forest Run" 1000 5000 w))))
  = map budget (TEAMS scenario_db).
Proof.
  intros w.
  destruct (failed_race_commits_no_settlement "Forest Run" 1000 5000 w
              (DatabaseError UPDATE_FEE) eq_refl eq_refl eq_refl)
    as (Ht & _).
  now rewrite Ht.
Defined.

(** X10.  A car without a team blocks every race: while CARS holds a car whose
    TEAM_ID is NULL the page cannot complete. *)
Theorem teamless_car_blocks_race (track_name : string) (fee prize : Q)
    (w : world) (c : car) :
  In c (CARS (working w)) ->
  car_team_id c = None ->
  forall rep, fst (start_race track_name fee prize w) <> Ok rep.
Proof.
  intros Hc Hnone rep H.
  destruct (start_race track_name fee prize w) as [r w'] eqn:E.
  simpl in H. subst r.
  apply start_race_ok in E. cbv zeta in E.
  destruct E as (_ & _ & (tf & Hrows) & _).
  destruct (cars_in_select_cars _ _ Hc) as (row & Hrow & _ & Hteam).
  destruct (Forall2_in_left _ _ _ _ Hrows Hrow) as (r & _ & _ & Hsome & _).
  congruence.
Qed.

Lemma teamless_car_blocks_race_witness :
  let stray := mkCar 2 "Stray" None 200 (80 # 100) (80 # 100) in
  let d := mkDb [mkTeam 1 "T1" "Alice" 10000]
                [mkCar 1 "CarA" (Some 1%Z) 220 (85 # 100) (90 # 100); stray]
                [] [] in
  let w := mkWorld d d false [] (fun _ => 1 # 2) 0 [] in
  In stray (CARS (working w)) /\
  car_team_id stray = None /\
  forall rep, fst (start_race "Asphalt Sprint" 1000 5000 w) <> Ok rep.
Proof.
  intros stray d w.
  assert (Hin : In stray (CARS (working w))) by (simpl; auto).
  split; [exact Hin|]. split; [reflexivity|].
  exact (teamless_car_blocks_race "Asphalt Sprint" 1000 5000 w stray
           Hin eq_refl).
Defined.

(** ** Runs without faults of the connector *)

Lemma cursor_query_quiet {R : Type} (op : sql_op) (q : db -> R) (w : world) :
  faults w = [] -> cursor_query op q w = (Ok (q (working w)), w).
Proof.
  destruct w as [c wk f fs rs rp sc]. simpl. intros ->. reflexivity.
Qed.

Lemma execute_quiet (op : sql_op) (eff : db -> db * Z) (w : world) :
  faults w = [] -> IN_TRANSACTION w = false ->
  execute op eff w
  = (Ok (snd (eff (working w))),
     set_committed (set_working w (fst (eff (working w))))
                   (fst (eff (working w)))).
Proof.
  destruct w as [c wk f fs rs rp sc]. simpl. intros -> ->. reflexivity.
Qed.

Lemma create_race_quiet (track_name : string) (w : world) :
  faults w = [] -> IN_TRANSACTION w = false ->
  let d1 := fst (sql_insert_race track_name (working w)) in
  create_race track_name w
  = (Ok (sql_select_max_race_id d1), set_committed (set_working w d1) d1).
Proof.
  intros Hq Hflag. cbv zeta. unfold create_race.
  rewrite (bind_ok _ _ _ _ _ (execute_quiet _ _ w Hq Hflag)). cbv beta.
  unfold fetch_one_value.
  set (d1 := fst (sql_insert_race track_name (working w))).
  rewrite (bind_ok _ _ _ _ _
             (cursor_query_quiet _ _ (set_committed (set_working w d1) d1)
                Hq)).
  reflexivity.
Qed.

(** The loop of lines 272-287 stops at a row without a team. *)
Lemma compute_rows_teamless (tf : Q) (df_c : list car_row) (w : world)
    (row : car_row) :
  In row df_c -> TEAM_ID row = None ->
  exists e w', compute_rows tf df_c w = (Raise e, w') /\ session_eq w w'.
Proof.
  intros Hrow Hnone.
  destruct (compute_rows tf df_c w) as [[rows|e] w'] eqn:E;
    apply compute_rows_inv in E; destruct E as (Hs & Hr).
  - destruct (Forall2_in_left _ _ _ _ Hr Hrow) as (r & _ & _ & Hsome & _).
    congruence.
  - eauto.
Qed.

(** X11.  While CARS holds a car whose TEAM_ID is NULL, a run of the
    handler on a track of the catalogue, with the flag down and a
    connector that does not fail, ends with an exception after
    [create_race]: the race created for the attempt stays behind,
    committed, with no winner and no results; teams and cars are
    untouched. *)
Theorem teamless_car_leaves_race_behind (track_name : string)
    (fee prize : Q) (w : world) (c : car) :
  In track_name (map fst build_track_catalog) ->
  In c (CARS (working w)) ->
  car_team_id c = None ->
  IN_TRANSACTION w = false ->
  faults w = [] ->
  let w' := snd (start_race track_name fee prize w) in
  (exists e, fst (start_race track_name fee prize w) = Raise e) /\
  committed w' = working w' /\
  RACES (working w')
  = RACES (working w)
      ++ [mkRace (next_race_id (RACES (working w))) track_name None] /\
  RACE_RESULTS (working w') = RACE_RESULTS (working w) /\
  TEAMS (working w') = TEAMS (working w) /\
  CARS (working w') = CARS (working w).
Proof.
  intros Htrack Hc Hnone Hflag Hq. cbv zeta.
  destruct (track_lookup_known _ _ Htrack) as (t & Ht).
  destruct (cars_in_select_cars _ _ Hc) as (row & Hrow & _ & Hteam).
  unfold start_race. cbv zeta.
  rewrite (bind_ok _ _ _ _ _ (Ht w)). cbv beta.
  unfold cars_df, get_all_cars, teams_df, get_all_teams, fetch_all.
  rewrite (bind_ok _ _ _ _ _ (cursor_query_quiet _ _ w Hq)). cbv beta.
  rewrite (bind_ok _ _ _ _ _ (cursor_query_quiet _ _ w Hq)). cbv beta.
  destruct (sql_select_cars (working w)) as [|row0 roster] eqn:Eroster;
    [contradiction|].
  rewrite (bind_ok _ _ _ _ _ (create_race_quiet track_name w Hq Hflag)).
  cbv beta.
  set (d1 := fst (sql_insert_race track_name (working w))).
  set (w1 := set_committed (set_working w d1) d1).
  rewrite (bind_ok _ _ _ _ _ (Ht w1)). cbv beta.
  destruct (compute_rows_teamless (fst t) (row0 :: roster) w1 row Hrow)
    as (e & w2 & E & Hc2 & Hw2 & _); [congruence|].
  rewrite (bind_raise _ _ _ _ _ E). cbn [fst snd].
  split; [eauto|].
  rewrite Hc2, Hw2. unfold w1, d1. destruct w; simpl. repeat split.
Qed.

Lemma teamless_car_leaves_race_behind_witness :
  let d := mkDb [mkTeam 1 "T1" "Alice" 10000]
                [mkCar 1 "CarA" (Some 1%Z) 220 (85 # 100) (90 # 100);
                 mkCar 2 "Stray" None 200 (80 # 100) (80 # 100)] [] [] in
  let w := mkWorld d d false [] (fun _ => 1 # 2) 0 [] in
  RACES (committed (snd (start_race "Asphalt Sprint" 1000 5000 w)))
  = [mkRace 1 "Asphalt Sprint" None].
Proof.
  intros d w.
  destruct (teamless_car_leaves_race_behind "Asphalt Sprint" 1000 5000 w
              (mkCar 2 "Stray" None 200 (80 # 100) (80 # 100)))
    as (_ & Hc & Hr & _).
  - simpl. auto.
  - simpl. auto.
  - reflexivity.
  - reflexivity.
  - reflexivity.
  - rewrite Hc, Hr. reflexivity.
Defined.

(** X13.  The winning team is the team of a car with the smallest time, and
    among the cars with that time it is the one that comes first in the
    roster. *)
Theorem winner_has_best_time (track_name : string) (fee prize : Q)
    (w : world) (rep : race_report) :
  fst (start_race track_name fee prize w) = Ok rep ->
  exists r0 later,
    In r0 (rep_rows rep) /\
    rep_winner_team_id rep = row_TEAM_ID r0 /\
    (forall r, In r (rep_rows rep) -> row_TIME_MIN r0 <= row_TIME_MIN r) /\
    filter (fun r => Qeq_bool (row_TIME_MIN r) (row_TIME_MIN r0))
           (rep_rows rep)
    = r0 :: later.
Proof.
  intros H.
  destruct (start_race track_name fee prize w) as [r w'] eqn:E.
  simpl in H. subst r.
  apply start_race_ok in E. cbv zeta in E.
  destruct E as (_ & _ & _ & _ & (r0 & rest & Hs & Hwin) & _).
  pose proof (sorted_by_time_ascending (rep_rows rep)) as Hsorted.
  pose proof (sorted_by_time_stable (rep_rows rep) (row_TIME_MIN r0)) as Hst.
  pose proof (sorted_by_time_perm (rep_rows rep)) as Hperm.
  rewrite Hs in Hsorted, Hst, Hperm.
  exists r0,
    (filter (fun r => Qeq_bool (row_TIME_MIN r) (row_TIME_MIN r0)) rest).
  split; [apply (Permutation_in r0 Hperm); now left|].
  split; [exact Hwin|]. split.
  - intros r Hr.
    apply (Permutation_in r (Permutation_sym Hperm)) in Hr.
    destruct Hr as [<-|Hr]; [apply Qle_refl|].
    simpl in Hsorted. inversion Hsorted as [|? ? _ Hall]; subst.
    rewrite Forall_forall in Hall. apply Hall. now apply in_map.
  - rewrite <- Hst. simpl.
    now rewrite (proj2 (Qeq_bool_iff _ _) (Qeq_refl (row_TIME_MIN r0))).
Qed.

Lemma winner_has_best_time_witness :
  exists rep r0,
    fst (start_race "Asphalt Sprint" 1000 5000 (scenario_world [])) = Ok rep /\
    In r0 (rep_rows rep) /\
    rep_winner_team_id rep = row_TEAM_ID r0 /\
    (forall r, In r (rep_rows rep) -> row_TIME_MIN r0 <= row_TIME_MIN r).
Proof.
  assert (E : exists rep,
             fst (start_race "Asphalt Sprint" 1000 5000 (scenario_world []))
             = Ok rep)
    by (eexists; vm_compute; reflexivity).
  destruct E as (rep & E).
  destruct (winner_has_best_time _ _ _ _ _ E)
    as (r0 & later & Hin & Hwin & Hbest & _).
  exists rep, r0. auto.
Defined.

(** X14.  What a completed race does to every row of TEAMS: identifier, name
    and members stay; the budget loses the fee when the team owns a car
    and gains the prize when it is the winner.  A team without cars that
    did not win keeps its budget. *)
Theorem settlement_changes_per_team (track_name : string) (fee prize : Q)
    (w : world) (rep : race_report) :
  fst (start_race track_name fee prize w) = Ok rep ->
  let w' := snd (start_race track_name fee prize w) in
  Forall2
    (fun t t' =>
       team_id t' = team_id t /\ team_name t' = team_name t /\
       members t' = members t /\
       budget t'
       == budget t
          - (if team_has_car (working w) (team_id t) then fee else 0)
          + (if (team_id t =? rep_winner_team_id rep)%Z then prize else 0))
    (TEAMS (working w)) (TEAMS (working w')).
Proof.
  intros H. cbv zeta.
  destruct (start_race track_name fee prize w) as [r w'] eqn:E.
  simpl in H. subst r. simpl.
  apply start_race_ok in E. cbv zeta in E.
  destruct E as (_ & _ & _ & _ & _ & Hw & _).
  rewrite Hw, settled_db_TEAMS.
  change (TEAMS (fst (sql_insert_race track_name (working w))))
    with (TEAMS (working w)).
  set (d1 := fst (sql_insert_race track_name (working w))).
  induction (TEAMS (working w)) as [|t ts IH]; cbn [map]; constructor;
    [|exact IH].
  unfold settle_team. cbv zeta.
  rewrite (team_has_car_cars (working w) d1 (team_id t) eq_refl).
  destruct (team_has_car (working w) (team_id t));
    cbn [budget team_id team_name members];
    destruct (team_id t =? rep_winner_team_id rep)%Z;
    cbn [budget team_id team_name members];
    repeat split; ring.
Qed.

Lemma settlement_changes_per_team_witness :
  exists rep,
    fst (start_race "Asphalt Sprint" 1000 5000 (scenario_world [])) = Ok rep /\
    Forall2
      (fun t t' =>
         team_id t' = team_id t /\ team_name t' = team_name t /\
         members t' = members t /\
         budget t'
         == budget t
            - (if team_has_car scenario_db (team_id t) then 1000 else 0)
            + (if (team_id t =? rep_winner_team_id rep)%Z then 5000 else 0))
      (TEAMS scenario_db)
      (TEAMS (working (snd (start_race "Asphalt Sprint" 1000 5000
                              (scenario_world []))))).
Proof.
  assert (E : exists rep,
             fst (start_race "Asphalt Sprint" 1000 5000 (scenario_world []))
             = Ok rep)
    by (eexists; vm_compute; reflexivity).
  destruct E as (rep & E). exists rep. split; [exact E|].
  exact (settlement_changes_per_team _ _ _ _ _ E).
Defined.

(** ** Budget updates by team identifier *)

Lemma update_budget_missing (amount : Q) (tid : Z) (d : db) :
  ~ In tid (map team_id (TEAMS d)) ->
  sql_update_budget amount tid d = (d, 0%Z).
Proof.
  intros Hnot. unfold sql_update_budget.
  assert (Hall : forall t, In t (TEAMS d) -> (team_id t =? tid)%Z = false).
  { intros t Ht. apply Z.eqb_neq. intros E. apply Hnot.
    rewrite <- E. now apply in_map. }
  f_equal.
  - destruct d as [ts cs rs rrs]. unfold set_TEAMS. simpl in *. f_equal.
    rewrite <- (map_id ts) at 2. apply map_ext_in.
    intros t Ht. now rewrite (Hall t Ht).
  - rewrite (proj2 (length_zero_iff_nil _)); [reflexivity|].
    destruct (filter _ (TEAMS d)) as [|x xs] eqn:F; [reflexivity|].
    assert (Hx : In x (filter (fun t => (team_id t =? tid)%Z) (TEAMS d)))
      by (rewrite F; now left).
    apply filter_In in Hx. destruct Hx as (Hx & Hid).
    rewrite (Hall x Hx) in Hid. discriminate.
Qed.

Lemma budgets_after_update (amount : Q) (tid : Z) (ts : list team) (k : Z) :
  NoDup (map team_id ts) ->
  dict_get
    (compute_budgets_map
       (map (fun t => if (team_id t =? tid)%Z
                      then mkTeam (team_id t) (team_name t) (members t)
                                  (budget t + amount)
                      else t) ts)) k
  = match dict_get (compute_budgets_map ts) k with
    | Some b => Some (if (k =? tid)%Z then b + amount else b)
    | None => None
    end.
Proof.
  induction ts as [|t ts IH]; intros Hnd; [reflexivity|].
  inversion Hnd as [|? ? Hnotin Hnd']; subst.
  cbn [map compute_budgets_map dict_get].
  change (map (fun r => (team_id r, budget r)) ?l)
    with (compute_budgets_map l).
  rewrite (IH Hnd').
  destruct (dict_get (compute_budgets_map ts) k) as [b|]; [reflexivity|].
  destruct (Z.eqb_spec (team_id t) tid) as [E|N]; cbn [team_id budget].
  - destruct (Z.eqb_spec (team_id t) k) as [E'|N']; [|reflexivity].
    rewrite <- E', <- E, Z.eqb_refl. reflexivity.
  - destruct (Z.eqb_spec (team_id t) k) as [E'|N']; [|reflexivity].
    rewrite <- E', (proj2 (Z.eqb_neq _ _) N). reflexivity.
Qed.

(** X15.  [update_team_budget_delta] outside a transaction scope, when it
    returns: for an identifier that no team has, it changes nothing and
    reports 0 rows, without any error; with distinct identifiers, the
    budget read back for the team is its budget plus [delta] (no floor:
    it may become negative) and every other budget is as before. *)
Theorem update_team_budget_delta_effect (tid : Z) (delta : Q) (w : world)
    (n : Z) :
  IN_TRANSACTION w = false ->
  fst (update_team_budget_delta tid delta w) = Ok n ->
  let w' := snd (update_team_budget_delta tid delta w) in
  committed w' = working w' /\
  (~ In tid (map team_id (TEAMS (working w))) ->
   n = 0%Z /\ working w' = working w) /\
  (NoDup (map team_id (TEAMS (working w))) ->
   forall k,
     dict_get (compute_budgets_map (TEAMS (working w'))) k
     = match dict_get (compute_budgets_map (TEAMS (working w))) k with
       | Some b => Some (if (k =? tid)%Z then b + delta else b)
       | None => None
       end).
Proof.
  intros Hflag H. cbv zeta.
  unfold update_team_budget_delta in *.
  destruct (execute UPDATE_PRIZE (sql_update_budget delta tid) w)
    as [r w'] eqn:E.
  cbn [fst snd] in H |- *. subst r.
  apply (execute_inv_auto _ _ _ _ _ Hflag) in E.
  destruct E as (_ & [(Hn & Hw & Hc)|[(? & _)|(? & _)]]); try discriminate.
  assert (Hn' : n = snd (sql_update_budget delta tid (working w)))
    by (injection Hn; auto).
  split; [exact Hc|]. split.
  - intros Hnot. rewrite Hw, Hn', (update_budget_missing _ _ _ Hnot).
    split; reflexivity.
  - intros Hnd k. rewrite Hw. apply budgets_after_update. exact Hnd.
Qed.

Lemma update_team_budget_delta_effect_witness :
  let w' := snd (update_team_budget_delta 2 (-9000) (scenario_world [])) in
  dict_get (compute_budgets_map (TEAMS (working w'))) 2
  = Some (8000 + -9000) /\
  dict_get (compute_budgets_map (TEAMS (working w'))) 1 = Some 10000.
Proof.
  intros w'.
  destruct (update_team_budget_delta_effect 2 (-9000) (scenario_world [])
              1%Z eq_refl eq_refl) as (_ & _ & Hnd).
  assert (N : NoDup (map team_id (TEAMS (working (scenario_world []))))).
  { simpl. repeat constructor; simpl; intuition discriminate. }
  split; [exact (Hnd N 2%Z)|exact (Hnd N 1%Z)].
Defined.

(** What the page has done to TEAMS when it completes. *)
Lemma teams_after_race (track_name : string) (fee prize : Q)
    (w w' : world) (rep : race_report) :
  start_race track_name fee prize w = (Ok rep, w') ->
  TEAMS (working w')
  = map (settle_team (working w) (rep_winner_team_id rep) fee prize)
        (TEAMS (working w)).
Proof.
  intros E. apply start_race_ok in E. cbv zeta in E.
  destruct E as (_ & _ & _ & _ & _ & Hw & _).
  rewrite Hw, settled_db_TEAMS.
  change (TEAMS (fst (sql_insert_race track_name (working w))))
    with (TEAMS (working w)).
  apply map_ext. intros t. unfold settle_team. cbv zeta.
  now rewrite (team_has_car_cars (working w)
                 (fst (sql_insert_race track_name (working w)))
                 (team_id t) eq_refl).
Qed.

(** X16.  A winner that TEAMS does not know is no error: the race completes,
    every team that owns a car pays the fee, and the prize is credited to
    nobody. *)
Theorem prize_lost_without_winner_row (track_name : string) (fee prize : Q)
    (w : world) (rep : race_report) :
  fst (start_race track_name fee prize w) = Ok rep ->
  ~ In (rep_winner_team_id rep) (map team_id (TEAMS (working w))) ->
  let w' := snd (start_race track_name fee prize w) in
  TEAMS (working w')
  = map (fun t => if team_has_car (working w) (team_id t)
                  then mkTeam (team_id t) (team_name t) (members t)
                              (budget t - fee)
                  else t) (TEAMS (working w)).
Proof.
  intros H Hnot. cbv zeta.
  destruct (start_race track_name fee prize w) as [r w'] eqn:E.
  simpl in H. subst r. simpl.
  rewrite (teams_after_race _ _ _ _ _ _ E).
  apply map_ext_in. intros t Ht. unfold settle_team. cbv zeta.
  assert (Hne : (team_id t =? rep_winner_team_id rep)%Z = false).
  { apply Z.eqb_neq. intros Heq. apply Hnot. rewrite <- Heq.
    now apply in_map. }
  destruct (team_has_car (working w) (team_id t)); cbn [team_id];
    now rewrite Hne.
Qed.

Lemma prize_lost_without_winner_row_witness :
  let d := mkDb [mkTeam 1 "T1" "Alice" 10000]
                [mkCar 1 "CarA" (Some 7%Z) 220 (85 # 100) (90 # 100)] [] [] in
  let w := mkWorld d d false [] (fun _ => 1 # 2) 0 [] in
  TEAMS (working (snd (start_race "Asphalt Sprint" 1000 5000 w)))
  = [mkTeam 1 "T1" "Alice" 10000].
Proof.
  intros d w.
  assert (E : exists rep,
             fst (start_race "Asphalt Sprint" 1000 5000 w) = Ok rep /\
             rep_winner_team_id rep = 7%Z)
    by (eexists; split; vm_compute; reflexivity).
  destruct E as (rep & E & Hwin).
  rewrite (prize_lost_without_winner_row _ _ _ _ _ E).
  - reflexivity.
  - rewrite Hwin. simpl. intros [H|[]]. discriminate.
Defined.

(** ** [_rows_to_dicts] *)

Lemma skipn_nth_error {A : Type} (l : list A) (k : nat) (x : A) :
  nth_error l k = Some x -> skipn k l = x :: skipn (S k) l.
Proof.
  revert k. induction l as [|a l IH]; intros [|k] H; try discriminate.
  - injection H as ->. reflexivity.
  - simpl in H. cbn [skipn]. now rewrite (IH k H).
Qed.

Section RowsToDicts.
Context {V : Type}.

Lemma fill_item_raises (col_names : list string) (row : list V)
    (indices : list nat) (item : list (string * V)) (e : exn) :
  fill_item col_names row indices item = Raise e -> e = IndexError.
Proof.
  revert item. induction indices as [|i rest IH]; intros item; simpl.
  - discriminate.
  - destruct (nth_error col_names i); [|congruence].
    destruct (nth_error row i); [apply IH|congruence].
Qed.

Lemma fill_item_ok (col_names : list string) (row : list V) (m k : nat)
    (item : list (string * V)) :
  (k + m <= List.length col_names)%nat ->
  (k + m <= List.length row)%nat ->
  fill_item col_names row (seq k m) item
  = Ok (item ++ combine (firstn m (skipn k col_names))
                        (firstn m (skipn k row))).
Proof.
  revert k item. induction m as [|m IH]; intros k item Hc Hr.
  - simpl. now rewrite app_nil_r.
  - cbn [seq fill_item].
    destruct (nth_error col_names k) as [c|] eqn:Ec;
      [|apply nth_error_None in Ec; lia].
    destruct (nth_error row k) as [v|] eqn:Ev;
      [|apply nth_error_None in Ev; lia].
    rewrite IH by lia. f_equal.
    rewrite (skipn_nth_error col_names k c Ec), (skipn_nth_error row k v Ev).
    cbn [firstn combine]. now rewrite <- app_assoc.
Qed.

Lemma fill_item_short (col_names : list string) (row : list V) (m k : nat)
    (item : list (string * V)) :
  (k + m <= List.length col_names)%nat ->
  (k <= List.length row < k + m)%nat ->
  fill_item col_names row (seq k m) item = Raise IndexError.
Proof.
  revert k item. induction m as [|m IH]; intros k item Hc Hr; [lia|].
  cbn [seq fill_item].
  destruct (nth_error col_names k) as [c|] eqn:Ec;
    [|apply nth_error_None in Ec; lia].
  destruct (nth_error row k) as [v|] eqn:Ev; [|reflexivity].
  apply IH; [lia|].
  assert (k < List.length row)%nat
    by (apply nth_error_Some; congruence).
  lia.
Qed.

Lemma item_get_absent (item : list (string * V)) (k : string) :
  ~ In k (map fst item) -> item_get item k = None.
Proof.
  induction item as [|[k' v] item IH]; simpl; [reflexivity|].
  intros H. rewrite IH by tauto.
  destruct (String.eqb_spec k' k); [|reflexivity]. exfalso. tauto.
Qed.

Lemma item_get_combine (col_names : list string) (vals : list V) (i : nat)
    (c : string) :
  NoDup col_names ->
  List.length col_names = List.length vals ->
  nth_error col_names i = Some c ->
  item_get (combine col_names vals) c = nth_error vals i.
Proof.
  revert vals i. induction col_names as [|c0 cs IH]; intros vals i Hnd Hlen Hc.
  - destruct i; discriminate.
  - destruct vals as [|v vs]; [discriminate|].
    inversion Hnd as [|? ? Hnotin Hnd']; subst.
    simpl in Hlen. injection Hlen as Hlen.
    destruct i as [|i]; simpl in Hc.
    + injection Hc as ->. cbn [combine item_get nth_error].
      rewrite item_get_absent.
      * now rewrite String.eqb_refl.
      * intros Hin. apply Hnotin.
        apply in_map_iff in Hin. destruct Hin as ([k v'] & <- & Hin).
        apply in_combine_l in Hin. exact Hin.
    + cbn [combine item_get nth_error].
      rewrite (IH vs i Hnd' Hlen Hc).
      destruct (nth_error vs i) as [v'|] eqn:E; [reflexivity|].
      apply nth_error_None in E.
      assert (i < List.length cs)%nat by (apply nth_error_Some; congruence).
      lia.
Qed.

(** X17.  When every row has at least as many values as there are column
    names, [_rows_to_dicts] returns one dictionary per row, in order; with
    distinct column names the dictionary of a row maps the i-th name to
    the i-th value of the row (values beyond the last column are
    dropped).  A row that is too short raises [IndexError]. *)
Theorem rows_to_dicts_columns (col_names : list string)
    (rows : list (list V)) :
  (Forall (fun row => (List.length col_names <= List.length row)%nat) rows ->
   rows_to_dicts col_names rows
   = Ok (map (fun row =>
                combine col_names (firstn (List.length col_names) row))
             rows) /\
   (NoDup col_names ->
    forall row i c,
      In row rows -> nth_error col_names i = Some c ->
      item_get (combine col_names (firstn (List.length col_names) row)) c
      = nth_error row i)) /\
  (Exists (fun row => (List.length row < List.length col_names)%nat) rows ->
   rows_to_dicts col_names rows = Raise IndexError).
Proof.
  split.
  - intros Hall. split.
    + induction Hall as [|row rows Hrow _ IH]; [reflexivity|].
      cbn [rows_to_dicts map].
      rewrite (fill_item_ok col_names row (List.length col_names) 0 [])
        by (simpl; lia).
      rewrite IH. simpl. now rewrite firstn_all.
    + intros Hnd row i c Hin Hc.
      rewrite Forall_forall in Hall. specialize (Hall row Hin).
      assert (Hi : (i < List.length col_names)%nat)
        by (apply nth_error_Some; congruence).
      rewrite (item_get_combine col_names _ i c Hnd);
        [|rewrite length_firstn; lia|exact Hc].
      rewrite nth_error_firstn.
      now rewrite (proj2 (Nat.ltb_lt _ _) Hi).
  - intros Hex. induction Hex as [row rows Hrow|row rows _ IH].
    + cbn [rows_to_dicts].
      rewrite (fill_item_short col_names row (List.length col_names) 0 []);
        [reflexivity|simpl; lia|simpl; lia].
    + cbn [rows_to_dicts]. rewrite IH.
      destruct (fill_item col_names row _ []) as [item|e] eqn:E;
        [reflexivity|].
      now rewrite (fill_item_raises _ _ _ _ _ E).
Qed.
End RowsToDicts.

Lemma rows_to_dicts_columns_witness :
  let cols := ["CAR_ID"%string; "SPEED"%string] in
  rows_to_dicts cols [[1%Z; 220%Z]; [2%Z; 200%Z; 9%Z]]
  = Ok [[("CAR_ID"%string, 1%Z); ("SPEED"%string, 220%Z)];
        [("CAR_ID"%string, 2%Z); ("SPEED"%string, 200%Z)]]
  /\
  rows_to_dicts cols [[1%Z; 220%Z]; [2%Z]] = Raise IndexError.
Proof.
  intros cols.
  destruct (rows_to_dicts_columns cols [[1%Z; 220%Z]; [2%Z; 200%Z; 9%Z]])
    as ((Hok & _) & _).
  { repeat constructor. }
  destruct (rows_to_dicts_columns cols [[1%Z; 220%Z]; [2%Z]]) as (_ & Hshort).
  split; [exact Hok|].
  apply Hshort. right. left. simpl. lia.
Defined.

(** ** The table of budgets shown after a race *)

(** X18.  With distinct team identifiers, the table of budgets has one row per
    team, in the order of TEAM_ID; each row shows the name, the budget
    before and the budget after the settlement as floats, and as change
    the difference of these two floats rounded to cents, all on
    binary64. *)
Theorem budget_table_after_race (track_name : string) (fee prize : Q)
    (w : world) (rep : race_report) :
  NoDup (map team_id (TEAMS (working w))) ->
  fst (start_race track_name fee prize w) = Ok rep ->
  let w' := snd (start_race track_name fee prize w) in
  let df_t := sql_select_teams (working w) in
  let df_t_after := sql_select_teams (working w') in
  budget_rows (team_name_map df_t) (compute_budgets_map df_t)
              (compute_budgets_map df_t_after)
  = map (fun t =>
           let before := f64_of_number (budget t) in
           let after :=
             f64_of_number
               (budget (settle_team (working w) (rep_winner_team_id rep)
                                    fee prize t)) in
           (team_name t, before, after, f64_round (after - before) 2))
        df_t.
Proof.
  intros Hnd H. cbv zeta.
  destruct (start_race track_name fee prize w) as [r w'] eqn:E.
  cbn [fst snd] in H |- *. subst r.
  unfold sql_select_teams.
  rewrite (teams_after_race _ _ _ _ _ _ E).
  set (settle := settle_team (working w) (rep_winner_team_id rep) fee prize).
  set (ts := TEAMS (working w)) in *.
  set (before := order_by team_id ts).
  set (after := order_by team_id (map settle ts)).
  assert (Hid : forall t, team_id (settle t) = team_id t)
    by (intros t; apply settle_team_id).
  assert (Pb : Permutation before ts) by apply order_by_perm.
  assert (Pa : Permutation after (map settle ts)) by apply order_by_perm.
  assert (Nb : NoDup (map team_id before)).
  { apply (Permutation_NoDup (Permutation_sym (Permutation_map team_id Pb))).
    exact Hnd. }
  assert (Na : NoDup (map team_id after)).
  { apply (Permutation_NoDup (Permutation_sym (Permutation_map team_id Pa))).
    rewrite map_map. erewrite map_ext; [exact Hnd|]. exact Hid. }
  assert (Fn : map fst (team_name_map before) = map team_id before).
  { unfold team_name_map. rewrite map_map. reflexivity. }
  assert (Fb : map fst (compute_budgets_map before) = map team_id before).
  { unfold compute_budgets_map. rewrite map_map. reflexivity. }
  assert (Fa : map fst (compute_budgets_map after) = map team_id after).
  { unfold compute_budgets_map. rewrite map_map. reflexivity. }
  unfold budget_rows.
  rewrite dict_keys_distinct by (rewrite Fn; exact Nb).
  rewrite Fn, map_map.
  apply map_ext_in. intros t Ht.
  rewrite (dict_get_in (team_name_map before) (team_id t) (team_name t));
    [|rewrite Fn; exact Nb
     |unfold team_name_map;
      apply (in_map (fun r => (team_id r, team_name r))); exact Ht].
  rewrite (dict_get_in (compute_budgets_map before) (team_id t) (budget t));
    [|rewrite Fb; exact Nb
     |unfold compute_budgets_map;
      apply (in_map (fun r => (team_id r, budget r))); exact Ht].
  rewrite (dict_get_in (compute_budgets_map after) (team_id t)
             (budget (settle t))); [reflexivity|rewrite Fa; exact Na|].
  unfold compute_budgets_map. rewrite <- (Hid t).
  apply (in_map (fun r => (team_id r, budget r))).
  apply (Permutation_in _ (Permutation_sym Pa)).
  apply in_map. apply (Permutation_in _ Pb). exact Ht.
Qed.

Lemma budget_table_after_race_witness :
  let w := scenario_world [] in
  let w' := snd (start_race "Asphalt Sprint" 1000 (12335 # 1000) w) in
  budget_rows (team_name_map (sql_select_teams (working w)))
               (compute_budgets_map (sql_select_teams (working w)))
               (compute_budgets_map (sql_select_teams (working w')))
  = [("T1"%string, 10000, 9012.335, -987.67);
     ("T2"%string, 8000, 7000, -1000)]%float.
Proof.
  intros w w'.
  assert (E : exists rep,
             fst (start_race "Asphalt Sprint" 1000 (12335 # 1000) w) = Ok rep
             /\ rep_winner_team_id rep = 1%Z)
    by (eexists; split; vm_compute; reflexivity).
  destruct E as (rep & E & Hwin).
  assert (N : NoDup (map team_id (TEAMS (working w)))).
  { simpl. repeat constructor; simpl; intuition discriminate. }
  unfold w'.
  rewrite (budget_table_after_race _ _ _ _ _ N E).
  rewrite Hwin. vm_compute. reflexivity.
Defined.

(** ** The roster read by [get_all_cars] *)

Lemma filter_by_key_short {A : Type} (key : A -> Z) (l : list A) (k : Z) :
  NoDup (map key l) ->
  (List.length (filter (fun a => (key a =? k)%Z) l) <= 1)%nat.
Proof.
  induction l as [|a l IH]; simpl; intros Hnd; [lia|].
  inversion Hnd as [|? ? Hnotin Hnd']; subst.
  destruct (Z.eqb_spec (key a) k) as [E|N]; [|now apply IH].
  simpl.
  destruct (filter (fun a0 => (key a0 =? k)%Z) l) as [|x xs] eqn:F;
    [simpl; lia|].
  exfalso. apply Hnotin.
  assert (Hx : In x (filter (fun a0 => (key a0 =? k)%Z) l))
    by (rewrite F; now left).
  apply filter_In in Hx. destruct Hx as (Hx & Hk).
  apply Z.eqb_eq in Hk. rewrite E, <- Hk. now apply in_map.
Qed.

Lemma teams_of_car_short (d : db) (c : car) :
  NoDup (map team_id (TEAMS d)) ->
  (List.length (teams_of_car d c) <= 1)%nat.
Proof.
  intros Hnd. unfold teams_of_car.
  destruct (car_team_id c) as [tid|].
  - now apply filter_by_key_short.
  - induction (TEAMS d) as [|t ts IH]; simpl; [lia|].
    apply IH. now inversion Hnd.
Qed.

Lemma order_by_sorted {A : Type} (key : A -> Z) (l : list A) :
  StronglySorted Z.le (map key (order_by key l)).
Proof.
  apply StronglySorted_map.
  assert (H : StronglySorted (fun x y => (key x <=? key y)%Z = true)
                (order_by key l)).
  { apply sort_by_sorted.
    - intros a b. rewrite !Z.leb_le. lia.
    - intros a b c. rewrite !Z.leb_le. lia. }
  induction H as [|x l' Hs IH Hall]; constructor; [exact IH|].
  eapply Forall_impl; [|exact Hall].
  intros y Hy. now apply Z.leb_le.
Qed.

(** X19.  With distinct team identifiers the roster has exactly one row per
    car of CARS, in ascending order of CAR_ID: no car races twice, and a
    car without a team or with an unknown team is still on the roster,
    without a team name. *)
Theorem roster_one_row_per_car (d : db) :
  NoDup (map team_id (TEAMS d)) ->
  let roster := sql_select_cars d in
  List.length roster = List.length (CARS d) /\
  Permutation (map CAR_ID roster) (map car_id (CARS d)) /\
  StronglySorted Z.le (map CAR_ID roster) /\
  Forall (fun row =>
            TEAM_NAME row <> None ->
            exists t, In t (TEAMS d) /\ TEAM_ID row = Some (team_id t) /\
                      TEAM_NAME row = Some (team_name t))
         roster.
Proof.
  intros Hnd. cbv zeta.
  assert (Hrows : map CAR_ID (sql_select_cars d)
                  = map car_id (order_by car_id (CARS d))).
  { unfold sql_select_cars.
    set (F := fun c : car =>
                match teams_of_car d c with
                | [] => [join_row c None]
                | _ :: _ =>
                    map (fun t => join_row c (Some (team_name t)))
                        (teams_of_car d c)
                end).
    transitivity (map CAR_ID (flat_map F (order_by car_id (CARS d)))).
    { f_equal. apply flat_map_ext. intros c. unfold F.
      destruct (teams_of_car d c); reflexivity. }
    induction (order_by car_id (CARS d)) as [|c cs IH]; [reflexivity|].
    change (flat_map F (c :: cs)) with (F c ++ flat_map F cs).
    rewrite map_app, IH. unfold F.
    pose proof (teams_of_car_short d c Hnd) as Hshort.
    destruct (teams_of_car d c) as [|t [|t' ts]]; simpl in Hshort;
      [reflexivity|reflexivity|lia]. }
  split; [|split; [|split]].
  - rewrite <- (length_map CAR_ID), Hrows, length_map.
    apply Permutation_length, order_by_perm.
  - rewrite Hrows. apply Permutation_map, order_by_perm.
  - rewrite Hrows. apply order_by_sorted.
  - apply Forall_forall. intros row Hrow Hname.
    unfold sql_select_cars in Hrow. apply in_flat_map in Hrow.
    destruct Hrow as (c & _ & Hrow).
    destruct (teams_of_car d c) as [|t ts] eqn:E.
    + destruct Hrow as [<-|[]]. simpl in Hname. congruence.
    + apply in_map_iff in Hrow. destruct Hrow as (t' & <- & Ht').
      rewrite <- E in Ht'. unfold teams_of_car in Ht'.
      apply filter_In in Ht'. destruct Ht' as (Hin & Hmatch).
      exists t'. split; [exact Hin|]. split; [|reflexivity].
      simpl. destruct (car_team_id c) as [tid|]; [|discriminate].
      apply Z.eqb_eq in Hmatch. now subst.
Qed.

Lemma roster_one_row_per_car_witness :
  map CAR_ID (sql_select_cars scenario_db) = [1; 2]%Z.
Proof.
  assert (N : NoDup (map team_id (TEAMS scenario_db))).
  { simpl. repeat constructor; simpl; intuition discriminate. }
  pose proof (roster_one_row_per_car scenario_db N) as H.
  cbv zeta in H. destruct H as (Hlen & _).
  destruct (sql_select_cars scenario_db) as [|a [|b [|c l]]] eqn:E;
    try discriminate Hlen.
  revert E. vm_compute. intros E. injection E as <- <-. reflexivity.
Defined.

(** ** [compute_budgets_map] and [team_name_map] *)

(** X20.  The dictionaries built from the rows of TEAMS: an identifier that no
    row has is not a key (the page then falls back on 0.0); when several
    rows share an identifier the last one gives the value. *)
Theorem budgets_map_lookup (df : list team) (tid : Z) :
  (~ In tid (map team_id df) ->
   dict_get (compute_budgets_map df) tid = None /\
   dict_get (team_name_map df) tid = None) /\
  (forall l1 t l2,
     df = l1 ++ t :: l2 -> team_id t = tid ->
     ~ In tid (map team_id l2) ->
     dict_get (compute_budgets_map df) tid = Some (budget t) /\
     dict_get (team_name_map df) tid = Some (team_name t)).
Proof.
  split.
  - intros Hnot. split; apply dict_get_absent;
      unfold compute_budgets_map, team_name_map; rewrite map_map; exact Hnot.
  - intros l1 t l2 -> Hid Hnot.
    assert (G : forall (V : Type) (f : team -> V),
               dict_get (map (fun r => (team_id r, f r)) (l1 ++ t :: l2)) tid
               = Some (f t)).
    { intros V f. induction l1 as [|a l1 IH]; cbn [app map dict_get].
      - rewrite dict_get_absent by (rewrite map_map; exact Hnot).
        now rewrite Hid, Z.eqb_refl.
      - now rewrite IH. }
    split; apply G.
Qed.

Lemma budgets_map_lookup_witness :
  dict_get (compute_budgets_map
              [mkTeam 1 "T1" "a" 10; mkTeam 2 "T2" "b" 20;
               mkTeam 1 "T1bis" "c" 30]) 1
  = Some 30.
Proof.
  refine (proj1 (proj2 (budgets_map_lookup _ 1)
                   [mkTeam 1 "T1" "a" 10; mkTeam 2 "T2" "b" 20]
                   (mkTeam 1 "T1bis" "c" 30) [] eq_refl eq_refl _)).
  simpl. tauto.
Defined.

(** ** Reading the results back: [get_race_results] *)

Section SortedInput.
Context {A : Type}.
Variable leb : A -> A -> bool.

(** The stable sort leaves a sorted list as it is. *)
Lemma sort_by_sorted_id (l : list A) :
  StronglySorted (fun x y => leb x y = true) l -> sort_by leb l = l.
Proof.
  induction 1 as [|a l Hs IH Hall]; [reflexivity|].
  cbn [sort_by fold_right]. fold (sort_by leb l). rewrite IH.
  destruct l as [|x l']; [reflexivity|].
  cbn [insert_sorted]. inversion Hall as [|? ? Hax _]; subst.
  now rewrite Hax.
Qed.
End SortedInput.

Lemma flat_map_singletons {A B C : Type} (f : A -> list B) (g : A -> C)
    (h : B -> C) (l : list A) :
  (forall a, In a l -> exists b, f a = [b] /\ h b = g a) ->
  map h (flat_map f l) = map g l.
Proof.
  induction l as [|a l IH]; intros H; [reflexivity|].
  cbn [flat_map map]. rewrite map_app, IH by (intros; apply H; now right).
  destruct (H a (or_introl eq_refl)) as (b & -> & Hb). simpl. now rewrite Hb.
Qed.

Lemma filter_all {A : Type} (p : A -> bool) (l : list A) :
  (forall a, In a l -> p a = true) -> filter p l = l.
Proof.
  induction l as [|a l IH]; intros H; [reflexivity|].
  simpl. rewrite (H a (or_introl eq_refl)), IH; [reflexivity|].
  intros; apply H; now right.
Qed.

Lemma filter_none {A : Type} (p : A -> bool) (l : list A) :
  (forall a, In a l -> p a = false) -> filter p l = [].
Proof.
  induction l as [|a l IH]; intros H; [reflexivity|].
  simpl. rewrite (H a (or_introl eq_refl)), IH; [reflexivity|].
  intros; apply H; now right.
Qed.

(** With at most one team per identifier and exactly one car for the
    result, the joins give exactly one row. *)
Lemma join_result_single (d : db) (rr : race_result) :
  NoDup (map car_id (CARS d)) ->
  NoDup (map team_id (TEAMS d)) ->
  In (rr_car_id rr) (map car_id (CARS d)) ->
  exists v,
    join_result d rr = [v] /\
    RV_RACE_ID v = rr_race_id rr /\ RV_CAR_ID v = rr_car_id rr /\
    RV_TIME_TAKEN v = rr_time_taken rr /\ RV_POSITION v = rr_position rr /\
    RV_CAR_NAME v <> None.
Proof.
  intros Hcars Hteams Hin. unfold join_result. cbv zeta.
  pose proof (filter_by_key_short car_id (CARS d) (rr_car_id rr) Hcars)
    as Hshort.
  fold (cars_of_result d rr) in Hshort.
  destruct (cars_of_result d rr) as [|c [|c' cs]] eqn:E;
    [|clear Hshort|simpl in Hshort; lia].
  - exfalso. apply in_map_iff in Hin. destruct Hin as (c & Hid & Hc).
    assert (Hf : In c (cars_of_result d rr)).
    { unfold cars_of_result. apply filter_In. split; [exact Hc|].
      now apply Z.eqb_eq. }
    rewrite E in Hf. contradiction.
  - cbn [flat_map]. rewrite app_nil_r.
    pose proof (teams_of_car_short d c Hteams) as Ht.
    destruct (teams_of_car d c) as [|t [|t' ts]];
      [| |simpl in Ht; lia]; eexists; (split; [reflexivity|]);
      simpl; repeat split; discriminate.
Qed.

(** X21.  After a completed race on a database with distinct car identifiers
    and distinct team identifiers, where every stored result belongs to a
    stored race, [get_race_results] for the new race returns, when it
    returns, one row per result of the race, in the order of the
    positions: cars, times and positions are those of the payload. *)
Theorem race_results_read_back (track_name : string) (fee prize : Q)
    (w : world) (rep : race_report) (rid : Z) (rows : list result_view) :
  NoDup (map car_id (CARS (working w))) ->
  NoDup (map team_id (TEAMS (working w))) ->
  (forall rr, In rr (RACE_RESULTS (working w)) ->
              exists r, In r (RACES (working w)) /\
                        race_id r = rr_race_id rr) ->
  fst (start_race track_name fee prize w) = Ok rep ->
  rep_race_id rep = Some rid ->
  let w' := snd (start_race track_name fee prize w) in
  fst (get_race_results rid w') = Ok rows ->
  map (fun v => (RV_CAR_ID v, RV_TIME_TAKEN v, RV_POSITION v)) rows
  = rep_results_payload rep /\
  Forall (fun v => RV_RACE_ID v = rid /\ RV_CAR_NAME v <> None) rows.
Proof.
  intros Hcars Hteams Href H Hrid. cbv zeta.
  destruct (start_race track_name fee prize w) as [r w'] eqn:E.
  cbn [fst snd] in H |- *. subst r.
  pose proof (teams_after_race _ _ _ _ _ _ E) as Hts.
  apply start_race_ok in E. cbv zeta in E.
  destruct E as (_ & Hrid' & (tf & Hrows) & Hpay & _ & Hw & _).
  assert (rid = next_race_id (RACES (working w))) by congruence. subst rid.
  set (rid := next_race_id (RACES (working w))) in *.
  intros Hget.
  unfold get_race_results, fetch_all in Hget.
  destruct (cursor_query SELECT_RACE_RESULTS (sql_select_race_results rid) w')
    as [r2 w2] eqn:Eq.
  cbn [fst] in Hget. subst r2.
  apply cursor_query_inv in Eq. destruct Eq as (_ & [(Eq & _)|(? & _)]);
    [|discriminate].
  injection Eq as ->.
  set (d' := working w') in *.
  assert (Hcars' : CARS d' = CARS (working w))
    by (rewrite Hw, settled_db_CARS; reflexivity).
  assert (Hres : RACE_RESULTS d'
                 = RACE_RESULTS (working w)
                     ++ map (result_row rid) (rep_results_payload rep))
    by (rewrite Hw, settled_db_RACE_RESULTS; reflexivity).
  assert (Hteams' : NoDup (map team_id (TEAMS d'))).
  { rewrite Hts, map_map.
    erewrite map_ext; [exact Hteams|]. intros t. apply settle_team_id. }
  (* the results of the new race are the rows just written *)
  assert (Hnew : filter (fun rr => (rr_race_id rr =? rid)%Z) (RACE_RESULTS d')
                 = map (result_row rid) (rep_results_payload rep)).
  { rewrite Hres, filter_app, filter_none, filter_all; [reflexivity| |].
    - intros rr Hrr. apply in_map_iff in Hrr.
      destruct Hrr as ([[cid t] pos] & <- & _). apply Z.eqb_refl.
    - intros rr Hrr. destruct (Href rr Hrr) as (r & Hr & <-).
      now apply next_race_id_fresh. }
  (* every car of the payload is a car of CARS *)
  assert (Hknown : forall p, In p (rep_results_payload rep) ->
                             In (fst (fst p)) (map car_id (CARS d'))).
  { intros [[cid t] pos] Hp. simpl.
    assert (Hin : In (cid, t) (map (fun p => fst p) (rep_results_payload rep)))
      by (apply in_map_iff; exists (cid, t, pos); auto).
    rewrite Hpay, enumerate_results_cars in Hin.
    apply in_map_iff in Hin. destruct Hin as (r & Er & Hr).
    injection Er as <- <-.
    apply (Permutation_in r (sorted_by_time_perm (rep_rows rep))) in Hr.
    destruct (Forall2_in_right _ _ _ _ Hrows Hr) as (row & Hrow & Hc & _).
    destruct (select_cars_from_cars _ _ Hrow) as (c & Hcin & Hcid & _).
    rewrite Hcars'. apply in_map_iff. exists c. split; [congruence|exact Hcin]. }
  assert (Hsingle : forall rr,
            In rr (map (result_row rid) (rep_results_payload rep)) ->
            exists v, join_result d' rr = [v] /\
                      RV_RACE_ID v = rid /\ RV_CAR_NAME v <> None /\
                      (RV_CAR_ID v, RV_TIME_TAKEN v, RV_POSITION v)
                      = (rr_car_id rr, rr_time_taken rr, rr_position rr)).
  { intros rr Hrr. apply in_map_iff in Hrr.
    destruct Hrr as ([[cid t] pos] & <- & Hp).
    destruct (join_result_single d' (result_row rid (cid, t, pos)))
      as (v & Hv & H1 & H2 & H3 & H4 & H5).
    - rewrite Hcars'. exact Hcars.
    - exact Hteams'.
    - exact (Hknown _ Hp).
    - exists v. split; [exact Hv|]. simpl in *. repeat split; congruence. }
  unfold sql_select_race_results. rewrite Hnew.
  set (joined := flat_map (join_result d')
                   (map (result_row rid) (rep_results_payload rep))).
  assert (Hproj : map (fun v => (RV_CAR_ID v, RV_TIME_TAKEN v, RV_POSITION v))
                      joined
                  = rep_results_payload rep).
  { unfold joined.
    rewrite (flat_map_singletons (join_result d')
               (fun rr => (rr_car_id rr, rr_time_taken rr, rr_position rr))).
    - rewrite map_map. rewrite <- (map_id (rep_results_payload rep)) at 2.
      apply map_ext. now intros [[cid t] pos].
    - intros rr Hrr. destruct (Hsingle rr Hrr) as (v & Hv & _ & _ & Hp).
      exists v. auto. }
  assert (Hall : Forall (fun v => RV_RACE_ID v = rid /\ RV_CAR_NAME v <> None)
                        joined).
  { apply Forall_forall. intros v Hv. unfold joined in Hv.
    apply in_flat_map in Hv. destruct Hv as (rr & Hrr & Hv).
    destruct (Hsingle rr Hrr) as (v' & Hv' & H1 & H2 & _).
    rewrite Hv' in Hv. destruct Hv as [<-|[]]. auto. }
  assert (Hsorted : StronglySorted
                      (fun x y => (RV_POSITION x <=? RV_POSITION y)%Z = true)
                      joined).
  { assert (Hpos : map RV_POSITION joined
                   = map Z.of_nat (seq 1 (List.length (rep_rows rep)))).
    { transitivity (map (fun p : Z * Q * Z => snd p)
                        (map (fun v => (RV_CAR_ID v, RV_TIME_TAKEN v,
                                        RV_POSITION v)) joined)).
      { rewrite map_map. reflexivity. }
      rewrite Hproj, Hpay, enumerate_results_positions.
      unfold sorted_by_time. rewrite sort_by_length.
      rewrite <- seq_shift, map_map. apply map_ext. intros i. lia. }
    revert Hpos. generalize 1%nat. generalize (List.length (rep_rows rep)).
    clear. induction joined as [|v vs IH]; intros n k Hpos; [constructor|].
    destruct n as [|n]; [discriminate|]. simpl in Hpos.
    injection Hpos as Hv Hvs.
    constructor; [exact (IH n (S k) Hvs)|].
    apply Forall_forall. intros y Hy. apply Z.leb_le.
    assert (Hin : In (RV_POSITION y) (map Z.of_nat (seq (S k) n)))
      by (rewrite <- Hvs; now apply in_map).
    apply in_map_iff in Hin. destruct Hin as (i & <- & Hi).
    apply in_seq in Hi. lia. }
  unfold order_by. rewrite (sort_by_sorted_id _ _ Hsorted).
  split; [exact Hproj|exact Hall].
Qed.

Lemma race_results_read_back_witness :
  let w := scenario_world [] in
  let w' := snd (start_race "Asphalt Sprint" 1000 5000 w) in
  map RV_POSITION (sql_select_race_results 1 (working w')) = [1; 2]%Z /\
  map RV_CAR_ID (sql_select_race_results 1 (working w')) = [1; 2]%Z.
Proof.
  intros w w'.
  assert (E : exists rep,
             fst (start_race "Asphalt Sprint" 1000 5000 w) = Ok rep /\
             rep_race_id rep = Some 1%Z /\
             map (fun p : Z * Q * Z => snd p) (rep_results_payload rep)
             = [1; 2]%Z /\
             map (fun p : Z * Q * Z => fst (fst p)) (rep_results_payload rep)
             = [1; 2]%Z)
    by (eexists; repeat split; vm_compute; reflexivity).
  destruct E as (rep & E & Hrid & Hpos & Hcar).
  assert (Nc : NoDup (map car_id (CARS (working w)))).
  { simpl. repeat constructor; simpl; intuition discriminate. }
  assert (Nt : NoDup (map team_id (TEAMS (working w)))).
  { simpl. repeat constructor; simpl; intuition discriminate. }
  assert (Href : forall rr, In rr (RACE_RESULTS (working w)) ->
                   exists r, In r (RACES (working w)) /\
                             race_id r = rr_race_id rr).
  { simpl. contradiction. }
  destruct (race_results_read_back "Asphalt Sprint" 1000 5000 w rep 1
              (sql_select_race_results 1 (working w')) Nc Nt Href E Hrid)
    as (Hp & _).
  { vm_compute. reflexivity. }
  split.
  - rewrite <- Hpos, <- Hp, map_map. reflexivity.
  - rewrite <- Hcar, <- Hp, map_map. reflexivity.
Defined.
